(** * Protego: session lifecycle, API-key gate and encrypted-payload gate

    A shallow embedding of the TypeScript services of the repository
    (RedisService, AuthService, ApiKeyService with CassandraService,
    EncryptionService, ApiEncryptionHelper, DecryptPayloadInterceptor)
    and the properties the design document states about them.

    How the code is read:
    - a string is its sequence of UTF-16 code units, so that [length],
      [padEnd], [substring] and the UTF-8 and hex conversions of Buffer
      mean what they mean in JavaScript;
    - a number is an integer or NaN; conditions such as [if (ttl)] and
      [!body.iv] are ToBoolean of the value;
    - an [async] method is a function from the state of the world to a
      result (a value or a thrown exception) and a new state; the world
      holds the contents of Redis, Neo4j and Cassandra, the clock, the
      entropy [crypto.randomBytes] draws from, the log, and a schedule of
      the calls to external servers that fail;
    - bcrypt, the cipher of Node's crypto module and [JSON.parse] are
      parameters of the services that use them. *)

From Stdlib Require Import ZArith NArith List Lia Bool.
From Stdlib.Strings Require Import Ascii String Byte.
From Stdlib Require Import DecimalString DecimalPos DecimalN.
From stdpp Require Import base option list gmap strings.

#[local] Set Warnings "-register-all,-clear-no-such-hyp".
Local Open Scope N_scope.

(** ** JavaScript data *)

Module JS.

(** A JavaScript string is a sequence of UTF-16 code units. *)
Abbreviation jsstring := (list N).

(** String literals of the source (all of them ASCII). *)
Definition lit (s : string) : jsstring :=
  N_of_ascii <$> list_ascii_of_string s.

(** The JavaScript numbers the services handle: integers and NaN
    (the result of [parseInt] on a string without digits). *)
Inductive number := Num (z : Z) | NaN.

Definition num_mul (a : number) (k : Z) : number :=
  match a with Num z => Num (z * k) | NaN => NaN end.

Definition num_add (a b : number) : number :=
  match a, b with Num x, Num y => Num (x + y) | _, _ => NaN end.

(** JSON-like values: request bodies and stored payloads. The fields of
    an object are listed in property order. *)
Inductive value :=
| VUndefined
| VNull
| VBool (b : bool)
| VNum (n : number)
| VStr (s : jsstring)
| VArr (items : list value)
| VObj (fields : list (jsstring * value)).

(** ToBoolean. *)
Definition truthy_string (s : jsstring) : bool :=
  match s with [] => false | _ => true end.

Definition truthy_number (n : number) : bool :=
  match n with Num z => negb (z =? 0)%Z | NaN => false end.

Definition truthy (v : value) : bool :=
  match v with
  | VUndefined | VNull => false
  | VBool b => b
  | VNum n => truthy_number n
  | VStr s => truthy_string s
  | VArr _ | VObj _ => true
  end.

(** A string or [null]. *)
Definition truthy_nullable (o : option jsstring) : bool :=
  match o with Some s => truthy_string s | None => false end.

(** [o.name] for the names the services read: the value of the property,
    [undefined] when the object has none or when [o] is an array or a
    primitive. (On [null] and [undefined] the read would throw; the
    callers test the receiver for truthiness first.) *)
Fixpoint assoc (name : jsstring) (fields : list (jsstring * value)) : option value :=
  match fields with
  | [] => None
  | (k, v) :: rest => if decide (k = name) then Some v else assoc name rest
  end.

Definition prop (o : value) (name : jsstring) : value :=
  match o with
  | VObj fields => default VUndefined (assoc name fields)
  | _ => VUndefined
  end.

(** [a || b] on strings that may be undefined. *)
Definition or_string (a : option jsstring) (b : jsstring) : jsstring :=
  match a with
  | Some s => if truthy_string s then s else b
  | None => b
  end.

(** *** Exceptions *)

Inductive exn_class :=
| Error | TypeError | RangeError | SyntaxError
| ReplyError            (* an error reply of an external server *)
| BadRequestException | UnauthorizedException.

Record exn := Exn { exn_kind : exn_class; exn_message : jsstring }.

Inductive outcome (A : Type) :=
| Ok (a : A)
| Throw (e : exn).
Arguments Ok {A} a.
Arguments Throw {A} e.

#[global] Instance exn_class_eq_dec : EqDecision exn_class.
Proof. solve_decision. Defined.

#[global] Instance byte_eq_decision : EqDecision byte := Byte.byte_eq_dec.

(** *** Buffers: hex and UTF-8 *)

Definition byte_of_N (n : N) : byte :=
  default x00 (Byte.of_N (n mod 256)).

Definition hex_digit (n : N) : N :=
  if n <? 10 then 48 + n else 87 + n.

(** [buf.toString('hex')]: two lowercase digits per byte. *)
Definition toString_hex (buf : list byte) : jsstring :=
  flat_map (fun b => [hex_digit (Byte.to_N b / 16); hex_digit (Byte.to_N b mod 16)]) buf.

Definition hex_value (c : N) : option N :=
  if (48 <=? c) && (c <=? 57) then Some (c - 48)
  else if (97 <=? c) && (c <=? 102) then Some (c - 87)
  else if (65 <=? c) && (c <=? 70) then Some (c - 55)
  else None.

(** [Buffer.from(s, 'hex')]: decodes pairs of hex digits and stops at
    the first pair that is not hex; a trailing single digit is dropped. *)
Fixpoint Buffer_from_hex (s : jsstring) : list byte :=
  match s with
  | c1 :: c2 :: rest =>
      match hex_value c1, hex_value c2 with
      | Some h, Some l => byte_of_N (16 * h + l) :: Buffer_from_hex rest
      | _, _ => []
      end
  | _ => []
  end.

Definition is_high_surrogate (c : N) : bool := (0xD800 <=? c) && (c <=? 0xDBFF).
Definition is_low_surrogate (c : N) : bool := (0xDC00 <=? c) && (c <=? 0xDFFF).

Definition utf8_1 (c : N) : list byte := [byte_of_N c].
Definition utf8_2 (c : N) : list byte :=
  [byte_of_N (0xC0 + c / 64); byte_of_N (0x80 + c mod 64)].
Definition utf8_3 (c : N) : list byte :=
  [byte_of_N (0xE0 + c / 4096); byte_of_N (0x80 + (c / 64) mod 64);
   byte_of_N (0x80 + c mod 64)].
Definition utf8_4 (c : N) : list byte :=
  [byte_of_N (0xF0 + c / 262144); byte_of_N (0x80 + (c / 4096) mod 64);
   byte_of_N (0x80 + (c / 64) mod 64); byte_of_N (0x80 + c mod 64)].

Definition replacement : N := 0xFFFD.

(** [Buffer.from(s)] / input encoding ['utf-8']: a surrogate pair is one
    code point, a lone surrogate is encoded as U+FFFD. *)
Fixpoint utf8_encode (s : jsstring) : list byte :=
  match s with
  | [] => []
  | c :: rest =>
      if c <? 0x80 then utf8_1 c ++ utf8_encode rest
      else if c <? 0x800 then utf8_2 c ++ utf8_encode rest
      else if is_high_surrogate c then
        match rest with
        | d :: rest' =>
            if is_low_surrogate d
            then utf8_4 (0x10000 + (c - 0xD800) * 0x400 + (d - 0xDC00)) ++ utf8_encode rest'
            else utf8_3 replacement ++ utf8_encode rest
        | [] => utf8_3 replacement
        end
      else if is_low_surrogate c then utf8_3 replacement ++ utf8_encode rest
      else utf8_3 c ++ utf8_encode rest
  end.

Definition is_cont (b : byte) : bool :=
  (0x80 <=? Byte.to_N b) && (Byte.to_N b <=? 0xBF).

Definition code_units (cp : N) : jsstring :=
  if cp <? 0x10000 then [cp]
  else [0xD800 + (cp - 0x10000) / 0x400; 0xDC00 + (cp - 0x10000) mod 0x400].

(** Output encoding ['utf-8']: well-formed sequences become code units;
    a byte that starts no well-formed sequence becomes U+FFFD. *)
Fixpoint utf8_decode (bs : list byte) : jsstring :=
  match bs with
  | [] => []
  | b1 :: r1 =>
      let n1 := Byte.to_N b1 in
      let bad := replacement :: utf8_decode r1 in
      if n1 <? 0x80 then n1 :: utf8_decode r1
      else if n1 <? 0xC2 then bad
      else if n1 <? 0xE0 then
        match r1 with
        | b2 :: r2 =>
            if is_cont b2
            then ((n1 - 0xC0) * 64 + (Byte.to_N b2 - 0x80)) :: utf8_decode r2
            else bad
        | [] => bad
        end
      else if n1 <? 0xF0 then
        match r1 with
        | b2 :: b3 :: r3 =>
            let cp := (n1 - 0xE0) * 4096 + (Byte.to_N b2 - 0x80) * 64 + (Byte.to_N b3 - 0x80) in
            if is_cont b2 && is_cont b3 && (0x800 <=? cp)
               && negb (is_high_surrogate cp || is_low_surrogate cp)
            then cp :: utf8_decode r3
            else bad
        | _ => bad
        end
      else if n1 <? 0xF5 then
        match r1 with
        | b2 :: b3 :: b4 :: r4 =>
            let cp := (n1 - 0xF0) * 262144 + (Byte.to_N b2 - 0x80) * 4096
                      + (Byte.to_N b3 - 0x80) * 64 + (Byte.to_N b4 - 0x80) in
            if is_cont b2 && is_cont b3 && is_cont b4
               && (0x10000 <=? cp) && (cp <=? 0x10FFFF)
            then code_units cp ++ utf8_decode r4
            else bad
        | _ => bad
        end
      else bad
  end.

(** [s.padEnd(n, filler)] for a one-unit filler and [s.substring(0, n)]. *)
Definition padEnd (n : nat) (filler : N) (s : jsstring) : jsstring :=
  s ++ repeat filler (n - length s)%nat.

Definition substring0 (n : nat) (s : jsstring) : jsstring := take n s.

(** *** Number and date rendering, [JSON.stringify], [parseInt] *)

Definition decimal (z : Z) : jsstring :=
  lit (NilZero.string_of_int (Z.to_int z)).

Definition pad_digits (width : nat) (z : Z) : jsstring :=
  let d := decimal z in repeat 48 (width - length d)%nat ++ d.

(** Proleptic Gregorian date of a day number counted from 1970-01-01. *)
Definition civil_from_days (days : Z) : Z * Z * Z :=
  let z := (days + 719468)%Z in
  let era := (z / 146097)%Z in
  let doe := (z mod 146097)%Z in
  let yoe := ((doe - doe / 1460 + doe / 36524 - doe / 146096) / 365)%Z in
  let doy := (doe - (365 * yoe + yoe / 4 - yoe / 100))%Z in
  let mp := ((5 * doy + 2) / 153)%Z in
  let d := (doy - (153 * mp + 2) / 5 + 1)%Z in
  let m := (if mp <? 10 then mp + 3 else mp - 9)%Z in
  let y := (yoe + era * 400 + (if m <=? 2 then 1 else 0))%Z in
  (y, m, d).

Definition year_string (y : Z) : jsstring :=
  if ((0 <=? y) && (y <=? 9999))%Z then pad_digits 4 y
  else (if (y <? 0)%Z then lit "-" else lit "+") ++ pad_digits 6 (Z.abs y).

Definition iso_string (t : Z) : jsstring :=
  let ms := (t mod 86400000)%Z in
  let '(y, m, d) := civil_from_days (t / 86400000) in
  year_string y ++ lit "-" ++ pad_digits 2 m ++ lit "-" ++ pad_digits 2 d
    ++ lit "T" ++ pad_digits 2 (ms / 3600000) ++ lit ":"
    ++ pad_digits 2 (ms / 60000 mod 60) ++ lit ":"
    ++ pad_digits 2 (ms / 1000 mod 60) ++ lit "."
    ++ pad_digits 3 (ms mod 1000) ++ lit "Z".

(** [new Date(t).toISOString()]: a RangeError for an invalid time value. *)
Definition Date_toISOString (t : number) : outcome jsstring :=
  match t with
  | Num z =>
      if (Z.abs z <=? 8640000000000000)%Z then Ok (iso_string z)
      else Throw (Exn RangeError (lit "Invalid time value"))
  | NaN => Throw (Exn RangeError (lit "Invalid time value"))
  end.

Definition hex4 (c : N) : jsstring :=
  [hex_digit (c / 4096 mod 16); hex_digit (c / 256 mod 16);
   hex_digit (c / 16 mod 16); hex_digit (c mod 16)].

Definition unicode_escape (c : N) : jsstring := lit "\u" ++ hex4 c.

(** QuoteJSONString, between the quotes. *)
Fixpoint quote_units (s : jsstring) : jsstring :=
  match s with
  | [] => []
  | c :: rest =>
      if c =? 8 then lit "\b" ++ quote_units rest
      else if c =? 9 then lit "\t" ++ quote_units rest
      else if c =? 10 then lit "\n" ++ quote_units rest
      else if c =? 12 then lit "\f" ++ quote_units rest
      else if c =? 13 then lit "\r" ++ quote_units rest
      else if c =? 34 then [92; 34] ++ quote_units rest
      else if c =? 92 then [92; 92] ++ quote_units rest
      else if c <? 0x20 then unicode_escape c ++ quote_units rest
      else if is_high_surrogate c then
        match rest with
        | d :: rest' =>
            if is_low_surrogate d then c :: d :: quote_units rest'
            else unicode_escape c ++ quote_units rest
        | [] => unicode_escape c
        end
      else if is_low_surrogate c then unicode_escape c ++ quote_units rest
      else c :: quote_units rest
  end.

Definition quote (s : jsstring) : jsstring := [34] ++ quote_units s ++ [34].

Definition join (sep : jsstring) (parts : list jsstring) : jsstring :=
  match parts with
  | [] => []
  | p :: ps => p ++ flat_map (fun q => sep ++ q) ps
  end.

(** [JSON.stringify]; [None] is the result [undefined]. A property whose
    value serializes to [undefined] is left out of an object and becomes
    [null] in an array. *)
Fixpoint JSON_stringify (v : value) : option jsstring :=
  match v with
  | VUndefined => None
  | VNull => Some (lit "null")
  | VBool b => Some (if b then lit "true" else lit "false")
  | VNum (Num z) => Some (decimal z)
  | VNum NaN => Some (lit "null")
  | VStr s => Some (quote s)
  | VArr items =>
      Some (lit "[" ++ join (lit ",")
              (map (fun x => default (lit "null") (JSON_stringify x)) items)
            ++ lit "]")
  | VObj fields =>
      Some (lit "{" ++ join (lit ",")
              (omap (fun '(k, x) =>
                       (fun s => quote k ++ lit ":" ++ s) <$> JSON_stringify x) fields)
            ++ lit "}")
  end.

(** [JSON.stringify(o)] for a plain object [o], always a string. *)
Definition JSON_stringify_record (fields : list (jsstring * value)) : jsstring :=
  lit "{" ++ join (lit ",")
    (omap (fun '(k, x) =>
             (fun s => quote k ++ lit ":" ++ s) <$> JSON_stringify x) fields)
  ++ lit "}".

Definition is_whitespace (c : N) : bool :=
  (c =? 9) || (c =? 10) || (c =? 11) || (c =? 12) || (c =? 13) || (c =? 32)
  || (c =? 0xA0) || (c =? 0x1680) || ((0x2000 <=? c) && (c <=? 0x200A))
  || (c =? 0x2028) || (c =? 0x2029) || (c =? 0x202F) || (c =? 0x205F)
  || (c =? 0x3000) || (c =? 0xFEFF).

Fixpoint trim_start (s : jsstring) : jsstring :=
  match s with
  | c :: rest => if is_whitespace c then trim_start rest else s
  | [] => []
  end.

Definition digit_value (radix c : N) : option N :=
  match hex_value c with
  | Some d => if d <? radix then Some d else None
  | None => None
  end.

(** The value of the longest prefix of digits; [None] when it is empty. *)
Fixpoint digits (radix : N) (s : jsstring) (acc : option N) : option N :=
  match s with
  | c :: rest =>
      match digit_value radix c with
      | Some d => digits radix rest (Some (default 0 acc * radix + d))
      | None => acc
      end
  | [] => acc
  end.

Definition strip_sign (s : jsstring) : bool * jsstring :=
  match s with
  | c :: rest => if c =? 45 then (true, rest) else if c =? 43 then (false, rest) else (false, s)
  | [] => (false, s)
  end.

Definition strip_radix (s : jsstring) : N * jsstring :=
  match s with
  | c :: x :: rest =>
      if (c =? 48) && ((x =? 120) || (x =? 88)) then (16, rest) else (10, s)
  | _ => (10, s)
  end.

(** [parseInt(s)] without a radix argument. Integers are kept exact,
    which is what [parseInt] returns for a numeral of at most 2^53;
    beyond, it returns the nearest double, or Infinity, and neither is
    modelled: what is stated of [parseInt] keeps the numeral within
    that bound. *)
Definition parseInt (s : jsstring) : number :=
  let '(neg, s2) := strip_sign (trim_start s) in
  let '(radix, s3) := strip_radix s2 in
  match digits radix s3 None with
  | None => NaN
  | Some n => Num (if neg then - Z.of_N n else Z.of_N n)
  end.

End JS.

(** ** The world outside the process

    Redis, Neo4j, Cassandra, the clock, the entropy source and the log
    are one state. Every call to an external server is numbered, and the
    fault schedule says which calls fail (connection loss, timeout): the
    services cannot tell in advance. *)

Module Sys.
Import JS.

(** A Redis string key: its value and the instant (ms) it expires. *)
Record entry := Entry { e_value : jsstring; e_expires : option Z }.

(** A [(:User)] node of the graph. *)
Record user_node := UserNode {
  u_email : jsstring;
  u_hashedPassword : jsstring;
  u_createdAt : Z }.

(** A row of [api_keys]. *)
Record api_key_row := ApiKeyRow {
  key_id : jsstring;
  api_key : jsstring;
  client_name : jsstring;
  is_active : bool;
  created_at : Z;
  last_used : option Z;
  permissions : list jsstring }.

Inductive level := INFO | DEBUG | WARN | ERROR.

(** A log line keeps the message and the data logged with it apart. *)
Record log_line := LogLine {
  l_level : level;
  l_message : jsstring;
  l_data : list (jsstring * jsstring) }.

Record World := mkWorld {
  now : Z;                          (* Date.now(), in ms *)
  calls : nat;                      (* external calls made so far *)
  fault : nat -> option exn;        (* the fault schedule *)
  redis : gmap jsstring entry;
  users : list user_node;
  api_keys : list api_key_row;
  entropy : nat -> byte;            (* the bytes crypto.randomBytes yields *)
  drawn : nat;                      (* how many were consumed *)
  log : list log_line }.

Definition with_now (t : Z) (w : World) : World :=
  mkWorld t (calls w) (fault w) (redis w) (users w) (api_keys w) (entropy w) (drawn w) (log w).
Definition with_calls (n : nat) (w : World) : World :=
  mkWorld (now w) n (fault w) (redis w) (users w) (api_keys w) (entropy w) (drawn w) (log w).
Definition with_redis (r : gmap jsstring entry) (w : World) : World :=
  mkWorld (now w) (calls w) (fault w) r (users w) (api_keys w) (entropy w) (drawn w) (log w).
Definition with_users (u : list user_node) (w : World) : World :=
  mkWorld (now w) (calls w) (fault w) (redis w) u (api_keys w) (entropy w) (drawn w) (log w).
Definition with_api_keys (k : list api_key_row) (w : World) : World :=
  mkWorld (now w) (calls w) (fault w) (redis w) (users w) k (entropy w) (drawn w) (log w).
Definition with_drawn (n : nat) (w : World) : World :=
  mkWorld (now w) (calls w) (fault w) (redis w) (users w) (api_keys w) (entropy w) n (log w).
Definition with_log (l : list log_line) (w : World) : World :=
  mkWorld (now w) (calls w) (fault w) (redis w) (users w) (api_keys w) (entropy w) (drawn w) l.

(** Promise-returning code: a state transformer that returns or throws. *)
Definition M (A : Type) : Type := World -> outcome A * World.

#[global] Instance M_ret : MRet M := fun A a w => (Ok a, w).
#[global] Instance M_bind : MBind M := fun A B k m w =>
  match m w with
  | (Ok a, w') => k a w'
  | (Throw e, w') => (Throw e, w')
  end.

Definition throw {A} (e : exn) : M A := fun w => (Throw e, w).

Definition lift {A} (o : outcome A) : M A := fun w => (o, w).

(** [try { body } catch (e) { handler e }] *)
Definition try_catch {A} (body : M A) (handler : exn -> M A) : M A := fun w =>
  match body w with
  | (Ok a, w') => (Ok a, w')
  | (Throw e, w') => handler e w'
  end.

(** A call to an external server: it is counted, and fails when the
    fault schedule says so. *)
Definition external {A} (op : World -> outcome A * World) : M A := fun w =>
  let w1 := with_calls (S (calls w)) w in
  match fault w (calls w) with
  | Some e => (Throw e, w1)
  | None => op w1
  end.

Definition Date_now : M Z := fun w => (Ok (now w), w).

(** [new Date().toISOString()] *)
Definition new_Date_toISOString : M jsstring := fun w => (Ok (iso_string (now w)), w).

(** [crypto.randomBytes(n)] *)
Definition randomBytes (n : nat) : M (list byte) := fun w =>
  (Ok (map (entropy w) (seq (drawn w) n)), with_drawn (drawn w + n) w).

Definition logger (lv : level) (message : jsstring)
    (data : list (jsstring * jsstring)) : M unit := fun w =>
  (Ok tt, with_log (log w ++ [LogLine lv message data]) w).

(** [try { body } finally { fin }] *)
Definition finally {A} (body : M A) (fin : M unit) : M A := fun w =>
  let '(r, w1) := body w in
  match fin w1 with
  | (Ok _, w2) => (r, w2)
  | (Throw e, w2) => (Throw e, w2)
  end.

(** Time passes between two requests. *)
Definition advance (dt : Z) (w : World) : World := with_now (now w + dt) w.

End Sys.

(** ** RedisService *)

Module RedisService.
Import JS Sys.

(** What a read of [key] sees: the value, unless the key expired. *)
Definition live (w : World) (key : jsstring) : option jsstring :=
  match redis w !! key with
  | Some (Entry v None) => Some v
  | Some (Entry v (Some t)) => if (now w <? t)%Z then Some v else None
  | None => None
  end.

(** The commands of the client. SETEX refuses an expire time that is
    not positive. Redis also refuses one whose expiry instant does not
    fit its signed 64-bit count of milliseconds, which is not
    modelled: what is stated of a write with an expire time keeps it
    within that range. *)
Definition client_get (key : jsstring) : M (option jsstring) :=
  external (fun w => (Ok (live w key), w)).

Definition client_setEx (key : jsstring) (seconds : number) (value : jsstring) : M unit :=
  external (fun w =>
    match seconds with
    | Num s =>
        if (0 <? s)%Z
        then (Ok tt, with_redis (<[key := Entry value (Some (now w + s * 1000)%Z)]> (redis w)) w)
        else (Throw (Exn ReplyError (lit "ERR invalid expire time in 'setex' command")), w)
    | NaN => (Throw (Exn ReplyError (lit "ERR value is not an integer or out of range")), w)
    end).

Definition client_set (key value : jsstring) : M unit :=
  external (fun w => (Ok tt, with_redis (<[key := Entry value None]> (redis w)) w)).

Definition client_del (key : jsstring) : M N :=
  external (fun w =>
    (Ok (match live w key with Some _ => 1 | None => 0 end),
     with_redis (delete key (redis w)) w)).

Definition client_exists (key : jsstring) : M N :=
  external (fun w => (Ok (match live w key with Some _ => 1 | None => 0 end), w)).

Definition get (key : jsstring) : M (option jsstring) := client_get key.

Definition set (key value : jsstring) (ttl : option number) : M unit :=
  match ttl with
  | Some seconds =>
      if truthy_number seconds then client_setEx key seconds value
      else client_set key value
  | None => client_set key value
  end.

Definition delete (key : jsstring) : M unit :=
  _ ← client_del key; mret tt.

Definition exists_ (key : jsstring) : M bool :=
  n ← client_exists key; mret (n =? 1).

Definition sessionKey (sessionToken : jsstring) : jsstring :=
  lit "session:" ++ sessionToken.
Definition metadataKey (sessionToken : jsstring) : jsstring :=
  lit "session:metadata:" ++ sessionToken.

Definition metadata_record (createdAt expiresAt sessionToken : jsstring)
  : list (jsstring * value) :=
  [(lit "createdAt", VStr createdAt);
   (lit "expiresAt", VStr expiresAt);
   (lit "token", VStr sessionToken)].

Definition storeSession (sessionToken : jsstring)
    (data : list (jsstring * value)) (ttl : number) : M unit :=
  _ ← set (sessionKey sessionToken) (JSON_stringify_record data) (Some ttl);
  createdAt ← new_Date_toISOString;
  t ← Date_now;
  expiresAt ← lift (Date_toISOString (num_add (Num t) (num_mul ttl 1000)));
  set (metadataKey sessionToken)
      (JSON_stringify_record (metadata_record createdAt expiresAt sessionToken))
      (Some (num_mul ttl 2)).

Record status := Status { valid : bool; expired : bool }.

Definition checkSessionStatus (sessionToken : jsstring) : M status :=
  sessionData ← get (sessionKey sessionToken);
  metadata ← get (metadataKey sessionToken);
  if truthy_nullable sessionData then mret (Status true false)
  else if truthy_nullable metadata then mret (Status false true)
  else mret (Status false false).

(** [Promise.all] of two promises that were both started: the second
    command is sent whatever happens to the first, and the first
    rejection is the one reported. *)
Definition all2 (a b : M unit) : M unit := fun w =>
  let '(ra, w1) := a w in
  let '(rb, w2) := b w1 in
  match ra, rb with
  | Throw e, _ => (Throw e, w2)
  | Ok _, Throw e => (Throw e, w2)
  | Ok _, Ok _ => (Ok tt, w2)
  end.

Definition deleteSession (sessionToken : jsstring) : M unit :=
  all2 (delete (sessionKey sessionToken)) (delete (metadataKey sessionToken)).

(** *** Histories of the session store *)

Inductive event :=
| Store (token : jsstring) (data : list (jsstring * value)) (ttl : number)
| Delete (token : jsstring)
| Check (token : jsstring)
| Wait (dt : N).

Definition apply_event (ev : event) (w : World) : World :=
  match ev with
  | Store token data ttl => (storeSession token data ttl w).2
  | Delete token => (deleteSession token w).2
  | Check token => (checkSessionStatus token w).2
  | Wait dt => advance (Z.of_N dt) w
  end.

Fixpoint run (history : list event) (w : World) : World :=
  match history with
  | [] => w
  | ev :: rest => run rest (apply_event ev w)
  end.

(** The keys a history ever stored a record under. *)
Fixpoint written (history : list event) : list jsstring :=
  match history with
  | [] => []
  | Store token _ _ :: rest => sessionKey token :: metadataKey token :: written rest
  | _ :: rest => written rest
  end.

(** A key is present when a read returns a value for it. *)
Definition present (w : World) (key : jsstring) : bool :=
  match live w key with Some _ => true | None => false end.

End RedisService.

(** ** Messages and error codes *)

Module Messages.
Import JS.

Definition LOGIN_SUCCESSFUL := lit "Login successful".
Definition SIGNUP_SUCCESSFUL := lit "Signup successful".

Definition INVALID_API_KEY := lit "Invalid or missing API key".
Definition MISSING_ENCRYPTED_PAYLOAD := lit "Missing encrypted payload".
Definition INVALID_ENCRYPTED_FORMAT := lit "Invalid encrypted payload format".
Definition ENCRYPTION_FAILED := lit "Encryption failed: {{error}}".
Definition DECRYPTION_FAILED := lit "Decryption failed: {{error}}".
Definition CASSANDRA_QUERY_FAILED := lit "Cassandra query failed: {{error}}".

Definition LOGIN_MISSING_INFO := lit "Login attempt with missing information".
Definition LOGIN_USER_NOT_FOUND := lit "Login attempt for non-existent email".
Definition LOGIN_INCORRECT_PASSWORD := lit "Login attempt with incorrect password".

Definition USER_LOGGED_IN := lit "User logged in successfully".
Definition USER_LOGGED_OUT := lit "User logged out".
Definition LOGIN_ERROR := lit "Login error".
Definition LOGOUT_ERROR := lit "Logout error".
Definition SESSION_VERIFICATION_ERROR := lit "Session verification error".
Definition API_KEY_VALIDATED := lit "API key validated for client: {{clientName}}".
Definition API_KEY_NOT_FOUND := lit "API key not found: {{apiKey}}".
Definition API_KEY_INACTIVE := lit "API key inactive for client: {{clientName}}".
Definition API_KEY_VALIDATION_ERROR := lit "API key validation error: {{error}}".
Definition API_KEY_LOOKUP_ERROR := lit "API key lookup error: {{error}}".
Definition PAYLOAD_DECRYPTED := lit "Encrypted payload decrypted successfully".
Definition PAYLOAD_DECRYPTION_ERROR := lit "Failed to decrypt payload: {{error}}".

Inductive ErrorCode :=
| EMAIL_NOT_FOUND | MISSING_INFORMATION | INCORRECT_PASSWORD
| INVALID_CREDENTIALS | USER_NOT_FOUND | EMAIL_ALREADY_EXISTS
| DATABASE_ERROR | SESSION_CREATION_ERROR
| SESSION_INVALID | SESSION_EXPIRED.

(** Modelled from the spec: common/errors/error-codes.ts (the enum
    ErrorCode and the table ERROR_CODE_MESSAGES) is not among the
    sources. The codes are the ones AuthService names; the message of
    each code is the one AUTH_API.md tabulates, which is also the text
    ERROR_MESSAGES and AUTH_MESSAGES give it in messages.ts. *)
Definition ERROR_CODE_MESSAGES (code : ErrorCode) : jsstring :=
  match code with
  | EMAIL_NOT_FOUND => lit "Email address not found in the system"
  | MISSING_INFORMATION => lit "Email and password are required"
  | INCORRECT_PASSWORD => lit "Password is incorrect"
  | INVALID_CREDENTIALS => lit "Invalid credentials provided"
  | USER_NOT_FOUND => lit "User not found"
  | EMAIL_ALREADY_EXISTS => lit "Email already registered"
  | DATABASE_ERROR => lit "Database error occurred"
  | SESSION_CREATION_ERROR => lit "Failed to create session token"
  | SESSION_INVALID => lit "Session token is invalid or does not exist"
  | SESSION_EXPIRED => lit "Session token has expired"
  end.

End Messages.

(** ** Neo4jService and the token utility *)

Module Neo4jService.
Import JS Sys.

(** The three Cypher statements AuthService runs, with their parameters. *)
Inductive cypher :=
| MatchUserRecord (email : jsstring)    (* MATCH (u:User {email}) RETURN {...} as user *)
| MatchUser (email : jsstring)          (* MATCH (u:User {email}) RETURN u *)
| CreateUser (email hashedPassword : jsstring).

Definition session_run (q : cypher) : M (list user_node) :=
  external (fun w =>
    match q with
    | MatchUserRecord email | MatchUser email =>
        (Ok (filter (fun u => u_email u = email) (users w)), w)
    | CreateUser email hashedPassword =>
        (Ok [], with_users (users w ++ [UserNode email hashedPassword (now w)]) w)
    end).

Definition session_close : M unit := external (fun w => (Ok tt, w)).

Definition executeQuery (q : cypher) : M (list user_node) :=
  finally (session_run q) session_close.

End Neo4jService.

Module TokenUtil.
Import JS Sys.

Definition generateSessionToken : M jsstring :=
  buf ← randomBytes 32; mret (toString_hex buf).

Definition is_lower_hex (c : N) : bool :=
  ((48 <=? c) && (c <=? 57)) || ((97 <=? c) && (c <=? 102)).

(** [/^[a-f0-9]{64}$/.test(token)] *)
Definition isValidSessionToken (token : jsstring) : bool :=
  (length token =? 64)%nat && forallb is_lower_hex token.

End TokenUtil.

(** ** AuthService *)

Module AuthService.
Import JS Sys Messages Neo4jService TokenUtil.

Record LoginRequestDto := LoginRequest { email : jsstring; password : jsstring }.
Record SignupRequestDto := SignupRequest { s_email : jsstring; encryptedPassword : jsstring }.

Record LoginResponseDto := LoginResponse {
  success : bool;
  sessionToken : option jsstring;
  message : jsstring;
  code : option ErrorCode;
  timestamp : Z }.

Record verification := Verification {
  v_valid : bool;
  v_expired : bool;
  v_code : option ErrorCode }.

Definition createErrorResponse (c : ErrorCode) (ok : bool) : M LoginResponseDto :=
  t ← Date_now;
  mret {| success := ok; sessionToken := None;
          message := ERROR_CODE_MESSAGES c; code := None; timestamp := t |}.

Section Service.
(** bcrypt, and the value of [configService.get('app.jwtExpiration')]. *)
Variable bcrypt_compare : jsstring -> jsstring -> outcome bool.
Variable bcrypt_hash : jsstring -> N -> list byte -> outcome jsstring.
Variable bcryptRounds : N.
Variable app_jwtExpiration : option jsstring.

Definition BcryptService_hash (pw : jsstring) : M jsstring :=
  salt ← randomBytes 16; lift (bcrypt_hash pw bcryptRounds salt).

Definition sessionTtl : number :=
  parseInt (or_string app_jwtExpiration (lit "86400")).

(** The tail login and signup share: token, session, response. *)
Definition issue_session (mail : jsstring) (okMessage : jsstring) : M LoginResponseDto :=
  token ← generateSessionToken;
  stamp ← new_Date_toISOString;
  _ ← RedisService.storeSession token
        [(lit "email", VStr mail); (lit "timestamp", VStr stamp)] sessionTtl;
  _ ← logger INFO USER_LOGGED_IN [(lit "email", mail)];
  t ← Date_now;
  mret {| success := true; sessionToken := Some token;
          message := okMessage; code := None; timestamp := t |}.

Definition login (credentials : LoginRequestDto) : M LoginResponseDto :=
  try_catch
    (if negb (truthy_string (email credentials))
        || negb (truthy_string (password credentials))
     then
       _ ← logger WARN LOGIN_MISSING_INFO
             [(lit "email", if truthy_string (email credentials)
                            then lit "provided" else lit "missing")];
       createErrorResponse MISSING_INFORMATION false
     else
       result ← executeQuery (MatchUserRecord (email credentials));
       match result with
       | [] =>
           _ ← logger WARN LOGIN_USER_NOT_FOUND [(lit "email", email credentials)];
           createErrorResponse EMAIL_NOT_FOUND false
       | user :: _ =>
           isPasswordValid ←
             lift (bcrypt_compare (password credentials) (u_hashedPassword user));
           if negb isPasswordValid then
             _ ← logger WARN LOGIN_INCORRECT_PASSWORD [(lit "email", email credentials)];
             createErrorResponse INCORRECT_PASSWORD false
           else issue_session (email credentials) LOGIN_SUCCESSFUL
       end)
    (fun error =>
       _ ← logger ERROR LOGIN_ERROR [(lit "error", exn_message error)];
       createErrorResponse DATABASE_ERROR false).

Definition signup (data : SignupRequestDto) : M LoginResponseDto :=
  try_catch
    (if negb (truthy_string (s_email data))
        || negb (truthy_string (encryptedPassword data))
     then
       _ ← logger WARN LOGIN_MISSING_INFO
             [(lit "email", if truthy_string (s_email data)
                            then lit "provided" else lit "missing")];
       createErrorResponse MISSING_INFORMATION false
     else
       existing ← executeQuery (MatchUser (s_email data));
       match existing with
       | _ :: _ => createErrorResponse EMAIL_ALREADY_EXISTS false
       | [] =>
           hashedPassword ← BcryptService_hash (encryptedPassword data);
           _ ← executeQuery (CreateUser (s_email data) hashedPassword);
           issue_session (s_email data) SIGNUP_SUCCESSFUL
       end)
    (fun error =>
       _ ← logger ERROR LOGIN_ERROR [(lit "error", exn_message error)];
       createErrorResponse DATABASE_ERROR false).

End Service.

Definition verifySession (token : jsstring) : M verification :=
  try_catch
    (status ← RedisService.checkSessionStatus token;
     if RedisService.valid status then mret (Verification true false None)
     else if RedisService.expired status
     then mret (Verification false true (Some SESSION_EXPIRED))
     else mret (Verification false false (Some SESSION_INVALID)))
    (fun error =>
       _ ← logger ERROR SESSION_VERIFICATION_ERROR [(lit "error", exn_message error)];
       mret (Verification false false (Some DATABASE_ERROR))).

Definition logout (token : jsstring) : M unit :=
  try_catch
    (_ ← RedisService.deleteSession token;
     logger INFO USER_LOGGED_OUT [(lit "sessionToken", take 8 token ++ lit "...")])
    (fun error => logger ERROR LOGOUT_ERROR [(lit "error", exn_message error)]).

End AuthService.

(** ** CassandraService (API keys) and ApiKeyService *)

Module CassandraService.
Import JS Sys Messages.

(** The statements run against [api_keys], with their parameters. *)
Inductive cql :=
| SelectApiKey (apiKey : jsstring)            (* SELECT ... WHERE api_key = ? *)
| UpdateLastUsed (t : Z) (apiKey : jsstring). (* UPDATE ... SET last_used = ? WHERE api_key = ? *)

Definition touch (t : Z) (row : api_key_row) : api_key_row :=
  ApiKeyRow (key_id row) (api_key row) (client_name row) (is_active row)
            (created_at row) (Some t) (permissions row).

Definition client_execute (q : cql) : M (list api_key_row) :=
  external (fun w =>
    match q with
    | SelectApiKey apiKey =>
        (Ok (filter (fun row => api_key row = apiKey) (api_keys w)), w)
    | UpdateLastUsed t apiKey =>
        (Ok [], with_api_keys
                  (map (fun row => if decide (api_key row = apiKey)
                                   then touch t row else row) (api_keys w)) w)
    end).

Record keyData := KeyData { keyId : jsstring; clientName : jsstring; isActive : bool }.

Definition getApiKey (apiKey : jsstring) : M (option keyData) :=
  try_catch
    (result ← client_execute (SelectApiKey apiKey);
     match result with
     | [] => mret None
     | row :: _ => mret (Some (KeyData (key_id row) (client_name row) (is_active row)))
     end)
    (fun error =>
       _ ← logger ERROR CASSANDRA_QUERY_FAILED [(lit "error", exn_message error)];
       throw error).

Definition updateLastUsed (apiKey : jsstring) : M unit :=
  try_catch
    (t ← Date_now;
     _ ← client_execute (UpdateLastUsed t apiKey);
     mret tt)
    (fun error =>
       _ ← logger ERROR CASSANDRA_QUERY_FAILED [(lit "error", exn_message error)];
       throw error).

End CassandraService.

Module ApiKeyService.
Import JS Sys Messages CassandraService.

Definition maskApiKey (apiKey : jsstring) : jsstring :=
  if (length apiKey <=? 8)%nat then repeat 42 (length apiKey)
  else take 4 apiKey ++ repeat 42 (length apiKey - 8)%nat
       ++ drop (length apiKey - 4)%nat apiKey.

Definition validateApiKey (apiKey : jsstring) : M bool :=
  try_catch
    (keyData ← getApiKey apiKey;
     match keyData with
     | None =>
         _ ← logger WARN API_KEY_NOT_FOUND [(lit "apiKey", maskApiKey apiKey)];
         mret false
     | Some kd =>
         if negb (isActive kd) then
           _ ← logger WARN API_KEY_INACTIVE [(lit "clientName", clientName kd)];
           mret false
         else
           _ ← updateLastUsed apiKey;
           _ ← logger INFO API_KEY_VALIDATED [(lit "clientName", clientName kd)];
           mret true
     end)
    (fun error =>
       _ ← logger ERROR API_KEY_VALIDATION_ERROR [(lit "error", exn_message error)];
       mret false).

End ApiKeyService.

(** ** EncryptionService and ApiEncryptionHelper *)

Module EncryptionService.
Import JS Sys Messages.

Record EncryptedPayload := Envelope {
  ciphertext : jsstring;
  iv : jsstring;
  authTag : jsstring }.

(** The fields of the service object. *)
Record keys := Keys { encryptionKey : list byte; algorithm : jsstring }.

(** What the key is read from: the dynamic configuration ([None] when the
    value is undefined) and the process environment. *)
Record Config := mkConfig {
  cfg_encryptionKey : option jsstring;
  cfg_encryptionAlgorithm : option jsstring;
  env_ENCRYPTION_KEY : option jsstring;
  env_ENCRYPTION_ALGORITHM : option jsstring }.

(** [getConfigWithFallback]: the fallback replaces [undefined] only. *)
Definition getConfigWithFallback (configured : option jsstring) (fallback : jsstring) : jsstring :=
  default fallback configured.

(** [Buffer.from(s.padEnd(32, '0').substring(0, 32))] *)
Definition padded_key (s : jsstring) : list byte :=
  utf8_encode (substring0 32 (padEnd 32 48 s)).

(** [Buffer.from(s, 'hex').length === 32 ? Buffer.from(s, 'hex') : padded] *)
Definition hex_or_padded_key (s : jsstring) : list byte :=
  if decide (length (Buffer_from_hex s) = 32%nat) then Buffer_from_hex s
  else padded_key s.

Definition initializeKeys (c : Config) : M keys :=
  try_catch
    (let keyStr := getConfigWithFallback (cfg_encryptionKey c)
                     (or_string (env_ENCRYPTION_KEY c) []) in
     if (length keyStr <? 32)%nat
     then throw (Exn Error (lit "ENCRYPTION_KEY must be at least 32 characters long"))
     else
       mret (Keys (hex_or_padded_key keyStr)
               (getConfigWithFallback (cfg_encryptionAlgorithm c)
                  (or_string (env_ENCRYPTION_ALGORITHM c) (lit "aes-256-gcm")))))
    (fun error =>
       _ ← logger WARN (lit "Failed to load encryption config: ${error.message}")
             [(lit "error.message", exn_message error)];
       let envKey := or_string (env_ENCRYPTION_KEY c) [] in
       mret (Keys (if (32 <=? length envKey)%nat then Buffer_from_hex envKey
                   else padded_key envKey)
               (or_string (env_ENCRYPTION_ALGORITHM c) (lit "aes-256-gcm")))).

(** The constructor of the client-side helper. *)
Definition ApiEncryptionHelper (encryptionKeyHex : jsstring) (alg : jsstring) : outcome keys :=
  if (length encryptionKeyHex <? 32)%nat
  then Throw (Exn Error (lit "Encryption key must be at least 32 characters long"))
  else Ok (Keys (hex_or_padded_key encryptionKeyHex) alg).

(** A string given to [update] with input encoding ['hex']: refused when
    its length is odd, decoded like a Buffer otherwise. *)
Definition hex_input (s : jsstring) : outcome (list byte) :=
  if Nat.even (length s) then Ok (Buffer_from_hex s)
  else Throw (Exn TypeError (lit "The argument 'encoding' is invalid for data of this length")).

Section Cipher.
(** Node's [crypto]: [cipheriv alg key iv data] is the output of
    [update(data)] followed by [final()] on [createCipheriv(alg, key,
    iv)], with the tag [getAuthTag()] returns; [decipheriv alg key iv
    tag data] is the output of [update(data)] and [final()] on
    [createDecipheriv(alg, key, iv)] after [setAuthTag(tag)]. Either
    throws where the library does (unknown algorithm, bad key or IV
    length, no tag for the mode, tag mismatch). *)
Variable cipheriv :
  jsstring -> list byte -> list byte -> list byte -> outcome (list byte * list byte).
Variable decipheriv :
  jsstring -> list byte -> list byte -> list byte -> list byte -> outcome (list byte).

Definition encrypt (this : keys) (data : jsstring) : M EncryptedPayload :=
  try_catch
    (ivBuf ← randomBytes 16;
     sealed ← lift (cipheriv (algorithm this) (encryptionKey this) ivBuf (utf8_encode data));
     mret (Envelope (toString_hex sealed.1) (toString_hex ivBuf) (toString_hex sealed.2)))
    (fun error =>
       _ ← logger ERROR ENCRYPTION_FAILED [(lit "error", exn_message error)];
       throw error).

Definition decrypt (this : keys) (payload : EncryptedPayload) : M jsstring :=
  try_catch
    (input ← lift (hex_input (ciphertext payload));
     opened ← lift (decipheriv (algorithm this) (encryptionKey this)
                      (Buffer_from_hex (iv payload))
                      (Buffer_from_hex (authTag payload)) input);
     mret (utf8_decode opened))
    (fun error =>
       _ ← logger ERROR DECRYPTION_FAILED [(lit "error", exn_message error)];
       throw error).

End Cipher.

End EncryptionService.

(** ** DecryptPayloadInterceptor *)

Module DecryptPayloadInterceptor.
Import JS Sys Messages.

Record Request := mkRequest { method : jsstring; body : value }.

Definition mutating (m : jsstring) : bool :=
  bool_decide (m ∈ [lit "POST"; lit "PUT"; lit "PATCH"]).

Section Interceptor.
(** The injected [encryptionService.decryptFromRequest] (it may log,
    and throws on any failure), and [JSON.parse]. *)
Variable decryptFromRequest : value -> M jsstring.
Variable JSON_parse : jsstring -> outcome value.

Definition bad_request (msg : jsstring) : exn := Exn BadRequestException msg.

(** The result is the request [next.handle()] runs on. *)
Definition intercept (request : Request) : M Request :=
  if mutating (method request) then
    try_catch
      (let encryptedData := body request in
       if negb (truthy encryptedData)
       then throw (bad_request MISSING_ENCRYPTED_PAYLOAD)
       else if negb (truthy (prop encryptedData (lit "ciphertext")))
               || negb (truthy (prop encryptedData (lit "iv")))
               || negb (truthy (prop encryptedData (lit "authTag")))
       then mret request
       else
         try_catch
           (decryptedString ← decryptFromRequest encryptedData;
            decryptedData ← lift (JSON_parse decryptedString);
            _ ← logger INFO PAYLOAD_DECRYPTED [];
            mret (mkRequest (method request) decryptedData))
           (fun error =>
              _ ← logger ERROR PAYLOAD_DECRYPTION_ERROR [(lit "error", exn_message error)];
              throw (bad_request INVALID_ENCRYPTED_FORMAT)))
      (fun error =>
         if decide (exn_kind error = BadRequestException) then throw error
         else
           _ ← logger ERROR PAYLOAD_DECRYPTION_ERROR [(lit "error", exn_message error)];
           throw (bad_request INVALID_ENCRYPTED_FORMAT))
  else mret request.

End Interceptor.

End DecryptPayloadInterceptor.

(** ** Notions the properties are stated with *)

Module Spec.
Import JS Sys Messages RedisService Neo4jService TokenUtil AuthService.
Import CassandraService ApiKeyService EncryptionService DecryptPayloadInterceptor.

(** Code that leaves Redis alone. *)
Definition redis_untouched {A} (m : M A) : Prop :=
  forall w, redis (m w).2 = redis w.

(** Code whose writes to Redis go to [keys] only and store non-empty
    values there; it may also delete. *)
Definition writes {A} (keys : list jsstring) (m : M A) : Prop :=
  forall w k e, redis (m w).2 !! k = Some e ->
    redis w !! k = Some e \/ (k ∈ keys /\ e_value e <> []).

(** Every record in Redis sits under one of [keys] and is not the empty
    string. *)
Definition records_ok (keys : list jsstring) (w : World) : Prop :=
  forall k e, redis w !! k = Some e -> k ∈ keys /\ e_value e <> [].

(** What the specification says of [storeSession], for every TTL. *)
Definition storeSession_as_stated : Prop :=
  forall (w : World) (token : jsstring) (data : list (jsstring * value)) (ttl : Z),
    fault w (calls w) = None -> fault w (S (calls w)) = None ->
    let w' := (storeSession token data (Num ttl) w).2 in
    redis w' !! sessionKey token
      = Some (Entry (JSON_stringify_record data) (Some (now w + ttl * 1000)%Z))
    /\ (exists meta, redis w' !! metadataKey token
                     = Some (Entry meta (Some (now w + 2 * ttl * 1000)%Z))).

(** The code units of the digits 0 to 9. *)
Definition is_digit (c : N) : Prop := 48 <= c <= 57.

(** The number a string of decimal digits denotes. *)
Definition decimal_value (s : jsstring) : N :=
  fold_left (fun acc c => acc * 10 + (c - 48)) s 0.

(** The two records [storeSession] leaves when both writes are answered. *)
Definition session_records (w : World) (token : jsstring)
    (data : list (jsstring * value)) (ttl : Z) : gmap jsstring entry :=
  <[metadataKey token :=
      Entry (JSON_stringify_record
               (metadata_record (iso_string (now w))
                  (iso_string (now w + ttl * 1000)) token))
            (Some (now w + ttl * 2 * 1000)%Z)]>
    (<[sessionKey token :=
         Entry (JSON_stringify_record data) (Some (now w + ttl * 1000)%Z)]> (redis w)).

(** The response [createErrorResponse] builds: no token, no code. *)
Definition error_response (c : ErrorCode) (t : Z) : LoginResponseDto :=
  LoginResponse false None (ERROR_CODE_MESSAGES c) None t.

(** The token the next call of [generateSessionToken] returns: the next
    32 bytes of entropy, in hex. *)
Definition fresh_token (w : World) : jsstring :=
  toString_hex (map (entropy w) (seq (drawn w) 32)).

(** The configured expiration, as a number of seconds: the default when
    nothing (or the empty string) is configured, else the positive
    number the configured decimal numeral denotes. *)
Inductive configured_expiration : option jsstring -> Z -> Prop :=
| expiration_default : configured_expiration None 86400
| expiration_empty : configured_expiration (Some []) 86400
| expiration_seconds s :
    s <> [] -> Forall is_digit s -> 0 < decimal_value s ->
    configured_expiration (Some s) (Z.of_N (decimal_value s)).

(** What the specification says of the error responses: they carry a
    code. *)
Definition error_responses_carry_code : Prop :=
  forall bcrypt_compare app_jwtExpiration cr w resp,
    (login bcrypt_compare app_jwtExpiration cr w).1 = Ok resp ->
    success resp = false -> exists c, code resp = Some c.

(** What the specification says: an active key validates even when the
    last-used timestamp cannot be recorded. *)
Definition usage_failure_is_harmless : Prop :=
  forall apiKey w row rest,
    fault w (calls w) = None ->
    filter (fun r => api_key r = apiKey) (api_keys w) = row :: rest ->
    is_active row = true ->
    (validateApiKey apiKey w).1 = Ok true.

(** The negation of the guard of the gate: all three fields truthy. *)
Definition envelope_fields_truthy (b : value) : bool :=
  truthy (prop b (lit "ciphertext")) && truthy (prop b (lit "iv"))
  && truthy (prop b (lit "authTag")).

(** The one error every failed decryption is reported as. *)
Definition rejected : exn := bad_request INVALID_ENCRYPTED_FORMAT.

(** What the specification says when all three fields are present. *)
Definition present_fields_are_decrypted : Prop :=
  forall decryptFromRequest JSON_parse request w fields,
    mutating (method request) = true ->
    body request = VObj fields ->
    is_Some (assoc (lit "ciphertext") fields) ->
    is_Some (assoc (lit "iv") fields) ->
    is_Some (assoc (lit "authTag") fields) ->
    (intercept decryptFromRequest JSON_parse request w).1 =
      match (decryptFromRequest (body request) w).1 with
      | Ok decryptedString =>
          match JSON_parse decryptedString with
          | Ok decryptedData => Ok (mkRequest (method request) decryptedData)
          | Throw _ => Throw rejected
          end
      | Throw _ => Throw rejected
      end.

(** Well-formed UTF-16: every surrogate is half of a pair. *)
Inductive well_formed : jsstring -> Prop :=
| wf_nil : well_formed []
| wf_unit c s :
    c < 0x10000 -> is_high_surrogate c = false -> is_low_surrogate c = false ->
    well_formed s -> well_formed (c :: s)
| wf_pair h l s :
    is_high_surrogate h = true -> is_low_surrogate l = true ->
    well_formed s -> well_formed (h :: l :: s).

(** The cipher is an authenticated cipher: what it sealed under a key
    and an IV, it opens under the same key, IV and tag. *)
Definition opens_what_it_sealed
    (cipheriv : jsstring -> list byte -> list byte -> list byte
                -> outcome (list byte * list byte))
    (decipheriv : jsstring -> list byte -> list byte -> list byte -> list byte
                  -> outcome (list byte)) : Prop :=
  forall alg key ivBuf data sealed,
    cipheriv alg key ivBuf data = Ok sealed ->
    decipheriv alg key ivBuf sealed.2 sealed.1 = Ok data.

(** The IV the next call of [encrypt] draws. *)
Definition fresh_iv (w : World) : list byte := map (entropy w) (seq (drawn w) 16).

(** A value all of whose strings and keys are made of 16-bit units. *)
Fixpoint utf16_value (v : value) : bool :=
  match v with
  | VStr s => forallb (fun c => c <? 0x10000) s
  | VArr items => forallb utf16_value items
  | VObj fields =>
      forallb (fun '(k, x) => forallb (fun c => c <? 0x10000) k && utf16_value x) fields
  | _ => true
  end.

(** Induction on values, through arrays and objects. *)
Section value_induction.
Variable P : value -> Prop.
Hypothesis Hundefined : P VUndefined.
Hypothesis Hnull : P VNull.
Hypothesis Hbool : forall b, P (VBool b).
Hypothesis Hnum : forall n, P (VNum n).
Hypothesis Hstr : forall s, P (VStr s).
Hypothesis Harr : forall items, Forall P items -> P (VArr items).
Hypothesis Hobj : forall fields, Forall (fun kv => P kv.2) fields -> P (VObj fields).

Fixpoint value_induction (v : value) : P v :=
  match v with
  | VUndefined => Hundefined
  | VNull => Hnull
  | VBool b => Hbool b
  | VNum n => Hnum n
  | VStr s => Hstr s
  | VArr items =>
      Harr items
        ((fix all (l : list value) : Forall P l :=
            match l with
            | [] => List.Forall_nil P
            | x :: r => @List.Forall_cons _ P x r (value_induction x) (all r)
            end) items)
  | VObj fields =>
      Hobj fields
        ((fix all (l : list (jsstring * value)) : Forall (fun kv => P kv.2) l :=
            match l with
            | [] => List.Forall_nil _
            | kv :: r =>
                @List.Forall_cons _ (fun kv => P kv.2) kv r
                  (value_induction kv.2) (all r)
            end) fields)
  end.
End value_induction.

(** The key string and the algorithm [initializeKeys] reads. *)
Definition configured_key (c : Config) : jsstring :=
  getConfigWithFallback (cfg_encryptionKey c) (or_string (env_ENCRYPTION_KEY c) []).

Definition configured_algorithm (c : Config) : jsstring :=
  getConfigWithFallback (cfg_encryptionAlgorithm c)
    (or_string (env_ENCRYPTION_ALGORITHM c) (lit "aes-256-gcm")).

(** The key of the fallback branch of [initializeKeys]. *)
Definition environment_key (c : Config) : list byte :=
  let envKey := or_string (env_ENCRYPTION_KEY c) [] in
  if (32 <=? length envKey)%nat then Buffer_from_hex envKey else padded_key envKey.

(** What the specification says: a key that is not 32 bytes of hex is
    padded rather than refused. *)
Definition short_keys_are_padded : Prop :=
  forall keyHex alg,
    length (Buffer_from_hex keyHex) <> 32%nat ->
    ApiEncryptionHelper keyHex alg = Ok (Keys (padded_key keyHex) alg).

End Spec.

(** ** Sample worlds and collaborators *)

Module Samples.
Import JS Sys Messages RedisService Neo4jService TokenUtil AuthService.
Import CassandraService ApiKeyService EncryptionService DecryptPayloadInterceptor.
Import Spec.

Definition quiet_world : World :=
  mkWorld 1771272000000 0 (fun _ => None) ∅ [] [] (fun _ => x00) 0 [].

Definition token_a : jsstring := lit "aaaaaaaaaaaaaaaaaaaaaaaaaaaaaaaaaaaaaaaaaaaaaaaaaaaaaaaaaaaaaaaa".
Definition token_b : jsstring := lit "bbbbbbbbbbbbbbbbbbbbbbbbbbbbbbbbbbbbbbbbbbbbbbbbbbbbbbbbbbbbbbbb".
Definition token_c : jsstring := lit "cccccccccccccccccccccccccccccccccccccccccccccccccccccccccccccccc".

Definition sample_history : list event :=
  [Store token_a [(lit "email", VStr (lit "u@x.com"))] (Num 60);
   Wait 61000;
   Store token_b [(lit "email", VStr (lit "v@x.com"))] (Num 60)].

(** A world in which every call to a server fails. *)
Definition broken_world : World :=
  mkWorld 1771272000000 0 (fun _ => Some (Exn Error (lit "Socket closed unexpectedly")))
          ∅ [] [] (fun _ => x00) 0 [].

(** A world with one registered user, and a bcrypt that compares the
    password with the text after the prefix of the stored hash. *)
Definition alice : user_node :=
  UserNode (lit "u@x.com") (lit "$2b$10$secret") 1771000000000.

Definition one_user_world : World :=
  mkWorld 1771272000000 0 (fun _ => None) ∅ [alice] []
          (fun i => byte_of_N (N.of_nat (7 * i + 3))) 0 [].

Definition toy_compare (pw hash : jsstring) : outcome bool :=
  Ok (bool_decide (lit "$2b$10$" ++ pw = hash)).

Definition toy_hash (pw : jsstring) (rounds : N) (salt : list byte) : outcome jsstring :=
  Ok (lit "$2b$10$" ++ pw).

Definition acme_key : jsstring :=
  lit "0123456789abcdef0123456789abcdef0123456789abcdef0123456789abcdef".

(** Cassandra answers the lookup and fails the update. *)
Definition update_fails_world : World :=
  mkWorld 1771272000000 0
          (fun n => match n with
                    | 1%nat => Some (Exn Error (lit "Server timeout during write query"))
                    | _ => None
                    end)
          ∅ []
          [ApiKeyRow (lit "6f1c2a9e-0000-4000-8000-000000000001") acme_key (lit "acme")
                     true 1771000000000 None []]
          (fun _ => x00) 0 [].

(** A world in which Cassandra answers every call. *)
Definition steady_world : World :=
  mkWorld 1771272000000 0 (fun _ => None) ∅ [] (api_keys update_fails_world)
          (fun _ => x00) 0 [].

(** A codec that refuses everything, a parser that accepts nothing. *)
Definition refuse_all (encryptedData : value) : M jsstring :=
  _ ← logger ERROR DECRYPTION_FAILED [(lit "error", lit "Unsupported state")];
  throw (Exn Error (lit "Unsupported state or unable to authenticate data")).

Definition parse_nothing (s : jsstring) : outcome value :=
  Throw (Exn SyntaxError (lit "Unexpected token")).

Definition empty_ciphertext_request : Request :=
  mkRequest (lit "POST")
    (VObj [(lit "ciphertext", VStr []);
           (lit "iv", VStr (lit "000102030405060708090a0b0c0d0e0f"));
           (lit "authTag", VStr (lit "00000000000000000000000000000000"))]).

(** A codec that answers every envelope with the same text, and a
    parser that knows that text only. *)
Definition constant_codec (encryptedData : value) : M jsstring :=
  mret (lit "{}").

Definition parse_empty_object (s : jsstring) : outcome value :=
  if decide (s = lit "{}") then Ok (VObj [])
  else Throw (Exn SyntaxError (lit "Unexpected token")).

Definition sealed_request : Request :=
  mkRequest (lit "PUT")
    (VObj [(lit "ciphertext", VStr (lit "ab"));
           (lit "iv", VStr (lit "000102030405060708090a0b0c0d0e0f"));
           (lit "authTag", VStr (lit "00000000000000000000000000000000"))]).

Definition plain_request : Request :=
  mkRequest (lit "POST") (VObj [(lit "email", VStr (lit "u@x.com"))]).

(** A stand-in for an authenticated cipher: it accepts the default
    algorithm with a 32-byte key and a 16-byte IV, reverses the data and
    tags it with the IV. *)
Definition toy_accepts (alg : jsstring) (key ivBuf : list byte) : bool :=
  bool_decide (alg = lit "aes-256-gcm") && (length key =? 32)%nat
  && (length ivBuf =? 16)%nat.

Definition toy_cipheriv (alg : jsstring) (key ivBuf data : list byte)
  : outcome (list byte * list byte) :=
  if toy_accepts alg key ivBuf then Ok (rev data, ivBuf)
  else Throw (Exn RangeError (lit "Invalid key length")).

Definition toy_decipheriv (alg : jsstring) (key ivBuf tag data : list byte)
  : outcome (list byte) :=
  if toy_accepts alg key ivBuf then
    if decide (tag = ivBuf) then Ok (rev data)
    else Throw (Exn Error (lit "Unsupported state or unable to authenticate data"))
  else Throw (Exn RangeError (lit "Invalid key length")).

Definition sample_keys : keys :=
  Keys (repeat x2a 32) (lit "aes-256-gcm").

Definition sample_payload : value :=
  VObj [(lit "email", VStr (lit "user@example.com"));
        (lit "password", VStr [0x70; 0xE9; 0x20AC; 0xD83D; 0xDE00])].

End Samples.

(** ** The rest of AuthService, and LoginController *)

Module AuthSession.
Import JS Sys Messages RedisService AuthService.

Section Session.
Variable JSON_parse : jsstring -> outcome value.

(** [getUserFromSession]; the result [null] is [VNull]. *)
Definition getUserFromSession (sessionToken : jsstring) : M value :=
  try_catch
    (session ← RedisService.get (sessionKey sessionToken);
     if negb (truthy_nullable session) then mret VNull
     else lift (JSON_parse (default [] session)))
    (fun error =>
       _ ← logger ERROR (lit "Get user from session error")
             [(lit "error", exn_message error)];
       mret VNull).

End Session.

End AuthSession.

Module AUTH_MESSAGES.
Import JS.

Definition LOGOUT_SUCCESSFUL := lit "Logged out successfully".
Definition SESSION_VALID := lit "Session is valid".
Definition SESSION_EXPIRED := lit "Session token has expired".
Definition SESSION_INVALID := lit "Session token is invalid or does not exist".

End AUTH_MESSAGES.

Module LoginController.
Import JS Sys Messages AuthService.

Inductive SessionVerificationReason := INVALID | EXPIRED.

Record SessionVerificationResponseDto := VerificationResponse {
  r_valid : bool;
  r_message : jsstring;
  r_code : option ErrorCode;
  r_reason : option SessionVerificationReason;
  r_timestamp : Z }.

Record LogoutResponse := mkLogoutResponse { lo_message : jsstring; lo_timestamp : Z }.

Section Controller.
Variable bcrypt_compare : jsstring -> jsstring -> outcome bool.
Variable app_jwtExpiration : option jsstring.

Definition login (loginDto : LoginRequestDto) : M LoginResponseDto :=
  AuthService.login bcrypt_compare app_jwtExpiration loginDto.

End Controller.

Definition verifySession (sessionToken : jsstring) : M SessionVerificationResponseDto :=
  result ← AuthService.verifySession sessionToken;
  if v_valid result then
    t ← Date_now;
    mret (VerificationResponse true AUTH_MESSAGES.SESSION_VALID None None t)
  else if v_expired result then
    t ← Date_now;
    mret (VerificationResponse false AUTH_MESSAGES.SESSION_EXPIRED (v_code result)
            (Some EXPIRED) t)
  else
    t ← Date_now;
    mret (VerificationResponse false AUTH_MESSAGES.SESSION_INVALID (v_code result)
            (Some INVALID) t).

Definition logout (sessionToken : jsstring) : M LogoutResponse :=
  _ ← AuthService.logout sessionToken;
  t ← Date_now;
  mret (mkLogoutResponse AUTH_MESSAGES.LOGOUT_SUCCESSFUL t).

End LoginController.

(** ** ApiKeyGuard, and the rest of ApiKeyService and CassandraService *)

Module ApiKeyGuard.
Import JS Sys Messages CassandraService ApiKeyService.

Definition getApiKeyClientName (apiKey : jsstring) : M (option jsstring) :=
  try_catch
    (keyData ← getApiKey apiKey;
     mret (match keyData with
           | Some kd => if truthy_string (clientName kd) then Some (clientName kd) else None
           | None => None
           end))
    (fun error =>
       _ ← logger ERROR API_KEY_LOOKUP_ERROR [(lit "error", exn_message error)];
       mret None).

(** The request as the guard sees it: the headers (Node gives their
    names in lower case), the parsed query if there is one, and the two
    properties the guard attaches. Header and query values are strings. *)
Record HttpRequest := mkHttpRequest {
  headers : gmap jsstring jsstring;
  query : option (gmap jsstring jsstring);
  req_apiKey : option jsstring;
  req_clientName : option jsstring }.

Definition extractApiKey (request : HttpRequest) : option jsstring :=
  let headerApiKey := headers request !! lit "x-api-key" in
  if truthy_nullable headerApiKey then headerApiKey
  else query request ≫= (fun q => q !! lit "api_key").

Definition unauthorized : exn := Exn UnauthorizedException INVALID_API_KEY.

(** The result is the request the handler then runs on; to return is to
    return [true]. *)
Definition canActivate (request : HttpRequest) : M HttpRequest :=
  let apiKey := extractApiKey request in
  if negb (truthy_nullable apiKey) then
    _ ← logger WARN INVALID_API_KEY [];
    throw unauthorized
  else
    isValid ← validateApiKey (default [] apiKey);
    if negb isValid then
      _ ← logger WARN INVALID_API_KEY [];
      throw unauthorized
    else
      name ← getApiKeyClientName (default [] apiKey);
      mret (mkHttpRequest (headers request) (query request) apiKey name).



(** [uuidv4()] belongs to the uuid package, which has a generator of
    its own and does not go through [crypto.randomBytes]: the
    identifier is whatever that generator gives in the state it is
    called in, and the bytes [randomBytes] hands out are not touched. *)
Section Identifiers.
Variable uuidv4 : World -> jsstring.


End Identifiers.

End ApiKeyGuard.

(** ** The client helper's [encrypt], and [decryptFromRequest] *)

Module ClientHelper.
Import JS Sys Messages EncryptionService.

Section Cipher.
Variable cipheriv :
  jsstring -> list byte -> list byte -> list byte -> outcome (list byte * list byte).

(** [ApiEncryptionHelper.encrypt]: no try and no log. When the payload
    has no JSON text ([JSON.stringify] gives [undefined]), [update]
    refuses its argument, unless [createCipheriv] has thrown before:
    with no data to encrypt, the cipher throws where [createCipheriv]
    does. *)
Definition encrypt (this : keys) (payload : value) : M EncryptedPayload :=
  let payloadString := JSON_stringify payload in
  ivBuf ← randomBytes 16;
  sealed ← lift
    match payloadString with
    | Some text =>
        cipheriv (algorithm this) (encryptionKey this) ivBuf (utf8_encode text)
    | None =>
        match cipheriv (algorithm this) (encryptionKey this) ivBuf [] with
        | Throw e => Throw e
        | Ok _ => Throw (Exn TypeError (lit "The 'data' argument must be of type string"))
        end
    end;
  mret (Envelope (toString_hex sealed.1) (toString_hex ivBuf) (toString_hex sealed.2)).

End Cipher.

End ClientHelper.

Module RequestDecryption.
Import JS Sys Messages EncryptionService.

(** The envelope as the body of a request, and a value read as an
    envelope: possible when its three fields are strings. *)
Definition envelope_value (p : EncryptedPayload) : value :=
  VObj [(lit "ciphertext", VStr (ciphertext p));
        (lit "iv", VStr (iv p));
        (lit "authTag", VStr (authTag p))].

Definition as_payload (v : value) : option EncryptedPayload :=
  match prop v (lit "ciphertext"), prop v (lit "iv"), prop v (lit "authTag") with
  | VStr c, VStr i, VStr a => Some (Envelope c i a)
  | _, _, _ => None
  end.

Section Codec.
Variable decipheriv :
  jsstring -> list byte -> list byte -> list byte -> list byte -> outcome (list byte).
Variable JSON_parse : jsstring -> outcome value.
(** What [decrypt] does with a value one of whose three fields is not a
    string ([Buffer.from] and [update] on such a value, a property read
    on [null]). *)
Variable decrypt_other : value -> M jsstring.

Definition decrypt_value (this : keys) (payload : value) : M jsstring :=
  match as_payload payload with
  | Some p => decrypt decipheriv this p
  | None => decrypt_other payload
  end.

Definition decryptFromRequest (this : keys) (encryptedData : value) : M jsstring :=
  match encryptedData with
  | VStr s =>
      parsed ← lift (JSON_parse s);
      decrypt_value this parsed
  | _ => decrypt_value this encryptedData
  end.

End Codec.

End RequestDecryption.

(** ** DynamicConfigService *)

Module DynamicConfigService.
Import JS Sys.

Definition is_upper (c : N) : bool := (65 <=? c) && (c <=? 90).
Definition is_lower (c : N) : bool := (97 <=? c) && (c <=? 122).

(** [toLowerCase] and [toUpperCase], read on the ASCII letters: the
    configuration keys, and the words compared with, are ASCII. *)
Definition toLowerCase (s : jsstring) : jsstring :=
  map (fun c => if is_upper c then c + 32 else c) s.
Definition toUpperCase (s : jsstring) : jsstring :=
  map (fun c => if is_lower c then c - 32 else c) s.

(** [s.replace(/_([a-z])/g, (g) => g[1].toUpperCase())] *)
Fixpoint capitalize_after_underscore (s : jsstring) : jsstring :=
  match s with
  | [] => []
  | c :: rest =>
      if c =? 95 then
        match rest with
        | d :: rest' =>
            if is_lower d then (d - 32) :: capitalize_after_underscore rest'
            else c :: capitalize_after_underscore rest
        | [] => [c]
        end
      else c :: capitalize_after_underscore rest
  end.

Definition camelCaseKey (snakeCase : jsstring) : jsstring :=
  capitalize_after_underscore (toLowerCase snakeCase).

(** [s.replace(/([A-Z])/g, '_$1').toUpperCase()] *)
Definition snakeCaseKey (camelCase : jsstring) : jsstring :=
  toUpperCase (flat_map (fun c => if is_upper c then [95; c] else [c]) camelCase).

(** [parseInt(s, 10)]: no prefix selects another radix. *)
Definition parseInt10 (s : jsstring) : number :=
  let '(neg, s2) := strip_sign (trim_start s) in
  match digits 10 s2 None with
  | None => NaN
  | Some n => Num (if neg then - Z.of_N n else Z.of_N n)
  end.

Definition parseConfigValue (value type : jsstring) : JS.value :=
  if decide (type = lit "number") then
    VNum (if truthy_number (parseInt10 value) then parseInt10 value else Num 0)
  else if decide (type = lit "boolean") then
    VBool (bool_decide (toLowerCase value = lit "true") || bool_decide (value = lit "1"))
  else VStr value.

(** [typeof v] and [String(v)]; the integers are written in decimal
    (below 10^21 in absolute value, where JavaScript does the same). *)
Definition typeof (v : value) : jsstring :=
  match v with
  | VUndefined => lit "undefined"
  | VBool _ => lit "boolean"
  | VNum _ => lit "number"
  | VStr _ => lit "string"
  | VNull | VArr _ | VObj _ => lit "object"
  end.

Fixpoint String_ (v : value) : jsstring :=
  match v with
  | VUndefined => lit "undefined"
  | VNull => lit "null"
  | VBool b => if b then lit "true" else lit "false"
  | VNum (Num z) => decimal z
  | VNum NaN => lit "NaN"
  | VStr s => s
  | VArr items =>
      join (lit ",")
        (map (fun x => match x with VUndefined | VNull => [] | _ => String_ x end) items)
  | VObj _ => lit "[object Object]"
  end.

(** A row of [application_config], as [seedDefaultConfigs] writes it and
    as [loadConfigsFromCassandra] reads it. *)
Record config_row := ConfigRow {
  config_key : jsstring;
  config_value : jsstring;
  config_type : jsstring }.

Definition seed_row (key : jsstring) (value : JS.value) : config_row :=
  ConfigRow (snakeCaseKey key) (String_ value) (typeof value).

Definition load_row (row : config_row) : jsstring * value :=
  (camelCaseKey (config_key row), parseConfigValue (config_value row) (config_type row)).

(** [o[k] = v] on an object whose keys are not array indices. *)
Fixpoint obj_set (k : jsstring) (v : value) (o : list (jsstring * value))
  : list (jsstring * value) :=
  match o with
  | [] => [(k, v)]
  | (k', v') :: rest =>
      if decide (k' = k) then (k, v) :: rest else (k', v') :: obj_set k v rest
  end.

Definition loaded_config (rows : list config_row) : list (jsstring * value) :=
  fold_left (fun configMap row => obj_set (load_row row).1 (load_row row).2 configMap)
    rows [].

End DynamicConfigService.

(** The table DEFAULT_CONFIGS of application-config.schema.ts. *)

Module DefaultConfigs.
Import JS.

Definition num (k : string) (n : Z) : jsstring * value := (lit k, VNum (Num n)).
Definition str (k v : string) : jsstring * value := (lit k, VStr (lit v)).
Definition flag (k : string) (b : bool) : jsstring * value := (lit k, VBool b).

Definition local : list (jsstring * value) :=
  [num "port" 3000; str "appName" "protego"; str "appVersion" "0.0.1";
   num "apiTimeout" 30000; str "requestLimit" "100mb"; str "logLevel" "debug";
   str "logFormat" "json"; str "logOutput" "console"; str "neo4jScheme" "bolt";
   str "neo4jHost" "localhost"; num "neo4jPort" 7687; str "neo4jUsername" "neo4j";
   str "neo4jPassword" "password"; str "redisHost" "localhost"; num "redisPort" 6379;
   (lit "redisPassword", VStr []); num "redisDb" 0; num "bcryptRounds" 10;
   str "jwtSecret" "your-secret-key-local"; str "jwtExpiration" "24h";
   str "encryptionKey" "0123456789abcdef0123456789abcdef";
   str "encryptionAlgorithm" "aes-256-gcm"; str "kafkaBrokers" "localhost:9092";
   str "kafkaClientId" "protego-local"; flag "enableCaching" false;
   flag "enableMetrics" false].

Definition dev : list (jsstring * value) :=
  [num "port" 3000; str "appName" "protego"; str "appVersion" "0.0.1";
   num "apiTimeout" 30000; str "requestLimit" "100mb"; str "logLevel" "debug";
   str "logFormat" "json"; str "logOutput" "console,file"; str "neo4jScheme" "bolt";
   str "neo4jHost" "neo4j"; num "neo4jPort" 7687; str "neo4jUsername" "neo4j";
   str "neo4jPassword" "password"; str "redisHost" "redis"; num "redisPort" 6379;
   (lit "redisPassword", VStr []); num "redisDb" 0; num "bcryptRounds" 12;
   str "jwtSecret" "your-secret-key-dev"; str "jwtExpiration" "24h";
   str "encryptionKey" "fedcba9876543210fedcba9876543210";
   str "encryptionAlgorithm" "aes-256-gcm"; str "kafkaBrokers" "kafka:9092";
   str "kafkaClientId" "protego-dev"; flag "enableCaching" true; num "cacheTtl" 1800;
   flag "enableMetrics" false].

Definition stage : list (jsstring * value) :=
  [num "port" 3000; str "appName" "protego"; str "appVersion" "0.0.1";
   num "apiTimeout" 30000; str "requestLimit" "50mb"; str "logLevel" "info";
   str "logFormat" "json"; str "logOutput" "file"; str "neo4jScheme" "bolt";
   str "neo4jHost" "neo4j-stage.internal"; num "neo4jPort" 7687;
   str "neo4jUsername" "neo4j"; str "neo4jPassword" "changeme";
   str "redisHost" "redis-stage.internal"; num "redisPort" 6379;
   (lit "redisPassword", VStr []); num "redisDb" 0; num "bcryptRounds" 12;
   str "jwtSecret" "your-secret-key-stage"; str "jwtExpiration" "12h";
   str "encryptionKey" "stage-encryption-key-changeme1234";
   str "encryptionAlgorithm" "aes-256-gcm";
   str "kafkaBrokers" "kafka-stage.internal:9092"; str "kafkaClientId" "protego-stage";
   flag "enableCaching" true; num "cacheTtl" 3600; num "connectionPoolSize" 10;
   flag "enableMetrics" true; num "metricsPort" 9090].

Definition prod : list (jsstring * value) :=
  [num "port" 3000; str "appName" "protego"; str "appVersion" "0.0.1";
   num "apiTimeout" 30000; str "requestLimit" "25mb"; str "logLevel" "warn";
   str "logFormat" "json"; str "logOutput" "file"; str "neo4jScheme" "bolt+s";
   str "neo4jHost" "neo4j-prod.internal"; num "neo4jPort" 7687;
   str "neo4jUsername" "neo4j"; str "neo4jPassword" "changeme";
   str "redisHost" "redis-prod.internal"; num "redisPort" 6379;
   str "redisPassword" "changeme"; num "redisDb" 0; flag "redisTls" true;
   num "bcryptRounds" 15; str "jwtSecret" "your-secret-key-prod-changeme";
   str "jwtExpiration" "8h"; str "encryptionKey" "prod-encryption-key-changeme12345";
   str "encryptionAlgorithm" "aes-256-gcm";
   str "kafkaBrokers" "kafka-prod.internal:9092"; str "kafkaClientId" "protego-prod";
   flag "kafkaSaslEnabled" true; str "kafkaSaslMechanism" "plain";
   str "kafkaSaslUsername" "kafka-user"; str "kafkaSaslPassword" "changeme";
   flag "enableCaching" true; num "cacheTtl" 7200; num "connectionPoolSize" 20;
   flag "enableMetrics" true; num "metricsPort" 9090].

Definition DEFAULT_CONFIGS : list (jsstring * list (jsstring * value)) :=
  [(lit "local", local); (lit "dev", dev); (lit "stage", stage); (lit "prod", prod)].

(** The keys of the interface ApplicationConfig. *)
Definition ApplicationConfig_keys : list jsstring :=
  lit <$> ["port"; "appName"; "appVersion"; "apiTimeout"; "requestLimit"; "nodeEnv";
           "logLevel"; "logFormat"; "logOutput";
           "neo4jScheme"; "neo4jHost"; "neo4jPort"; "neo4jUsername"; "neo4jPassword";
           "redisHost"; "redisPort"; "redisPassword"; "redisDb"; "redisTls";
           "bcryptRounds"; "jwtSecret"; "jwtExpiration"; "encryptionKey";
           "encryptionAlgorithm";
           "kafkaBrokers"; "kafkaClientId"; "kafkaSaslEnabled"; "kafkaSaslMechanism";
           "kafkaSaslUsername"; "kafkaSaslPassword";
           "enableCaching"; "cacheTtl"; "connectionPoolSize";
           "enableMetrics"; "metricsPort"]%string.

(** The names every object inherits: [DEFAULT_CONFIGS[name]] is then a
    function (or the prototype itself), which has no entries. *)
Definition inherited_names : list jsstring :=
  lit <$> ["constructor"; "__defineGetter__"; "__defineSetter__"; "hasOwnProperty";
           "__lookupGetter__"; "__lookupSetter__"; "isPrototypeOf";
           "propertyIsEnumerable"; "toString"; "valueOf"; "__proto__";
           "toLocaleString"]%string.

(** [Object.entries(DEFAULT_CONFIGS[environment] || DEFAULT_CONFIGS['local'])] *)
Definition default_entries (environment : jsstring) : list (jsstring * value) :=
  match list_find (fun entry => entry.1 = environment) DEFAULT_CONFIGS with
  | Some (_, (_, defaultConfig)) => defaultConfig
  | None => if bool_decide (environment ∈ inherited_names) then [] else local
  end.

End DefaultConfigs.

Module ConfigAccess.
Import JS Sys DynamicConfigService DefaultConfigs.

(** The fields of the service the getters read. *)
Record service := mkService {
  config : option (list (jsstring * value));
  environment : jsstring }.

(** The constructor: [process.env.NODE_ENV || 'local'], no config yet. *)
Definition new_service (NODE_ENV : option jsstring) : service :=
  mkService None (or_string NODE_ENV (lit "local")).

Definition buildConfigFromDefaults (this : service) : list (jsstring * value) :=
  fold_left (fun result '(key, value) => obj_set (camelCaseKey key) value result)
    (default_entries (environment this)) [].

Definition getConfig (this : service) (key : jsstring) : M value :=
  match config this with
  | None =>
      _ ← logger WARN (lit "Config not initialized, returning default for ${String(key)}")
            [(lit "String(key)", key)];
      mret (prop (VObj (buildConfigFromDefaults this)) key)
  | Some c => mret (prop (VObj c) key)
  end.

Definition getFullConfig (this : service) : list (jsstring * value) :=
  match config this with
  | None => buildConfigFromDefaults this
  | Some c => c
  end.

Definition getConfigWithFallback (this : service) (key : jsstring) (fallback : value)
  : M value :=
  try_catch
    (v ← getConfig this key;
     mret (match v with VUndefined => fallback | _ => v end))
    (fun _ => mret fallback).

(** What [initialize] leaves in [config] when loading from Cassandra
    has failed. *)
Definition after_failed_load (this : service) : service :=
  mkService (Some (buildConfigFromDefaults this)) (environment this).

End ConfigAccess.

(** ** More notions and sample data *)

Module Notions.
Import JS Sys Messages RedisService Neo4jService TokenUtil AuthService.
Import CassandraService ApiKeyService EncryptionService DynamicConfigService.

(** The next [n] calls to external servers are answered. *)
Definition answered (w : World) (n : nat) : Prop :=
  forall i, (i < n)%nat -> fault w (calls w + i) = None.

(** Every call is answered. *)
Definition reliable (w : World) : Prop := forall n, fault w n = None.

(** What an operation leaves alone in every run: the clock, the fault
    schedule and the entropy stream; the counters only grow. *)
Definition steady {A} (m : M A) : Prop :=
  forall w, now (m w).2 = now w /\ fault (m w).2 = fault w
            /\ entropy (m w).2 = entropy w
            /\ (calls w <= calls (m w).2)%nat /\ (drawn w <= drawn (m w).2)%nat.

(** The bytes [randomBytes n] returns after [k] more bytes were drawn. *)
Definition entropy_at (w : World) (k n : nat) : list byte :=
  map (entropy w) (seq (drawn w + k) n).

(** [Number.MAX_SAFE_INTEGER], 2^53 - 1: up to it every integer is a
    number of JavaScript and [parseInt] is exact. *)
Definition MAX_SAFE_INTEGER : N := 9007199254740991.

(** The largest signed 64-bit integer, the bound of Redis on an expiry
    instant in milliseconds. *)
Definition LLONG_MAX : Z := 9223372036854775807.

(** An expire time in seconds that reaches Redis as the integer it is
    and whose expiry instant Redis can hold. *)
Definition expire_in_range (w : World) (s : Z) : Prop :=
  (Z.abs s <= Z.of_N MAX_SAFE_INTEGER)%Z /\ (now w + s * 1000 <= LLONG_MAX)%Z.

(** The session record of a token, as a read sees it now. *)
Definition session_of (w : World) (token : jsstring) : option jsstring :=
  live w (sessionKey token).

(** ASCII letters and digits. *)
Definition is_alnum (c : N) : bool :=
  ((48 <=? c) && (c <=? 57)) || ((65 <=? c) && (c <=? 90)) || ((97 <=? c) && (c <=? 122)).

(** The values [seedDefaultConfigs] can write and get back: strings,
    booleans and the integers that [String] writes in decimal. *)
Definition seedable (v : value) : Prop :=
  match v with
  | VStr _ | VBool _ => True
  | VNum (Num z) => (Z.abs z < 10 ^ 21)%Z
  | _ => False
  end.

(** The object the loop of [buildConfigFromDefaults] makes of the
    entries of a default configuration. *)
Definition config_of_entries (entries : list (jsstring * value))
  : list (jsstring * value) :=
  fold_left (fun result '(key, value) =>
               obj_set (DynamicConfigService.camelCaseKey key) value result)
    entries [].

End Notions.

Module Scenarios.
Import JS Sys Messages RedisService Neo4jService TokenUtil AuthService.
Import CassandraService ApiKeyService EncryptionService.
Import Samples.


(** Neo4j answers (the first four calls), Redis does not. *)
Definition redis_down_world : World :=
  mkWorld 1771272000000 0
          (fun n => if (4 <=? n)%nat then Some (Exn Error (lit "Connection is closed."))
                    else None)
          ∅ [] [] (fun _ => x00) 0 [].

(** The primary record of [token_a] is there; the second read fails. *)
Definition flaky_read_world : World :=
  mkWorld 1771272000000 0
          (fun n => match n with
                    | 1%nat => Some (Exn Error (lit "Socket closed unexpectedly"))
                    | _ => None
                    end)
          (redis (storeSession token_a [] (Num 60) quiet_world).2)
          [] [] (fun _ => x00) 0 [].



(** A parser that knows the text of the sample payload only. *)
Definition parse_sample (s : jsstring) : outcome value :=
  if decide (Some s = JSON_stringify sample_payload) then Ok sample_payload
  else Throw (Exn SyntaxError (lit "Unexpected token")).

End Scenarios.

(** * Properties *)

(** ** Reasoning about promise-returning code *)

Module MFacts.
Import JS Sys.
Import Spec Samples.

Lemma bind_ok {A B} (m : M A) (k : A -> M B) w a w' :
  m w = (Ok a, w') -> (m ≫= k) w = k a w'.
Proof. intros H. unfold mbind, M_bind. by rewrite H. Qed.

Lemma bind_throw {A B} (m : M A) (k : A -> M B) w e w' :
  m w = (Throw e, w') -> (m ≫= k) w = (Throw e, w').
Proof. intros H. unfold mbind, M_bind. by rewrite H. Qed.

Lemma try_ok {A} (m : M A) h w a w' :
  m w = (Ok a, w') -> try_catch m h w = (Ok a, w').
Proof. intros H. unfold try_catch. by rewrite H. Qed.

Lemma try_throw {A} (m : M A) h w e w' :
  m w = (Throw e, w') -> try_catch m h w = h e w'.
Proof. intros H. unfold try_catch. by rewrite H. Qed.

Lemma untouched_writes {A} (m : M A) keys : redis_untouched m -> writes keys m.
Proof. intros H w k e Hk. left. by rewrite <- (H w). Qed.

Lemma writes_bind {A B} keys (m : M A) (k : A -> M B) :
  writes keys m -> (forall a, writes keys (k a)) -> writes keys (m ≫= k).
Proof.
  intros Hm Hk w key e. unfold mbind, M_bind.
  specialize (Hm w). destruct (m w) as [[a|err] w1]; simpl in *.
  - intros H. destruct (Hk a w1 key e H) as [H1|H1]; [by apply Hm | by right].
  - apply Hm.
Qed.

Lemma writes_try {A} keys (m : M A) (h : exn -> M A) :
  writes keys m -> (forall e, writes keys (h e)) -> writes keys (try_catch m h).
Proof.
  intros Hm Hh w key e. unfold try_catch.
  specialize (Hm w). destruct (m w) as [[a|err] w1]; simpl in *.
  - apply Hm.
  - intros H. destruct (Hh err w1 key e H) as [H1|H1]; [by apply Hm | by right].
Qed.

Lemma writes_external {A} keys (op : World -> outcome A * World) :
  writes keys op -> writes keys (external op).
Proof.
  intros Hop w key e. unfold external.
  destruct (fault w (calls w)); simpl; [by left|].
  intros H. by apply Hop in H.
Qed.

Lemma untouched_ret {A} (a : A) : redis_untouched (mret a).
Proof. by intros w. Qed.
Lemma untouched_throw {A} e : redis_untouched (@throw A e).
Proof. by intros w. Qed.
Lemma untouched_lift {A} (o : outcome A) : redis_untouched (lift o).
Proof. by intros w. Qed.
Lemma untouched_logger lv msg data : redis_untouched (logger lv msg data).
Proof. by intros w. Qed.
Lemma untouched_now : redis_untouched Date_now.
Proof. by intros w. Qed.
Lemma untouched_iso : redis_untouched new_Date_toISOString.
Proof. by intros w. Qed.
Lemma untouched_random n : redis_untouched (randomBytes n).
Proof. by intros w. Qed.

Lemma untouched_bind {A B} (m : M A) (k : A -> M B) :
  redis_untouched m -> (forall a, redis_untouched (k a)) -> redis_untouched (m ≫= k).
Proof.
  intros Hm Hk w. unfold mbind, M_bind. specialize (Hm w).
  destruct (m w) as [[a|err] w1]; simpl in *; [by rewrite Hk | done].
Qed.

Lemma untouched_try {A} (m : M A) (h : exn -> M A) :
  redis_untouched m -> (forall e, redis_untouched (h e)) -> redis_untouched (try_catch m h).
Proof.
  intros Hm Hh w. unfold try_catch. specialize (Hm w).
  destruct (m w) as [[a|err] w1]; simpl in *; [done | by rewrite Hh].
Qed.

Lemma untouched_external {A} (op : World -> outcome A * World) :
  redis_untouched op -> redis_untouched (external op).
Proof.
  intros Hop w. unfold external. destruct (fault w (calls w)); simpl; [done|].
  by rewrite Hop.
Qed.

End MFacts.

(** ** Buffers: hex and UTF-8 round trips *)

Module BufferFacts.
Import JS TokenUtil.
Import Spec Samples.

Lemma to_N_byte_of_N n : n < 256 -> Byte.to_N (byte_of_N n) = n.
Proof.
  intros Hn. unfold byte_of_N. rewrite N.mod_small by done.
  destruct (Byte.of_N n) as [b|] eqn:Hb.
  - by apply Byte.to_of_N.
  - apply Byte.of_N_None_iff in Hb. lia.
Qed.

Lemma hex_pair_values (b : byte) :
  hex_value (hex_digit (Byte.to_N b / 16)) = Some (Byte.to_N b / 16)
  /\ hex_value (hex_digit (Byte.to_N b mod 16)) = Some (Byte.to_N b mod 16)
  /\ byte_of_N (16 * (Byte.to_N b / 16) + Byte.to_N b mod 16) = b.
Proof. destruct b; repeat split; reflexivity. Qed.

(** [Buffer.from(buf.toString('hex'), 'hex')] is [buf]. *)
Lemma hex_round_trip buf : Buffer_from_hex (toString_hex buf) = buf.
Proof.
  induction buf as [|b buf IH]; [done|].
  change (toString_hex (b :: buf))
    with (hex_digit (Byte.to_N b / 16) :: hex_digit (Byte.to_N b mod 16)
            :: toString_hex buf).
  cbn [Buffer_from_hex].
  destruct (hex_pair_values b) as (-> & -> & ->). by rewrite IH.
Qed.

Lemma hex_digit_lower d : d < 16 -> is_lower_hex (hex_digit d) = true.
Proof.
  intros Hd. unfold hex_digit, is_lower_hex.
  destruct (N.ltb_spec d 10).
  - apply orb_true_iff. left. apply andb_true_iff. split; apply N.leb_le; lia.
  - apply orb_true_iff. right. apply andb_true_iff. split; apply N.leb_le; lia.
Qed.

Lemma byte_bound (b : byte) : Byte.to_N b < 256.
Proof. pose proof (Byte.to_N_bounded b). lia. Qed.

Lemma toString_hex_length buf : length (toString_hex buf) = (2 * length buf)%nat.
Proof. induction buf as [|b buf IH]; simpl; [done | rewrite IH; lia]. Qed.

Lemma toString_hex_lower buf : forallb is_lower_hex (toString_hex buf) = true.
Proof.
  induction buf as [|b buf IH]; simpl; [done|].
  pose proof (byte_bound b) as Hb.
  rewrite !hex_digit_lower, IH; [done| |].
  - apply N.mod_lt. lia.
  - apply N.Div0.div_lt_upper_bound. lia.
Qed.

Lemma toString_hex_even buf : Nat.even (length (toString_hex buf)) = true.
Proof. induction buf as [|b buf IH]; [done|]. exact IH. Qed.

Ltac bools :=
  repeat match goal with
  | H : (_ && _) = true |- _ => apply andb_true_iff in H as [? ?]
  | H : (_ && _) = false |- _ => apply andb_false_iff in H
  | H : (_ <=? _) = true |- _ => apply N.leb_le in H
  | H : (_ <=? _) = false |- _ => apply N.leb_gt in H
  | H : (_ <? _) = true |- _ => apply N.ltb_lt in H
  | H : (_ <? _) = false |- _ => apply N.ltb_ge in H
  end.

Lemma ltb_true a b : a < b -> (a <? b) = true.
Proof. apply N.ltb_lt. Qed.
Lemma ltb_false a b : b <= a -> (a <? b) = false.
Proof. apply N.ltb_ge. Qed.
Lemma leb_true a b : a <= b -> (a <=? b) = true.
Proof. apply N.leb_le. Qed.
Lemma leb_false a b : b < a -> (a <=? b) = false.
Proof. apply N.leb_gt. Qed.

Lemma is_cont_byte n : n < 64 -> is_cont (byte_of_N (0x80 + n)) = true.
Proof.
  intros Hn. unfold is_cont. rewrite to_N_byte_of_N by lia.
  rewrite !leb_true by lia. done.
Qed.

Lemma decode_1 b r :
  Byte.to_N b < 0x80 -> utf8_decode (b :: r) = Byte.to_N b :: utf8_decode r.
Proof. intros H. cbn [utf8_decode]. by rewrite ltb_true. Qed.

Lemma decode_2 b1 b2 r :
  0xC2 <= Byte.to_N b1 < 0xE0 -> is_cont b2 = true ->
  utf8_decode (b1 :: b2 :: r)
    = ((Byte.to_N b1 - 0xC0) * 64 + (Byte.to_N b2 - 0x80)) :: utf8_decode r.
Proof.
  intros H H2. cbn [utf8_decode].
  rewrite (ltb_false _ 0x80), (ltb_false _ 0xC2), (ltb_true _ 0xE0) by lia.
  by rewrite H2.
Qed.

Lemma decode_3 b1 b2 b3 r :
  let cp := (Byte.to_N b1 - 0xE0) * 4096 + (Byte.to_N b2 - 0x80) * 64
            + (Byte.to_N b3 - 0x80) in
  0xE0 <= Byte.to_N b1 < 0xF0 -> is_cont b2 = true -> is_cont b3 = true ->
  0x800 <= cp -> is_high_surrogate cp = false -> is_low_surrogate cp = false ->
  utf8_decode (b1 :: b2 :: b3 :: r) = cp :: utf8_decode r.
Proof.
  intros cp H H2 H3 Hcp Hh Hl. cbn [utf8_decode]. fold cp.
  rewrite (ltb_false _ 0x80), (ltb_false _ 0xC2), (ltb_false _ 0xE0),
    (ltb_true _ 0xF0) by lia.
  rewrite H2, H3, Hh, Hl, (leb_true 0x800) by done. done.
Qed.

Lemma decode_4 b1 b2 b3 b4 r :
  let cp := (Byte.to_N b1 - 0xF0) * 262144 + (Byte.to_N b2 - 0x80) * 4096
            + (Byte.to_N b3 - 0x80) * 64 + (Byte.to_N b4 - 0x80) in
  0xF0 <= Byte.to_N b1 < 0xF5 ->
  is_cont b2 = true -> is_cont b3 = true -> is_cont b4 = true ->
  0x10000 <= cp <= 0x10FFFF ->
  utf8_decode (b1 :: b2 :: b3 :: b4 :: r) = code_units cp ++ utf8_decode r.
Proof.
  intros cp H H2 H3 H4 Hcp. cbn [utf8_decode]. fold cp.
  rewrite (ltb_false _ 0x80), (ltb_false _ 0xC2), (ltb_false _ 0xE0),
    (ltb_false _ 0xF0), (ltb_true _ 0xF5) by lia.
  rewrite H2, H3, H4, (leb_true 0x10000), (leb_true cp) by lia. done.
Qed.

Lemma split64 c :
  exists q r, c = 64 * q + r /\ r < 64 /\ c / 64 = q /\ c mod 64 = r.
Proof.
  exists (c / 64), (c mod 64). repeat split.
  - apply N.div_mod. discriminate.
  - apply N.mod_lt. discriminate.
Qed.

Lemma div4096 c : c / 4096 = c / 64 / 64.
Proof. rewrite N.Div0.div_div. reflexivity. Qed.

Lemma div262144 c : c / 262144 = c / 64 / 64 / 64.
Proof. rewrite !N.Div0.div_div. reflexivity. Qed.

Lemma round_trip_1 c r :
  c < 0x80 -> utf8_decode (utf8_1 c ++ r) = c :: utf8_decode r.
Proof.
  intros Hc. unfold utf8_1. cbn [app].
  rewrite decode_1; rewrite to_N_byte_of_N by lia; [done | lia].
Qed.

Lemma round_trip_2 c r :
  0x80 <= c < 0x800 -> utf8_decode (utf8_2 c ++ r) = c :: utf8_decode r.
Proof.
  intros Hc. unfold utf8_2. cbn [app].
  destruct (split64 c) as (q & m & E & B & -> & ->).
  rewrite decode_2; try (by apply is_cont_byte);
    rewrite ?to_N_byte_of_N by lia; [f_equal; lia | lia].
Qed.

Lemma round_trip_3 c r :
  0x800 <= c < 0x10000 ->
  is_high_surrogate c = false -> is_low_surrogate c = false ->
  utf8_decode (utf8_3 c ++ r) = c :: utf8_decode r.
Proof.
  intros Hc Hh Hl. unfold utf8_3. cbn [app]. rewrite div4096.
  destruct (split64 c) as (q1 & r1 & E1 & B1 & -> & ->).
  destruct (split64 q1) as (q2 & r2 & E2 & B2 & -> & ->).
  assert ((Byte.to_N (byte_of_N (0xE0 + q2)) - 0xE0) * 4096
          + (Byte.to_N (byte_of_N (0x80 + r2)) - 0x80) * 64
          + (Byte.to_N (byte_of_N (0x80 + r1)) - 0x80) = c) as Hcp
    by (rewrite !to_N_byte_of_N by lia; lia).
  rewrite decode_3; rewrite ?Hcp; try done; try (by apply is_cont_byte);
    rewrite ?to_N_byte_of_N by lia; lia.
Qed.

Lemma round_trip_4 h l r :
  is_high_surrogate h = true -> is_low_surrogate l = true ->
  utf8_decode (utf8_4 (0x10000 + (h - 0xD800) * 0x400 + (l - 0xDC00)) ++ r)
    = h :: l :: utf8_decode r.
Proof.
  intros Hh Hl. unfold is_high_surrogate, is_low_surrogate in *. bools.
  set (cp := 0x10000 + (h - 0xD800) * 0x400 + (l - 0xDC00)).
  assert (0x10000 <= cp <= 0x10FFFF) as Hcp by (subst cp; lia).
  assert (code_units cp = [h; l]) as Hunits.
  { unfold code_units. rewrite ltb_false by lia.
    assert (cp - 0x10000 = 0x400 * (h - 0xD800) + (l - 0xDC00)) as E
      by (subst cp; lia).
    assert (l - 0xDC00 < 0x400) as B by lia.
    rewrite <- (N.div_unique (cp - 0x10000) 0x400 (h - 0xD800) (l - 0xDC00) B E).
    rewrite <- (N.mod_unique (cp - 0x10000) 0x400 (h - 0xD800) (l - 0xDC00) B E).
    f_equal; [lia | f_equal; lia]. }
  unfold utf8_4. cbn [app]. rewrite div262144, div4096.
  destruct (split64 cp) as (q1 & r1 & E1 & B1 & -> & ->).
  destruct (split64 q1) as (q2 & r2 & E2 & B2 & -> & ->).
  destruct (split64 q2) as (q3 & r3 & E3 & B3 & -> & ->).
  assert ((Byte.to_N (byte_of_N (0xF0 + q3)) - 0xF0) * 262144
          + (Byte.to_N (byte_of_N (0x80 + r3)) - 0x80) * 4096
          + (Byte.to_N (byte_of_N (0x80 + r2)) - 0x80) * 64
          + (Byte.to_N (byte_of_N (0x80 + r1)) - 0x80) = cp) as Hval
    by (rewrite !to_N_byte_of_N by lia; lia).
  rewrite decode_4; rewrite ?Hval; try done; try (by rewrite Hunits);
    try (by apply is_cont_byte); rewrite ?to_N_byte_of_N by lia; lia.
Qed.

(** Decoding the UTF-8 encoding of a well-formed string gives it back. *)
Lemma utf8_round_trip s : well_formed s -> utf8_decode (utf8_encode s) = s.
Proof.
  induction 1 as [|c s Hc Hh Hl Hs IH|h l s Hh Hl Hs IH]; [done| |].
  - cbn [utf8_encode].
    destruct (N.ltb_spec c 0x80) as [H1|H1]; [by rewrite round_trip_1, IH|].
    destruct (N.ltb_spec c 0x800) as [H2|H2]; [by rewrite round_trip_2, IH|].
    rewrite Hh, Hl. by rewrite round_trip_3, IH.
  - cbn [utf8_encode]. rewrite Hh, Hl.
    unfold is_high_surrogate in Hh. bools.
    rewrite (ltb_false h 0x80), (ltb_false h 0x800) by lia.
    rewrite round_trip_4, IH; [done | | done].
    unfold is_high_surrogate. by rewrite !leb_true by lia.
Qed.

End BufferFacts.

(** ** JSON.stringify produces well-formed strings *)

Module JsonFacts.
Import JS BufferFacts.
Import Spec Samples.

Lemma wf_small c s : c < 0xD800 -> well_formed s -> well_formed (c :: s).
Proof.
  intros Hc Hs. apply wf_unit; [lia | | | done].
  - unfold is_high_surrogate. by rewrite leb_false by lia.
  - unfold is_low_surrogate. by rewrite leb_false by lia.
Qed.

Lemma wf_app a b : well_formed a -> well_formed b -> well_formed (a ++ b).
Proof.
  induction 1; intros Hb; simpl; [done | by apply wf_unit; auto | by apply wf_pair; auto].
Qed.

Lemma wf_lit s : well_formed (lit s).
Proof.
  induction s as [|a s IH]; [constructor|].
  change (lit (String a s)) with (N_of_ascii a :: lit s).
  apply wf_small; [|done]. pose proof (N_ascii_bounded a). lia.
Qed.

Lemma hex_digit_small d : d < 16 -> hex_digit d < 0xD800.
Proof. intros H. unfold hex_digit. destruct (d <? 10); lia. Qed.

Lemma wf_unicode_escape c s : well_formed s -> well_formed (unicode_escape c ++ s).
Proof.
  intros Hs. unfold unicode_escape, hex4. apply wf_app; [|done].
  apply wf_app; [apply wf_lit|].
  repeat (apply wf_small; [apply hex_digit_small, N.mod_lt; discriminate|]).
  constructor.
Qed.

Lemma wf_quote_units_bounded n : forall s,
  (length s <= n)%nat -> forallb (fun c => c <? 0x10000) s = true ->
  well_formed (quote_units s).
Proof.
  induction n as [|n IH]; intros [|c rest] Hlen Hall; try constructor;
    [simpl in Hlen; lia|].
  simpl in Hlen. cbn [forallb] in Hall. apply andb_true_iff in Hall as [Hc Hrest].
  apply N.ltb_lt in Hc.
  assert (well_formed (quote_units rest)) as IHrest by (apply IH; [lia | done]).
  cbn [quote_units].
  repeat (match goal with
          | |- context [if ?c =? ?k then _ else _] => destruct (c =? k)
          end; [apply wf_app; [apply wf_lit || (repeat (apply wf_small; [lia|]); constructor)
                              | done]|]).
  destruct (c <? 0x20); [by apply wf_unicode_escape|].
  destruct (is_high_surrogate c) eqn:Hh.
  - destruct rest as [|d rest']; [rewrite <- (app_nil_r (unicode_escape c));
                                  apply wf_unicode_escape; constructor|].
    destruct (is_low_surrogate d) eqn:Hl.
    + apply wf_pair; [done | done |]. apply IH; [simpl in *; lia|].
      cbn [forallb] in Hrest. by apply andb_true_iff in Hrest as [_ ?].
    + by apply wf_unicode_escape.
  - destruct (is_low_surrogate c) eqn:Hl; [by apply wf_unicode_escape|].
    by apply wf_unit.
Qed.

Lemma wf_quote s :
  forallb (fun c => c <? 0x10000) s = true -> well_formed (quote s).
Proof.
  intros H. unfold quote. apply wf_app; [apply wf_small; [lia | constructor]|].
  apply wf_app; [by eapply wf_quote_units_bounded | apply wf_small; [lia | constructor]].
Qed.

Lemma wf_join sep parts :
  well_formed sep -> Forall well_formed parts -> well_formed (join sep parts).
Proof.
  intros Hsep Hparts. destruct Hparts as [|p ps Hp Hps]; [constructor|].
  unfold join. apply wf_app; [done|].
  induction Hps as [|q qs Hq Hqs IH]; [constructor|].
  simpl. rewrite <- app_assoc. apply wf_app; [done|]. by apply wf_app.
Qed.

(** The text of a JSON-serializable payload is well-formed UTF-16. *)
Lemma JSON_stringify_well_formed v : forall text,
  utf16_value v = true -> JSON_stringify v = Some text -> well_formed text.
Proof.
  induction v as [| |b|n|s|items IH|fields IH] using value_induction;
    intros text Hv Htext; cbn [JSON_stringify] in Htext; simplify_eq.
  - apply wf_lit.
  - destruct b; apply wf_lit.
  - destruct n; simplify_eq; apply wf_lit.
  - by apply wf_quote.
  - apply wf_app; [apply wf_lit|]. apply wf_app; [|apply wf_lit].
    apply wf_join; [apply wf_lit|].
    cbn [utf16_value] in Hv. apply Forall_map.
    induction IH as [|x r Hx Hr IHr]; [constructor|].
    cbn [forallb] in Hv. apply andb_true_iff in Hv as [Hvx Hvr].
    constructor; [|by apply IHr].
    destruct (JSON_stringify x) as [t|] eqn:Ht; [by eapply Hx | apply wf_lit].
  - apply wf_app; [apply wf_lit|]. apply wf_app; [|apply wf_lit].
    apply wf_join; [apply wf_lit|].
    cbn [utf16_value] in Hv.
    induction IH as [|[k x] r Hx Hr IHr]; [constructor|].
    cbn [forallb] in Hv. apply andb_true_iff in Hv as [Hvx Hvr].
    apply andb_true_iff in Hvx as [Hk Hvx].
    cbn [omap list_omap]. cbn [snd] in Hx.
    destruct (JSON_stringify x) as [t|] eqn:Ht; cbn [fmap option_fmap option_map].
    + constructor; [|by apply IHr].
      apply wf_app; [by apply wf_quote|]. apply wf_app; [apply wf_lit | by eapply Hx].
    + by apply IHr.
Qed.

End JsonFacts.

(** ** parseInt on decimal numerals *)

Module ParseIntFacts.
Import JS.
Import Spec Samples.

Lemma digit_cases c : is_digit c ->
  c = 48 \/ c = 49 \/ c = 50 \/ c = 51 \/ c = 52 \/ c = 53 \/ c = 54 \/ c = 55
  \/ c = 56 \/ c = 57.
Proof. unfold is_digit. lia. Qed.

Ltac by_digit c H :=
  destruct (digit_cases c H) as [->|[->|[->|[->|[->|[->|[->|[->|[->| ->]]]]]]]]];
  reflexivity.

Lemma digit_not_whitespace c : is_digit c -> is_whitespace c = false.
Proof. intros H. by_digit c H. Qed.

Lemma digit_not_sign c : is_digit c -> (c =? 45) = false /\ (c =? 43) = false.
Proof. intros H. split; by_digit c H. Qed.

Lemma digit_not_x c : is_digit c -> (c =? 120) || (c =? 88) = false.
Proof. intros H. by_digit c H. Qed.

Lemma digit_value_digit c : is_digit c -> digit_value 10 c = Some (c - 48).
Proof. intros H. by_digit c H. Qed.

Lemma digits_all_digits s : Forall is_digit s -> forall acc,
  digits 10 s (Some acc) = Some (fold_left (fun a c => a * 10 + (c - 48)) s acc).
Proof.
  induction 1 as [|c s Hc Hs IH]; intros acc; simpl; [done|].
  rewrite (digit_value_digit c Hc). apply IH.
Qed.

(** A non-empty string of decimal digits is read as the number it
    denotes. *)
Lemma parseInt_digits s :
  s <> [] -> Forall is_digit s -> parseInt s = Num (Z.of_N (decimal_value s)).
Proof.
  intros Hne Hall. destruct Hall as [|c rest Hc Hrest]; [done|].
  unfold parseInt. cbn [trim_start]. rewrite (digit_not_whitespace c Hc).
  unfold strip_sign. destruct (digit_not_sign c Hc) as [-> ->].
  assert (strip_radix (c :: rest) = (10, c :: rest)) as ->.
  { destruct Hrest as [|x rest' Hx _]; [done|]. unfold strip_radix.
    rewrite (digit_not_x x Hx). by rewrite andb_false_r. }
  cbn [digits]. rewrite (digit_value_digit c Hc).
  rewrite (digits_all_digits rest Hrest). reflexivity.
Qed.

End ParseIntFacts.

(** ** The session store *)

Module RedisFacts.
Import JS Sys RedisService MFacts.
Import Spec Samples.

Lemma JSON_stringify_record_nonempty fields : JSON_stringify_record fields <> [].
Proof. unfold JSON_stringify_record. simpl. discriminate. Qed.

Lemma truthy_nonempty_record fields :
  truthy_string (JSON_stringify_record fields) = true.
Proof. reflexivity. Qed.

Lemma JSON_stringify_object fields :
  JSON_stringify (VObj fields) = Some (JSON_stringify_record fields).
Proof. reflexivity. Qed.

(** The two keys of a token differ. *)
Lemma sessionKey_neq_metadataKey token : sessionKey token <> metadataKey token.
Proof.
  unfold sessionKey, metadataKey. intros H.
  apply (f_equal length) in H. rewrite !length_app in H. simpl in H. lia.
Qed.

Lemma writes_setEx key seconds v :
  v <> [] -> writes [key] (client_setEx key seconds v).
Proof.
  intros Hv. apply writes_external. intros w k e.
  destruct seconds as [s|]; simpl; [|by left].
  destruct (0 <? s)%Z; simpl; [|by left].
  destruct (decide (key = k)) as [->|Hne].
  - rewrite lookup_insert_eq. intros Heq. simplify_eq. right. split; [set_solver | done].
  - rewrite lookup_insert_ne by done. by left.
Qed.

Lemma writes_client_set key v :
  v <> [] -> writes [key] (client_set key v).
Proof.
  intros Hv. apply writes_external. intros w k e. simpl.
  destruct (decide (key = k)) as [->|Hne].
  - rewrite lookup_insert_eq. intros Heq. simplify_eq. right. split; [set_solver | done].
  - rewrite lookup_insert_ne by done. by left.
Qed.

Lemma writes_set key v ttl : v <> [] -> writes [key] (set key v ttl).
Proof.
  intros Hv. unfold set. destruct ttl as [seconds|].
  - destruct (truthy_number seconds); [by apply writes_setEx | by apply writes_client_set].
  - by apply writes_client_set.
Qed.

Lemma writes_mono {A} keys keys' (m : M A) :
  keys ⊆ keys' -> writes keys m -> writes keys' m.
Proof.
  intros Hsub Hm w k e H. destruct (Hm w k e H) as [?|[? ?]]; [by left|].
  right. split; [by apply Hsub | done].
Qed.

Lemma writes_del keys key : writes keys (delete key).
Proof.
  unfold delete. apply writes_bind.
  - apply writes_external. intros w k e. simpl.
    intros H. apply lookup_delete_Some in H as [_ H]. by left.
  - intros n. apply untouched_writes, untouched_ret.
Qed.

Lemma untouched_get key : redis_untouched (get key).
Proof. apply untouched_external. by intros w. Qed.

Lemma writes_storeSession token data ttl :
  writes [sessionKey token; metadataKey token] (storeSession token data ttl).
Proof.
  unfold storeSession.
  apply writes_bind.
  { eapply writes_mono; [|apply writes_set, JSON_stringify_record_nonempty]. set_solver. }
  intros _. apply writes_bind; [apply untouched_writes, untouched_iso|].
  intros createdAt. apply writes_bind; [apply untouched_writes, untouched_now|].
  intros t. apply writes_bind; [apply untouched_writes, untouched_lift|].
  intros expiresAt.
  eapply writes_mono; [|apply writes_set, JSON_stringify_record_nonempty]. set_solver.
Qed.

Lemma writes_all2 keys (a b : M unit) :
  writes keys a -> writes keys b -> writes keys (all2 a b).
Proof.
  intros Ha Hb w k e. unfold all2.
  specialize (Ha w). destruct (a w) as [ra w1].
  specialize (Hb w1). destruct (b w1) as [rb w2]. simpl in *.
  assert (redis w2 !! k = Some e ->
          redis w !! k = Some e \/ (k ∈ keys /\ e_value e <> [])) as Hgoal.
  { intros H. destruct (Hb k e H) as [H1|H1]; [by apply Ha | by right]. }
  destruct ra, rb; simpl; exact Hgoal.
Qed.

Lemma writes_deleteSession keys token : writes keys (deleteSession token).
Proof. apply writes_all2; apply writes_del. Qed.

Lemma untouched_checkSessionStatus token : redis_untouched (checkSessionStatus token).
Proof.
  unfold checkSessionStatus.
  apply untouched_bind; [apply untouched_get|]. intros s.
  apply untouched_bind; [apply untouched_get|]. intros m.
  destruct (truthy_nullable s); [apply untouched_ret|].
  destruct (truthy_nullable m); apply untouched_ret.
Qed.

Lemma apply_event_ok keys ev w :
  records_ok keys w -> records_ok (written [ev] ++ keys) (apply_event ev w).
Proof.
  intros Hok k e H.
  assert (redis w !! k = Some e \/ (k ∈ written [ev] /\ e_value e <> [])) as [H1|[H1 H2]].
  { destruct ev as [token data ttl|token|token|dt]; simpl in *.
    - by apply writes_storeSession in H.
    - apply (writes_deleteSession [] token) in H. set_solver.
    - rewrite untouched_checkSessionStatus in H. by left.
    - by left. }
  - destruct (Hok k e H1). split; [set_solver | done].
  - split; [set_solver | done].
Qed.

Lemma written_app h1 h2 : written (h1 ++ h2) = written h1 ++ written h2.
Proof.
  induction h1 as [|[token data ttl|token|token|dt] h1 IH]; simpl; [done|..];
    by rewrite IH.
Qed.

Lemma run_ok history : forall keys w,
  records_ok keys w -> records_ok (written history ++ keys) (run history w).
Proof.
  induction history as [|ev rest IH]; intros keys w Hok.
  - done.
  - apply (apply_event_ok keys ev) in Hok. apply IH in Hok.
    intros k e H. destruct (Hok k e H) as [H1 H2]. split; [|done].
    change (ev :: rest) with ([ev] ++ rest).
    rewrite (written_app [ev] rest). set_solver.
Qed.

Lemma run_from_empty history w :
  redis w = ∅ -> records_ok (written history) (run history w).
Proof.
  intros Hemp. rewrite <- (app_nil_r (written history)).
  apply run_ok. intros k e. rewrite Hemp, lookup_empty. done.
Qed.

Lemma live_Some w key v :
  live w key = Some v -> exists t, redis w !! key = Some (Entry v t).
Proof.
  unfold live. destruct (redis w !! key) as [[v' [t|]]|]; [| |done].
  - destruct (now w <? t)%Z; [|done]. intros Heq. simplify_eq. eauto.
  - intros Heq. simplify_eq. eauto.
Qed.

Lemma live_truthy keys w key :
  records_ok keys w -> truthy_nullable (live w key) = present w key.
Proof.
  intros Hok. unfold present. destruct (live w key) as [v|] eqn:Hl; [|done].
  apply live_Some in Hl as [t Ht]. apply Hok in Ht as [_ Hv]. simpl in *.
  destruct v; [done | reflexivity].
Qed.

Lemma live_with_calls n w key : live (with_calls n w) key = live w key.
Proof. reflexivity. Qed.

(** What [checkSessionStatus] does when both reads are answered. *)
Lemma checkSessionStatus_reads w token :
  fault w (calls w) = None -> fault w (S (calls w)) = None ->
  checkSessionStatus token w =
    (Ok (if truthy_nullable (live w (sessionKey token)) then Status true false
         else if truthy_nullable (live w (metadataKey token)) then Status false true
         else Status false false),
     with_calls (S (S (calls w))) w).
Proof.
  intros F1 F2. unfold checkSessionStatus, get, client_get.
  unfold mbind, M_bind, external. rewrite F1. simpl. rewrite F2. simpl.
  rewrite !live_with_calls.
  destruct (truthy_nullable (live w (sessionKey token))); [done|].
  destruct (truthy_nullable (live w (metadataKey token))); done.
Qed.

Lemma storeSession_answered w token data ttl :
  (0 < ttl)%Z -> (Z.abs (now w + ttl * 1000) <= 8640000000000000)%Z ->
  fault w (calls w) = None -> fault w (S (calls w)) = None ->
  storeSession token data (Num ttl) w
    = (Ok tt, with_redis (session_records w token data ttl)
                (with_calls (S (S (calls w))) w)).
Proof.
  intros Hpos Hdate F1 F2. unfold storeSession, set.
  assert (truthy_number (Num ttl) = true) as ->
    by (unfold truthy_number; apply negb_true_iff, Z.eqb_neq; lia).
  assert (truthy_number (num_mul (Num ttl) 2) = true) as ->
    by (unfold truthy_number, num_mul; apply negb_true_iff, Z.eqb_neq; lia).
  unfold mbind, M_bind, client_setEx, external. rewrite F1. simpl.
  apply Z.ltb_lt in Hpos as Hpos'. rewrite Hpos'. simpl.
  apply Z.leb_le in Hdate as ->. simpl. rewrite F2. simpl.
  assert ((0 <? ttl * 2)%Z = true) as -> by (apply Z.ltb_lt; lia).
  reflexivity.
Qed.

(** The dual TTL at work: once the primary TTL has elapsed and the
    metadata TTL has not, the session reads as expired. *)
Lemma expired_between_ttls w token data ttl dt :
  (0 < ttl)%Z -> (Z.abs (now w + ttl * 1000) <= 8640000000000000)%Z ->
  fault w (calls w) = None -> fault w (S (calls w)) = None ->
  fault w (S (S (calls w))) = None -> fault w (S (S (S (calls w)))) = None ->
  (ttl * 1000 <= Z.of_N dt < ttl * 2 * 1000)%Z ->
  (checkSessionStatus token
     (advance (Z.of_N dt) (storeSession token data (Num ttl) w).2)).1
    = Ok (Status false true).
Proof.
  intros Hpos Hdate F1 F2 F3 F4 Hdt.
  rewrite storeSession_answered by done. cbn [snd].
  rewrite checkSessionStatus_reads by done. cbn [fst].
  unfold live, advance, session_records. cbn [redis now with_now with_redis with_calls].
  rewrite lookup_insert_ne by (apply not_eq_sym, sessionKey_neq_metadataKey).
  rewrite lookup_insert_eq.
  rewrite (proj2 (Z.ltb_ge _ _)) by lia. cbn [truthy_nullable].
  rewrite lookup_insert_eq.
  rewrite (proj2 (Z.ltb_lt _ _)) by lia.
  cbn [truthy_nullable]. by rewrite (truthy_nonempty_record _).
Qed.

End RedisFacts.

(** ** AuthService.login and signup *)

Module AuthFacts.
Import JS Sys Messages RedisService Neo4jService TokenUtil AuthService.
Import MFacts BufferFacts ParseIntFacts RedisFacts.
Import Spec Samples.

(** A token is 64 lowercase hex characters, whatever the entropy. *)
Lemma generateSessionToken_spec w :
  generateSessionToken w
    = (Ok (toString_hex (map (entropy w) (seq (drawn w) 32))),
       with_drawn (drawn w + 32) w)
  /\ isValidSessionToken (toString_hex (map (entropy w) (seq (drawn w) 32))) = true.
Proof.
  split; [reflexivity|].
  unfold isValidSessionToken.
  rewrite toString_hex_length, length_map, length_seq, toString_hex_lower. done.
Qed.

Lemma executeQuery_match email w :
  fault w (calls w) = None -> fault w (S (calls w)) = None ->
  executeQuery (MatchUserRecord email) w
    = (Ok (filter (fun u => u_email u = email) (users w)),
       with_calls (S (S (calls w))) w).
Proof.
  intros F1 F2. unfold executeQuery, finally, session_run, session_close, external.
  rewrite F1. simpl. rewrite F2. reflexivity.
Qed.

Lemma executeQuery_exists email w :
  fault w (calls w) = None -> fault w (S (calls w)) = None ->
  executeQuery (MatchUser email) w
    = (Ok (filter (fun u => u_email u = email) (users w)),
       with_calls (S (S (calls w))) w).
Proof.
  intros F1 F2. unfold executeQuery, finally, session_run, session_close, external.
  rewrite F1. simpl. rewrite F2. reflexivity.
Qed.

Section Login.
Variable bcrypt_compare : jsstring -> jsstring -> outcome bool.
Variable bcrypt_hash : jsstring -> N -> list byte -> outcome jsstring.
Variable bcryptRounds : N.
Variable app_jwtExpiration : option jsstring.

Local Abbreviation login := (login bcrypt_compare app_jwtExpiration).
Local Abbreviation signup := (signup bcrypt_hash bcryptRounds app_jwtExpiration).

Lemma login_missing cr w :
  truthy_string (email cr) = false \/ truthy_string (password cr) = false ->
  (login cr w).1 = Ok (error_response MISSING_INFORMATION (now w))
  /\ redis (login cr w).2 = redis w
  /\ calls (login cr w).2 = calls w.
Proof.
  intros H. unfold AuthService.login.
  assert (negb (truthy_string (email cr)) || negb (truthy_string (password cr)) = true)
    as -> by (destruct H as [-> | ->]; [done | apply orb_true_r]).
  done.
Qed.

Lemma login_not_found cr w :
  truthy_string (email cr) = true -> truthy_string (password cr) = true ->
  fault w (calls w) = None -> fault w (S (calls w)) = None ->
  filter (fun u => u_email u = email cr) (users w) = [] ->
  (login cr w).1 = Ok (error_response EMAIL_NOT_FOUND (now w))
  /\ redis (login cr w).2 = redis w.
Proof.
  intros He Hp F1 F2 Hnone. unfold AuthService.login. rewrite He, Hp. simpl.
  unfold try_catch, mbind, M_bind. rewrite executeQuery_match by done.
  rewrite Hnone. done.
Qed.

Lemma login_incorrect cr w user others :
  truthy_string (email cr) = true -> truthy_string (password cr) = true ->
  fault w (calls w) = None -> fault w (S (calls w)) = None ->
  filter (fun u => u_email u = email cr) (users w) = user :: others ->
  bcrypt_compare (password cr) (u_hashedPassword user) = Ok false ->
  (login cr w).1 = Ok (error_response INCORRECT_PASSWORD (now w))
  /\ redis (login cr w).2 = redis w.
Proof.
  intros He Hp F1 F2 Hfound Hcmp. unfold AuthService.login. rewrite He, Hp. simpl.
  unfold try_catch, mbind, M_bind. rewrite executeQuery_match by done.
  rewrite Hfound. unfold lift. rewrite Hcmp. done.
Qed.

Lemma generateSessionToken_eq w :
  generateSessionToken w = (Ok (fresh_token w), with_drawn (drawn w + 32) w).
Proof. reflexivity. Qed.

Lemma issue_session_answered mail okMessage w ttl :
  sessionTtl app_jwtExpiration = Num ttl ->
  (0 < ttl)%Z -> (Z.abs (now w + ttl * 1000) <= 8640000000000000)%Z ->
  fault w (calls w) = None -> fault w (S (calls w)) = None ->
  let data := [(lit "email", VStr mail); (lit "timestamp", VStr (iso_string (now w)))] in
  (issue_session app_jwtExpiration mail okMessage w).1
    = Ok (LoginResponse true (Some (fresh_token w)) okMessage None (now w))
  /\ redis (issue_session app_jwtExpiration mail okMessage w).2
     = session_records w (fresh_token w) data ttl
  /\ drawn (issue_session app_jwtExpiration mail okMessage w).2 = (drawn w + 32)%nat.
Proof.
  intros Httl Hpos Hdate F1 F2 data. unfold issue_session.
  erewrite bind_ok; [|apply generateSessionToken_eq].
  erewrite bind_ok; [|reflexivity].
  rewrite Httl.
  erewrite bind_ok; [|by apply storeSession_answered].
  erewrite bind_ok; [|reflexivity].
  erewrite bind_ok; [|reflexivity].
  repeat split; reflexivity.
Qed.

Lemma login_success cr w user others ttl :
  truthy_string (email cr) = true -> truthy_string (password cr) = true ->
  fault w (calls w) = None -> fault w (S (calls w)) = None ->
  fault w (S (S (calls w))) = None -> fault w (S (S (S (calls w)))) = None ->
  filter (fun u => u_email u = email cr) (users w) = user :: others ->
  bcrypt_compare (password cr) (u_hashedPassword user) = Ok true ->
  sessionTtl app_jwtExpiration = Num ttl ->
  (0 < ttl)%Z -> (Z.abs (now w + ttl * 1000) <= 8640000000000000)%Z ->
  let data := [(lit "email", VStr (email cr));
               (lit "timestamp", VStr (iso_string (now w)))] in
  (login cr w).1
    = Ok (LoginResponse true (Some (fresh_token w)) LOGIN_SUCCESSFUL None (now w))
  /\ redis (login cr w).2 = session_records w (fresh_token w) data ttl
  /\ drawn (login cr w).2 = (drawn w + 32)%nat.
Proof.
  intros He Hp F1 F2 F3 F4 Hfound Hcmp Httl Hpos Hdate data.
  unfold AuthService.login. rewrite He, Hp.
  cbn [negb orb].
  pose proof (issue_session_answered (email cr) LOGIN_SUCCESSFUL
                (with_calls (S (S (calls w))) w) ttl Httl Hpos Hdate F3 F4)
    as (H1 & H2 & H3).
  destruct (issue_session app_jwtExpiration (email cr) LOGIN_SUCCESSFUL
              (with_calls (S (S (calls w))) w)) as [r wf] eqn:Hissue.
  cbn [fst snd] in H1, H2, H3. subst r.
  erewrite try_ok; [split; [reflexivity | split; [exact H2 | exact H3]]|].
  erewrite bind_ok; [|by apply executeQuery_match].
  rewrite Hfound.
  erewrite bind_ok; [|unfold lift; rewrite Hcmp; reflexivity].
  cbn [negb]. exact Hissue.
Qed.

Lemma signup_exists data w user others :
  truthy_string (s_email data) = true ->
  truthy_string (encryptedPassword data) = true ->
  fault w (calls w) = None -> fault w (S (calls w)) = None ->
  filter (fun u => u_email u = s_email data) (users w) = user :: others ->
  (signup data w).1 = Ok (error_response EMAIL_ALREADY_EXISTS (now w))
  /\ redis (signup data w).2 = redis w.
Proof.
  intros He Hp F1 F2 Hfound. unfold AuthService.signup. rewrite He, Hp.
  cbn [negb orb].
  erewrite (try_ok _ _ w (error_response EMAIL_ALREADY_EXISTS (now w))
              (with_calls (S (S (calls w))) w)); [split; reflexivity|].
  erewrite bind_ok; [|by apply executeQuery_exists].
  rewrite Hfound. reflexivity.
Qed.

End Login.

Lemma truthy_nonempty s : s <> [] -> truthy_string s = true.
Proof. by destruct s. Qed.

Lemma falsy_empty s : s = [] -> truthy_string s = false.
Proof. by intros ->. Qed.

Lemma configured_sessionTtl cfg ttl :
  configured_expiration cfg ttl -> sessionTtl cfg = Num ttl /\ (0 < ttl)%Z.
Proof.
  intros [| |s Hne Hall Hpos]; [done..|]. unfold sessionTtl.
  simpl. rewrite (truthy_nonempty s Hne).
  rewrite parseInt_digits by done. split; [done | lia].
Qed.

End AuthFacts.

(** ** EncryptionService: round trip *)

Module EncryptionFacts.
Import JS Sys Messages EncryptionService MFacts BufferFacts.
Import Spec Samples.

Section Cipher.
Variable cipheriv :
  jsstring -> list byte -> list byte -> list byte -> outcome (list byte * list byte).
Variable decipheriv :
  jsstring -> list byte -> list byte -> list byte -> list byte -> outcome (list byte).

Lemma encrypt_sealed this data w sealed :
  cipheriv (algorithm this) (encryptionKey this) (fresh_iv w) (utf8_encode data)
    = Ok sealed ->
  encrypt cipheriv this data w
    = (Ok (Envelope (toString_hex sealed.1) (toString_hex (fresh_iv w))
             (toString_hex sealed.2)),
       with_drawn (drawn w + 16) w).
Proof.
  intros Hseal. unfold encrypt.
  erewrite try_ok; [reflexivity|].
  erewrite bind_ok; [|reflexivity].
  erewrite bind_ok; [|unfold lift; fold (fresh_iv w); rewrite Hseal; reflexivity].
  reflexivity.
Qed.

Lemma decrypt_opened this payload w data :
  Nat.even (length (ciphertext payload)) = true ->
  decipheriv (algorithm this) (encryptionKey this)
    (Buffer_from_hex (iv payload)) (Buffer_from_hex (authTag payload))
    (Buffer_from_hex (ciphertext payload)) = Ok data ->
  decrypt decipheriv this payload w = (Ok (utf8_decode data), w).
Proof.
  intros Heven Hopen. unfold decrypt.
  erewrite try_ok; [reflexivity|].
  erewrite bind_ok; [|unfold lift, hex_input; rewrite Heven; reflexivity].
  erewrite bind_ok; [|unfold lift; rewrite Hopen; reflexivity].
  reflexivity.
Qed.

Lemma decrypt_encrypt this data w w2 sealed :
  opens_what_it_sealed cipheriv decipheriv -> well_formed data ->
  cipheriv (algorithm this) (encryptionKey this) (fresh_iv w) (utf8_encode data)
    = Ok sealed ->
  exists envelope,
    (encrypt cipheriv this data w).1 = Ok envelope
    /\ iv envelope = toString_hex (fresh_iv w)
    /\ decrypt decipheriv this envelope w2 = (Ok data, w2).
Proof.
  intros Hsound Hwf Hseal. eexists. rewrite (encrypt_sealed _ _ _ _ Hseal).
  split; [reflexivity|]. split; [reflexivity|].
  erewrite decrypt_opened.
  - by rewrite utf8_round_trip.
  - apply toString_hex_even.
  - cbn [ciphertext iv authTag]. rewrite !hex_round_trip. by apply Hsound.
Qed.

End Cipher.

End EncryptionFacts.

Module SessionStoreSpec.
Import JS Sys RedisService MFacts RedisFacts.
Import Spec Samples.

(** C1. In every state the session operations lead to from an empty
    store, and for every token, [checkSessionStatus] (when its two reads
    are answered) classifies in this order: the primary record is
    present: valid; otherwise the metadata record is present: expired;
    otherwise neither flag. A token neither of whose records was ever
    stored is classified {valid: false, expired: false}. *)
Theorem checkSessionStatus_three_way (w0 : World) (history : list event) (token : jsstring) :
  redis w0 = ∅ ->
  fault (run history w0) (calls (run history w0)) = None ->
  fault (run history w0) (S (calls (run history w0))) = None ->
  (checkSessionStatus token (run history w0)).1 =
    Ok (if present (run history w0) (sessionKey token) then Status true false
        else if present (run history w0) (metadataKey token) then Status false true
        else Status false false)
  /\ (sessionKey token ∉ written history ->
      metadataKey token ∉ written history ->
      (checkSessionStatus token (run history w0)).1 = Ok (Status false false)).
Proof.
  intros Hemp F1 F2.
  pose proof (run_from_empty history w0 Hemp) as Hok.
  rewrite (checkSessionStatus_reads _ _ F1 F2). simpl.
  rewrite !(live_truthy _ _ _ Hok). split; [done|].
  intros Hs Hm.
  assert (forall k, k ∉ written history -> present (run history w0) k = false) as Habs.
  { intros k Hk. unfold present. destruct (live _ k) as [v|] eqn:Hl; [|done].
    apply live_Some in Hl as [t Ht]. apply Hok in Ht as [Hin _]. done. }
  by rewrite (Habs _ Hs), (Habs _ Hm).
Qed.

Lemma checkSessionStatus_three_way_witness :
  (checkSessionStatus token_b (run sample_history quiet_world)).1 = Ok (Status true false)
  /\ (checkSessionStatus token_a (run sample_history quiet_world)).1 = Ok (Status false true)
  /\ (checkSessionStatus token_c (run sample_history quiet_world)).1 = Ok (Status false false).
Proof.
  split; [|split].
  - exact (proj1 (checkSessionStatus_three_way quiet_world sample_history token_b
                    eq_refl eq_refl eq_refl)).
  - exact (proj1 (checkSessionStatus_three_way quiet_world sample_history token_a
                    eq_refl eq_refl eq_refl)).
  - apply (proj2 (checkSessionStatus_three_way quiet_world sample_history token_c
                    eq_refl eq_refl eq_refl)).
    + apply (bool_decide_unpack _). vm_compute. exact I.
    + apply (bool_decide_unpack _). vm_compute. exact I.
Defined.

(** With [ttl = 0] the guard [if (ttl)] of [set] takes the branch
    without expiry: both records are written, neither has a TTL. *)
Lemma storeSession_zero_ttl_never_expires :
  (storeSession token_a [] (Num 0) quiet_world).1 = Ok tt
  /\ e_expires <$> redis (storeSession token_a [] (Num 0) quiet_world).2
                     !! sessionKey token_a = Some None
  /\ e_expires <$> redis (storeSession token_a [] (Num 0) quiet_world).2
                     !! metadataKey token_a = Some None
  /\ ~ storeSession_as_stated.
Proof.
  split; [reflexivity|]. split; [reflexivity|]. split; [reflexivity|].
  intros H.
  destruct (H quiet_world token_a [] 0%Z eq_refl eq_refl) as [H1 _].
  vm_compute in H1. discriminate H1.
Qed.

Lemma truthy_positive ttl : (0 < ttl)%Z -> truthy_number (Num ttl) = true.
Proof. intros H. simpl. apply negb_true_iff, Z.eqb_neq. lia. Qed.

(** C2 (amended). For every token, payload and positive [ttl] whose
    expiry instant is a valid date, [storeSession] makes two separate
    writes: the primary record holding the serialized payload, expiring
    [ttl] seconds from now, then the metadata record holding
    {createdAt: now, expiresAt: now + ttl, token}, expiring [2 * ttl]
    seconds from now. If the first write fails nothing is stored; if
    only the second fails the primary record stays. When both succeed,
    [checkSessionStatus] right afterwards is {valid: true, expired:
    false}. *)
Theorem storeSession_two_writes (w : World) (token : jsstring)
    (data : list (jsstring * value)) (ttl : Z) :
  (0 < ttl)%Z ->
  (Z.abs (now w + ttl * 1000) <= 8640000000000000)%Z ->
  let primary := Entry (JSON_stringify_record data) (Some (now w + ttl * 1000)%Z) in
  let metadata :=
    Entry (JSON_stringify_record
             (metadata_record (iso_string (now w))
                (iso_string (now w + ttl * 1000)) token))
          (Some (now w + ttl * 2 * 1000)%Z) in
  let r := storeSession token data (Num ttl) w in
  match fault w (calls w), fault w (S (calls w)) with
  | Some e, _ => r.1 = Throw e /\ redis r.2 = redis w
  | None, Some e =>
      r.1 = Throw e /\ redis r.2 = <[sessionKey token := primary]> (redis w)
  | None, None =>
      r.1 = Ok tt
      /\ redis r.2 = <[metadataKey token := metadata]>
                       (<[sessionKey token := primary]> (redis w))
      /\ calls r.2 = S (S (calls w))
      /\ (fault w (S (S (calls w))) = None ->
          fault w (S (S (S (calls w)))) = None ->
          (checkSessionStatus token r.2).1 = Ok (Status true false))
  end.
Proof.
  intros Hpos Hdate primary metadata r. subst r.
  unfold storeSession, set.
  rewrite (truthy_positive ttl Hpos).
  assert (truthy_number (num_mul (Num ttl) 2) = true) as ->
    by (apply truthy_positive; lia).
  unfold mbind, M_bind, client_setEx, external.
  destruct (fault w (calls w)) as [e1|] eqn:F1; simpl; [done|].
  apply Z.ltb_lt in Hpos as Hpos'. rewrite Hpos'. simpl.
  apply Z.leb_le in Hdate as ->. simpl.
  destruct (fault w (S (calls w))) as [e2|] eqn:F2; simpl; [done|].
  assert ((0 <? ttl * 2)%Z = true) as -> by (apply Z.ltb_lt; lia). simpl.
  split; [done|]. split; [done|]. split; [done|].
  intros F3 F4.
  rewrite checkSessionStatus_reads by done. simpl.
  assert (live (with_calls (S (S (calls w)))
                  (with_redis (<[metadataKey token := metadata]>
                     (<[sessionKey token := primary]> (redis w))) w))
               (sessionKey token) = Some (JSON_stringify_record data)) as Hlive.
  { unfold live. simpl.
    rewrite lookup_insert_ne by (apply not_eq_sym, sessionKey_neq_metadataKey).
    rewrite lookup_insert_eq. simpl.
    assert ((now w <? now w + ttl * 1000)%Z = true) as -> by (apply Z.ltb_lt; lia).
    done. }
  unfold live in Hlive |- *. simpl in Hlive |- *.
  subst primary metadata. rewrite Hlive. done.
Qed.

Lemma storeSession_two_writes_witness :
  (storeSession token_a [(lit "email", VStr (lit "u@x.com"))] (Num 86400) quiet_world).1
    = Ok tt
  /\ (checkSessionStatus token_a
        (storeSession token_a [(lit "email", VStr (lit "u@x.com"))] (Num 86400)
           quiet_world).2).1 = Ok (Status true false).
Proof.
  pose proof (storeSession_two_writes quiet_world token_a
                [(lit "email", VStr (lit "u@x.com"))] 86400
                ltac:(lia) ltac:(vm_compute; discriminate)) as H.
  simpl in H. destruct H as (H1 & _ & _ & H4).
  split; [exact H1 | exact (H4 eq_refl eq_refl)].
Defined.

End SessionStoreSpec.

(** ** AuthService.verifySession *)

Module VerifySessionSpec.
Import JS Sys Messages RedisService AuthService MFacts.
Import Spec Samples.

(** C3. For every token and every state of the world, [verifySession]
    returns (it never throws), and what it returns is fixed by the
    answer of [checkSessionStatus]: valid gives (true, false, null);
    expired gives (false, true, SESSION_EXPIRED); neither gives (false,
    false, SESSION_INVALID); a throwing store call gives (false, false,
    DATABASE_ERROR). *)
Theorem verifySession_never_throws (w : World) (token : jsstring) :
  exists v : verification,
    (verifySession token w).1 = Ok v
    /\ match (checkSessionStatus token w).1 with
       | Ok st =>
           if valid st then v = Verification true false None
           else if expired st then v = Verification false true (Some SESSION_EXPIRED)
           else v = Verification false false (Some SESSION_INVALID)
       | Throw _ => v = Verification false false (Some DATABASE_ERROR)
       end.
Proof.
  unfold verifySession, try_catch, mbind, M_bind.
  destruct (checkSessionStatus token w) as [[[v e]|err] w1]; simpl.
  - destruct v; [eauto|]. destruct e; eauto.
  - eauto.
Qed.

(** The four verdicts all occur. *)
Example verifySession_verdicts :
  let w := run sample_history quiet_world in
  (verifySession token_b w).1 = Ok (Verification true false None)
  /\ (verifySession token_a w).1
       = Ok (Verification false true (Some SESSION_EXPIRED))
  /\ (verifySession token_c w).1
       = Ok (Verification false false (Some SESSION_INVALID))
  /\ (verifySession token_b broken_world).1
       = Ok (Verification false false (Some DATABASE_ERROR)).
Proof. vm_compute. auto. Qed.

End VerifySessionSpec.

(** ** DecryptPayloadInterceptor.intercept *)

Module InterceptorSpec.
Import JS Sys Messages DecryptPayloadInterceptor MFacts.
Import Spec Samples.

Section Gate.
Variable decryptFromRequest : value -> M jsstring.
Variable JSON_parse : jsstring -> outcome value.

Local Abbreviation intercept := (intercept decryptFromRequest JSON_parse).

Lemma intercept_other_method request w :
  mutating (method request) = false -> intercept request w = (Ok request, w).
Proof. intros H. unfold DecryptPayloadInterceptor.intercept. by rewrite H. Qed.

Lemma intercept_no_body request w :
  mutating (method request) = true -> truthy (body request) = false ->
  intercept request w = (Throw (bad_request MISSING_ENCRYPTED_PAYLOAD), w).
Proof.
  intros Hm Hb. unfold DecryptPayloadInterceptor.intercept. rewrite Hm, Hb.
  reflexivity.
Qed.

Lemma intercept_plain request w :
  mutating (method request) = true -> truthy (body request) = true ->
  envelope_fields_truthy (body request) = false ->
  intercept request w = (Ok request, w).
Proof.
  intros Hm Hb Hf. unfold DecryptPayloadInterceptor.intercept. rewrite Hm, Hb.
  unfold envelope_fields_truthy in Hf. cbn [negb].
  assert (negb (truthy (prop (body request) (lit "ciphertext")))
          || negb (truthy (prop (body request) (lit "iv")))
          || negb (truthy (prop (body request) (lit "authTag"))) = true) as ->.
  { destruct (truthy (prop (body request) (lit "ciphertext"))); [|done].
    destruct (truthy (prop (body request) (lit "iv"))); [|done].
    destruct (truthy (prop (body request) (lit "authTag"))); done. }
  reflexivity.
Qed.

Lemma intercept_envelope request w :
  mutating (method request) = true -> truthy (body request) = true ->
  envelope_fields_truthy (body request) = true ->
  (intercept request w).1 =
    match (decryptFromRequest (body request) w).1 with
    | Ok decryptedString =>
        match JSON_parse decryptedString with
        | Ok decryptedData => Ok (mkRequest (method request) decryptedData)
        | Throw _ => Throw rejected
        end
    | Throw _ => Throw rejected
    end.
Proof.
  intros Hm Hb Hf. unfold DecryptPayloadInterceptor.intercept. rewrite Hm, Hb.
  unfold envelope_fields_truthy in Hf.
  apply andb_true_iff in Hf as [Hf H3]. apply andb_true_iff in Hf as [H1 H2].
  rewrite H1, H2, H3. cbn [negb orb].
  unfold try_catch, mbind, M_bind, lift.
  destruct (decryptFromRequest (body request) w) as [[s|e] w1]; cbn [fst].
  - destruct (JSON_parse s) as [v|e]; reflexivity.
  - reflexivity.
Qed.

End Gate.

(** All three fields are present, the ciphertext is the empty string:
    the request passes through, and the codec (which would refuse it) is
    not called. *)
Lemma present_but_empty_passes_through :
  intercept refuse_all parse_nothing empty_ciphertext_request quiet_world
    = (Ok empty_ciphertext_request, quiet_world)
  /\ ~ present_fields_are_decrypted.
Proof.
  split; [reflexivity|].
  intros H.
  specialize (H refuse_all parse_nothing empty_ciphertext_request
                quiet_world _ eq_refl eq_refl
                ltac:(by eexists) ltac:(by eexists) ltac:(by eexists)).
  vm_compute in H. discriminate H.
Qed.

(** C4 (amended). For every POST, PUT or PATCH request: a body that is
    absent (undefined or null, or otherwise falsy) is rejected with a
    bad-request error; a body in which one of ciphertext, iv, authTag is
    missing or falsy passes through unmodified and untouched; when all
    three are present and truthy, decryption is attempted, on success
    the body is replaced by the parsed plaintext, and a failure of the
    decryption or of the JSON parse is rejected with one and the same
    bad-request error. *)
Theorem decrypt_gate
    (decryptFromRequest : value -> M jsstring)
    (JSON_parse : jsstring -> outcome value)
    (request : Request) (w : World) :
  mutating (method request) = true ->
  let result := intercept decryptFromRequest JSON_parse request w in
  (truthy (body request) = false ->
     result = (Throw (bad_request MISSING_ENCRYPTED_PAYLOAD), w))
  /\ (truthy (body request) = true ->
      envelope_fields_truthy (body request) = false ->
      result = (Ok request, w))
  /\ (truthy (body request) = true ->
      envelope_fields_truthy (body request) = true ->
      result.1 =
        match (decryptFromRequest (body request) w).1 with
        | Ok decryptedString =>
            match JSON_parse decryptedString with
            | Ok decryptedData => Ok (mkRequest (method request) decryptedData)
            | Throw _ => Throw (bad_request INVALID_ENCRYPTED_FORMAT)
            end
        | Throw _ => Throw (bad_request INVALID_ENCRYPTED_FORMAT)
        end).
Proof.
  intros Hm result. subst result. split; [|split].
  - intros Hb. by apply intercept_no_body.
  - intros Hb Hf. by apply intercept_plain.
  - intros Hb Hf. by apply intercept_envelope.
Qed.

Lemma decrypt_gate_witness :
  intercept constant_codec parse_empty_object (mkRequest (lit "PATCH") VUndefined)
      quiet_world
    = (Throw (bad_request MISSING_ENCRYPTED_PAYLOAD), quiet_world)
  /\ intercept constant_codec parse_empty_object plain_request quiet_world
     = (Ok plain_request, quiet_world)
  /\ (intercept constant_codec parse_empty_object sealed_request quiet_world).1
     = Ok (mkRequest (lit "PUT") (VObj []))
  /\ (intercept refuse_all parse_empty_object sealed_request quiet_world).1
     = Throw (bad_request INVALID_ENCRYPTED_FORMAT)
  /\ (intercept constant_codec parse_nothing sealed_request quiet_world).1
     = Throw (bad_request INVALID_ENCRYPTED_FORMAT).
Proof.
  split; [|split; [|split; [|split]]].
  - apply (decrypt_gate constant_codec parse_empty_object
             (mkRequest (lit "PATCH") VUndefined) quiet_world eq_refl). reflexivity.
  - apply (decrypt_gate constant_codec parse_empty_object plain_request quiet_world
             eq_refl); reflexivity.
  - apply (decrypt_gate constant_codec parse_empty_object sealed_request quiet_world
             eq_refl); reflexivity.
  - apply (decrypt_gate refuse_all parse_empty_object sealed_request quiet_world
             eq_refl); reflexivity.
  - apply (decrypt_gate constant_codec parse_nothing sealed_request quiet_world
             eq_refl); reflexivity.
Defined.

(** C10. For every POST, PUT or PATCH request whose body is an object
    in which ciphertext, iv or authTag is present and equal to the empty
    string, the gate hands the request on unchanged: whatever the codec
    is, it is not called, nothing is logged and nothing is thrown. *)
Theorem empty_field_passes_through
    (decryptFromRequest : value -> M jsstring)
    (JSON_parse : jsstring -> outcome value)
    (request : Request) (w : World)
    (fields : list (jsstring * value)) (name : jsstring) :
  mutating (method request) = true ->
  body request = VObj fields ->
  name ∈ [lit "ciphertext"; lit "iv"; lit "authTag"] ->
  assoc name fields = Some (VStr []) ->
  intercept decryptFromRequest JSON_parse request w = (Ok request, w).
Proof.
  intros Hm Hbody Hname Hempty.
  apply intercept_plain; [done | by rewrite Hbody |].
  rewrite Hbody. unfold envelope_fields_truthy. cbn [prop].
  assert (truthy (default VUndefined (assoc name fields)) = false) as Hfalsy
    by (by rewrite Hempty).
  apply elem_of_cons in Hname as [->|Hname]; [by rewrite Hfalsy|].
  apply elem_of_cons in Hname as [->|Hname];
    [rewrite Hfalsy; by rewrite andb_false_r|].
  apply elem_of_cons in Hname as [->|Hname]; [rewrite Hfalsy; apply andb_false_r|].
  by apply elem_of_nil in Hname.
Qed.

Lemma empty_field_passes_through_witness :
  intercept refuse_all parse_nothing empty_ciphertext_request quiet_world
    = (Ok empty_ciphertext_request, quiet_world).
Proof.
  apply (empty_field_passes_through refuse_all parse_nothing empty_ciphertext_request
           quiet_world _ (lit "ciphertext") eq_refl eq_refl).
  - set_solver.
  - reflexivity.
Defined.

End InterceptorSpec.

(** ** ApiKeyService.validateApiKey *)

Module ApiKeySpec.
Import JS Sys Messages CassandraService ApiKeyService MFacts.
Import Spec Samples.

Lemma getApiKey_answered apiKey w :
  fault w (calls w) = None ->
  getApiKey apiKey w
    = (Ok (match filter (fun row => api_key row = apiKey) (api_keys w) with
           | [] => None
           | row :: _ => Some (KeyData (key_id row) (client_name row) (is_active row))
           end),
       with_calls (S (calls w)) w).
Proof.
  intros F. unfold getApiKey, try_catch, mbind, M_bind, client_execute, external.
  rewrite F. simpl. by destruct (filter _ (api_keys w)).
Qed.

Lemma getApiKey_fault apiKey w e :
  fault w (calls w) = Some e -> (getApiKey apiKey w).1 = Throw e.
Proof.
  intros F. unfold getApiKey, try_catch, mbind, M_bind, client_execute, external.
  by rewrite F.
Qed.

Lemma updateLastUsed_fault apiKey w e :
  fault w (calls w) = Some e -> (updateLastUsed apiKey w).1 = Throw e.
Proof.
  intros F. unfold updateLastUsed, try_catch, mbind, M_bind, client_execute, external.
  simpl. by rewrite F.
Qed.

Lemma updateLastUsed_answered apiKey w :
  fault w (calls w) = None -> (updateLastUsed apiKey w).1 = Ok tt.
Proof.
  intros F. unfold updateLastUsed, try_catch, mbind, M_bind, client_execute, external.
  simpl. by rewrite F.
Qed.

(** What [validateApiKey] returns, in every world. *)
Lemma validateApiKey_result apiKey w :
  (validateApiKey apiKey w).1 =
    Ok (match fault w (calls w) with
        | Some _ => false
        | None =>
            match filter (fun row => api_key row = apiKey) (api_keys w) with
            | [] => false
            | row :: _ =>
                is_active row
                && match fault w (S (calls w)) with Some _ => false | None => true end
            end
        end).
Proof.
  unfold validateApiKey, try_catch. unfold mbind at 1, M_bind at 1.
  destruct (fault w (calls w)) as [e|] eqn:F1.
  - pose proof (getApiKey_fault apiKey w e F1) as H.
    destruct (getApiKey apiKey w) as [r w1]. simpl in H. subst r. reflexivity.
  - rewrite getApiKey_answered by done.
    destruct (filter _ (api_keys w)) as [|row rest]; [reflexivity|].
    cbn [isActive]. destruct (is_active row); cbn [negb andb]; [|reflexivity].
    unfold mbind at 1, M_bind at 1.
    destruct (fault w (S (calls w))) as [e|] eqn:F2.
    + pose proof (updateLastUsed_fault apiKey (with_calls (S (calls w)) w) e F2) as H.
      destruct (updateLastUsed apiKey _) as [r w2]. simpl in H. subst r. reflexivity.
    + pose proof (updateLastUsed_answered apiKey (with_calls (S (calls w)) w) F2) as H.
      destruct (updateLastUsed apiKey _) as [r w2]. simpl in H. subst r. reflexivity.
Qed.

(** The key is found and active, the update of last_used fails: the
    key is refused. *)
Lemma usage_failure_invalidates :
  (validateApiKey acme_key update_fails_world).1 = Ok false
  /\ ~ usage_failure_is_harmless.
Proof.
  split; [vm_compute; reflexivity|].
  intros H.
  specialize (H acme_key update_fails_world _ _ eq_refl eq_refl eq_refl).
  vm_compute in H. discriminate H.
Qed.

(** C5 (amended). For every key, [validateApiKey] never throws. It
    returns false when the lookup throws, when no record is found and
    when the record is not active. When the record is found and active
    it returns true if recording the last-used timestamp succeeds and
    false if that update fails. *)
Theorem validateApiKey_fails_closed (apiKey : jsstring) (w : World) :
  exists verdict : bool,
    (validateApiKey apiKey w).1 = Ok verdict
    /\ (is_Some (fault w (calls w)) -> verdict = false)
    /\ (fault w (calls w) = None ->
        match filter (fun row => api_key row = apiKey) (api_keys w) with
        | [] => verdict = false
        | row :: _ =>
            (is_active row = false -> verdict = false)
            /\ (is_active row = true ->
                verdict = match fault w (S (calls w)) with
                          | None => true
                          | Some _ => false
                          end)
        end).
Proof.
  eexists. split; [apply validateApiKey_result|]. split.
  - intros [e ->]. reflexivity.
  - intros ->. destruct (filter _ (api_keys w)) as [|row rest]; [reflexivity|].
    split; intros ->; [reflexivity|].
    by destruct (fault w (S (calls w))).
Qed.

Example validateApiKey_verdicts :
  (validateApiKey acme_key steady_world).1 = Ok true
  /\ (validateApiKey (lit "unknown") steady_world).1 = Ok false
  /\ (validateApiKey acme_key update_fails_world).1 = Ok false.
Proof. vm_compute. auto. Qed.

End ApiKeySpec.

Module LoginSpec.
Import JS Sys Messages RedisService Neo4jService TokenUtil AuthService.
Import MFacts BufferFacts RedisFacts AuthFacts.
Import Spec Samples.

(** C6. For every login call the checks come in this order. Empty email
    or password: the MissingInformation failure, nothing stored and no
    lookup made. Otherwise, the lookup being answered: no record gives
    EmailNotFound; a record whose hash the password does not match gives
    IncorrectPassword; and with a matching password, the store
    answering, the token is the rendering in 64 lowercase hex characters
    of 32 bytes newly drawn from the entropy source, the session is
    stored under it with a TTL equal to the configured expiration in
    seconds (86400 when none is configured) and twice that for the
    metadata, and the success response carries the token. *)
Theorem login_outcomes
    (bcrypt_compare : jsstring -> jsstring -> outcome bool)
    (app_jwtExpiration : option jsstring)
    (cr : LoginRequestDto) (w : World) :
  let result := login bcrypt_compare app_jwtExpiration cr w in
  (email cr = [] \/ password cr = [] ->
     result.1 = Ok (error_response MISSING_INFORMATION (now w))
     /\ redis result.2 = redis w /\ calls result.2 = calls w)
  /\ (email cr <> [] -> password cr <> [] ->
      fault w (calls w) = None -> fault w (S (calls w)) = None ->
      match filter (fun u => u_email u = email cr) (users w) with
      | [] =>
          result.1 = Ok (error_response EMAIL_NOT_FOUND (now w))
          /\ redis result.2 = redis w
      | user :: _ =>
          (bcrypt_compare (password cr) (u_hashedPassword user) = Ok false ->
             result.1 = Ok (error_response INCORRECT_PASSWORD (now w))
             /\ redis result.2 = redis w)
          /\ (bcrypt_compare (password cr) (u_hashedPassword user) = Ok true ->
              forall ttl : Z,
                configured_expiration app_jwtExpiration ttl ->
                (Z.abs (now w + ttl * 1000) <= 8640000000000000)%Z ->
                fault w (S (S (calls w))) = None ->
                fault w (S (S (S (calls w)))) = None ->
                isValidSessionToken (fresh_token w) = true
                /\ Buffer_from_hex (fresh_token w) = map (entropy w) (seq (drawn w) 32)
                /\ result.1 = Ok (LoginResponse true (Some (fresh_token w))
                                    LOGIN_SUCCESSFUL None (now w))
                /\ redis result.2
                   = session_records w (fresh_token w)
                       [(lit "email", VStr (email cr));
                        (lit "timestamp", VStr (iso_string (now w)))] ttl
                /\ drawn result.2 = (drawn w + 32)%nat)
      end).
Proof.
  intros result. subst result. split.
  - intros H. apply login_missing.
    destruct H as [H|H]; [left | right]; by apply falsy_empty.
  - intros He Hp F1 F2.
    apply truthy_nonempty in He, Hp.
    destruct (filter _ (users w)) as [|user others] eqn:Hfound.
    + by apply login_not_found.
    + split.
      * intros Hcmp. by eapply login_incorrect.
      * intros Hcmp ttl Hcfg Hdate F3 F4.
        apply configured_sessionTtl in Hcfg as [Httl Hpos].
        split; [apply generateSessionToken_spec|].
        split; [apply hex_round_trip|].
        by eapply login_success.
Qed.

Lemma login_outcomes_witness :
  (login toy_compare None (LoginRequest (lit "u@x.com") []) one_user_world).1
    = Ok (error_response MISSING_INFORMATION 1771272000000)
  /\ (login toy_compare None (LoginRequest (lit "v@x.com") (lit "secret")) one_user_world).1
    = Ok (error_response EMAIL_NOT_FOUND 1771272000000)
  /\ (login toy_compare None (LoginRequest (lit "u@x.com") (lit "guess")) one_user_world).1
    = Ok (error_response INCORRECT_PASSWORD 1771272000000)
  /\ (login toy_compare (Some (lit "3600"))
        (LoginRequest (lit "u@x.com") (lit "secret")) one_user_world).1
    = Ok (LoginResponse true (Some (fresh_token one_user_world))
            LOGIN_SUCCESSFUL None 1771272000000).
Proof.
  split; [|split; [|split]].
  - apply (proj1 (login_outcomes toy_compare None
                    (LoginRequest (lit "u@x.com") []) one_user_world)).
    by right.
  - apply (proj2 (login_outcomes toy_compare None
                    (LoginRequest (lit "v@x.com") (lit "secret")) one_user_world));
      done.
  - apply (proj1 (proj2 (login_outcomes toy_compare None
                    (LoginRequest (lit "u@x.com") (lit "guess")) one_user_world)
                    ltac:(done) ltac:(done) eq_refl eq_refl)).
    reflexivity.
  - apply (proj2 (proj2 (login_outcomes toy_compare (Some (lit "3600"))
                    (LoginRequest (lit "u@x.com") (lit "secret")) one_user_world)
                    ltac:(done) ltac:(done) eq_refl eq_refl) eq_refl 3600%Z).
    + apply (expiration_seconds (lit "3600")); [done | | done].
      repeat constructor; unfold is_digit; simpl; lia.
    + vm_compute. discriminate.
    + reflexivity.
    + reflexivity.
Defined.

(** A wrong password: success is false, the message is there, the code
    field is not. *)
Lemma error_responses_carry_no_code :
  (login toy_compare None (LoginRequest (lit "u@x.com") (lit "guess")) one_user_world).1
    = Ok (LoginResponse false None (lit "Password is incorrect") None 1771272000000)
  /\ ~ error_responses_carry_code.
Proof.
  split; [reflexivity|].
  intros H.
  destruct (H toy_compare None (LoginRequest (lit "u@x.com") (lit "guess"))
              one_user_world _ eq_refl eq_refl) as [c Hc].
  discriminate Hc.
Qed.

(** C8 (amended). For every authentication-error outcome of login or
    signup (email not found, incorrect password, email already exists)
    the response has success = false, no session token, and the message
    of the specific error code; the code field itself is not set. *)
Theorem auth_errors_carry_message_only
    (bcrypt_compare : jsstring -> jsstring -> outcome bool)
    (bcrypt_hash : jsstring -> N -> list byte -> outcome jsstring)
    (bcryptRounds : N) (app_jwtExpiration : option jsstring) (w : World) :
  fault w (calls w) = None -> fault w (S (calls w)) = None ->
  (forall cr, email cr <> [] -> password cr <> [] ->
     filter (fun u => u_email u = email cr) (users w) = [] ->
     (login bcrypt_compare app_jwtExpiration cr w).1
       = Ok (LoginResponse false None (ERROR_CODE_MESSAGES EMAIL_NOT_FOUND) None (now w)))
  /\ (forall cr user others, email cr <> [] -> password cr <> [] ->
        filter (fun u => u_email u = email cr) (users w) = user :: others ->
        bcrypt_compare (password cr) (u_hashedPassword user) = Ok false ->
        (login bcrypt_compare app_jwtExpiration cr w).1
          = Ok (LoginResponse false None (ERROR_CODE_MESSAGES INCORRECT_PASSWORD) None (now w)))
  /\ (forall data user others, s_email data <> [] -> encryptedPassword data <> [] ->
        filter (fun u => u_email u = s_email data) (users w) = user :: others ->
        (signup bcrypt_hash bcryptRounds app_jwtExpiration data w).1
          = Ok (LoginResponse false None (ERROR_CODE_MESSAGES EMAIL_ALREADY_EXISTS) None (now w))).
Proof.
  intros F1 F2. split; [|split].
  - intros cr He Hp Hnone. apply truthy_nonempty in He, Hp.
    by apply login_not_found.
  - intros cr user others He Hp Hfound Hcmp. apply truthy_nonempty in He, Hp.
    by eapply login_incorrect.
  - intros data user others He Hp Hfound. apply truthy_nonempty in He, Hp.
    by eapply (signup_exists bcrypt_hash).
Qed.

Lemma auth_errors_carry_message_only_witness :
  (login toy_compare None (LoginRequest (lit "v@x.com") (lit "secret")) one_user_world).1
    = Ok (LoginResponse false None (lit "Email address not found in the system") None
            1771272000000)
  /\ (login toy_compare None (LoginRequest (lit "u@x.com") (lit "guess")) one_user_world).1
    = Ok (LoginResponse false None (lit "Password is incorrect") None 1771272000000)
  /\ (signup toy_hash 10 None (SignupRequest (lit "u@x.com") (lit "secret")) one_user_world).1
    = Ok (LoginResponse false None (lit "Email already registered") None 1771272000000).
Proof.
  destruct (auth_errors_carry_message_only toy_compare toy_hash 10 None
              one_user_world eq_refl eq_refl) as (H1 & H2 & H3).
  split; [|split].
  - apply H1; done.
  - eapply H2; [done | done | reflexivity | reflexivity].
  - eapply H3; [done | done | reflexivity].
Defined.

End LoginSpec.

Module EncryptionSpec.
Import JS Sys Messages EncryptionService MFacts BufferFacts JsonFacts EncryptionFacts.
Import Spec Samples.

(** C7. For every JSON-serializable payload (its text is what is
    encrypted), every key and algorithm and every IV the encryptor
    draws: if the cipher opens what it sealed and seals the text, then
    [encrypt] returns an envelope carrying that IV, and [decrypt] of the
    envelope under the same key and algorithm returns the text. *)
Theorem decrypt_after_encrypt
    (cipheriv : jsstring -> list byte -> list byte -> list byte
                -> outcome (list byte * list byte))
    (decipheriv : jsstring -> list byte -> list byte -> list byte -> list byte
                  -> outcome (list byte))
    (this : keys) (payload : value) (text : jsstring) (w w2 : World)
    (sealed : list byte * list byte) :
  opens_what_it_sealed cipheriv decipheriv ->
  utf16_value payload = true ->
  JSON_stringify payload = Some text ->
  cipheriv (algorithm this) (encryptionKey this) (fresh_iv w) (utf8_encode text)
    = Ok sealed ->
  exists envelope,
    (encrypt cipheriv this text w).1 = Ok envelope
    /\ iv envelope = toString_hex (fresh_iv w)
    /\ (decrypt decipheriv this envelope w2).1 = Ok text.
Proof.
  intros Hsound Hvalid Htext Hseal.
  pose proof (JSON_stringify_well_formed payload text Hvalid Htext) as Hwf.
  destruct (decrypt_encrypt cipheriv decipheriv this text w w2 sealed Hsound Hwf Hseal)
    as (envelope & H1 & H2 & H3).
  exists envelope. by rewrite H3.
Qed.

Lemma toy_opens_what_it_sealed : opens_what_it_sealed toy_cipheriv toy_decipheriv.
Proof.
  intros alg key ivBuf data sealed. unfold toy_cipheriv, toy_decipheriv.
  destruct (toy_accepts alg key ivBuf); [|done].
  intros H. simplify_eq. cbn [fst snd].
  rewrite decide_True by done. by rewrite rev_involutive.
Qed.

Lemma decrypt_after_encrypt_witness :
  exists envelope,
    (encrypt toy_cipheriv sample_keys
       (default [] (JSON_stringify sample_payload)) quiet_world).1
      = Ok envelope
    /\ iv envelope = toString_hex (fresh_iv quiet_world)
    /\ (decrypt toy_decipheriv sample_keys envelope quiet_world).1
       = Ok (default [] (JSON_stringify sample_payload)).
Proof.
  exact (decrypt_after_encrypt toy_cipheriv toy_decipheriv sample_keys sample_payload
           (default [] (JSON_stringify sample_payload))
           quiet_world quiet_world _
           toy_opens_what_it_sealed eq_refl eq_refl eq_refl).
Defined.

(** A string with a lone surrogate is not a JSON text, and does not
    survive the UTF-8 encoding. *)
Example lone_surrogate_is_replaced :
  (decrypt toy_decipheriv sample_keys
     (Envelope (toString_hex (rev (utf8_encode [0xD83D])))
               (toString_hex (repeat x00 16)) (toString_hex (repeat x00 16)))
     quiet_world).1 = Ok [0xFFFD].
Proof. vm_compute. reflexivity. Qed.

End EncryptionSpec.

(** ** Key derivation *)

Module KeySpec.
Import JS Sys Messages EncryptionService MFacts BufferFacts.
Import Spec Samples.

Lemma Buffer_from_hex_length_bounded n : forall s,
  (length s <= n)%nat -> (2 * length (Buffer_from_hex s) <= length s)%nat.
Proof.
  induction n as [|n IH]; intros [|c1 [|c2 rest]] Hlen; simpl in *; try lia.
  destruct (hex_value c1), (hex_value c2); simpl; try lia.
  specialize (IH rest ltac:(lia)). lia.
Qed.

Lemma Buffer_from_hex_length s : (2 * length (Buffer_from_hex s) <= length s)%nat.
Proof. by apply (Buffer_from_hex_length_bounded (length s)). Qed.

(** At 32 characters or more the padding adds nothing: the padded key
    is the UTF-8 encoding of the first 32 characters. *)
Lemma padded_key_long s :
  (32 <= length s)%nat -> padded_key s = utf8_encode (take 32 s).
Proof.
  intros H. unfold padded_key, padEnd, substring0.
  replace (32 - length s)%nat with 0%nat by lia. by rewrite app_nil_r.
Qed.

Lemma utf8_encode_ascii s :
  Forall (fun c => c < 0x80) s -> length (utf8_encode s) = length s.
Proof.
  induction 1 as [|c s Hc Hs IH]; [done|].
  cbn [utf8_encode]. rewrite ltb_true by done. simpl. by rewrite IH.
Qed.

Lemma padded_key_ascii s :
  Forall (fun c => c < 0x80) s -> length (padded_key s) = 32%nat.
Proof.
  intros Hs. unfold padded_key, padEnd, substring0.
  rewrite utf8_encode_ascii.
  - rewrite length_take, length_app, repeat_length. lia.
  - apply Forall_take, Forall_app. split; [done|].
    apply Forall_forall. intros c Hc. apply list_elem_of_In, repeat_spec in Hc as ->.
    lia.
Qed.

Lemma initializeKeys_long c w :
  (32 <= length (configured_key c))%nat ->
  initializeKeys c w
    = (Ok (Keys (hex_or_padded_key (configured_key c)) (configured_algorithm c)), w).
Proof.
  intros H. unfold initializeKeys, try_catch. fold (configured_key c).
  assert ((length (configured_key c) <? 32)%nat = false) as ->
    by (apply Nat.ltb_ge; lia).
  reflexivity.
Qed.

Lemma initializeKeys_short c w :
  (length (configured_key c) < 32)%nat ->
  (initializeKeys c w).1
    = Ok (Keys (environment_key c)
            (or_string (env_ENCRYPTION_ALGORITHM c) (lit "aes-256-gcm"))).
Proof.
  intros H. unfold initializeKeys, try_catch. fold (configured_key c).
  assert ((length (configured_key c) <? 32)%nat = true) as ->
    by (apply Nat.ltb_lt; lia).
  reflexivity.
Qed.

(** A key of three characters: the helper throws instead of padding. *)
Lemma short_keys_are_refused :
  ApiEncryptionHelper (lit "abc") (lit "aes-256-gcm")
    = Throw (Exn Error (lit "Encryption key must be at least 32 characters long"))
  /\ ~ short_keys_are_padded.
Proof.
  split; [reflexivity|].
  intros H. specialize (H (lit "abc") (lit "aes-256-gcm") ltac:(vm_compute; lia)).
  vm_compute in H. discriminate H.
Qed.

(** In the service a short configured key is replaced by the key read
    from the environment, which is padded in its turn: with no
    ENCRYPTION_KEY at all, the key is thirty-two '0'. *)
Example short_configured_key_is_discarded :
  encryptionKey
    <$> match (initializeKeys (mkConfig (Some (lit "short")) None None None)
                 quiet_world).1 with
        | Ok k => Some k
        | Throw _ => None
        end
  = Some (utf8_encode (lit "00000000000000000000000000000000")).
Proof. vm_compute. reflexivity. Qed.

(** Below 32 characters the padding is the string followed by as many
    '0' as are missing. *)
Lemma padded_key_short s :
  (length s < 32)%nat -> padded_key s = utf8_encode (s ++ repeat 48 (32 - length s)).
Proof.
  intros H. unfold padded_key, padEnd, substring0.
  rewrite take_ge; [done|]. rewrite length_app, repeat_length. lia.
Qed.

(** C9 (amended). In the service and in the client helper alike: a key
    string whose hex interpretation is exactly 32 bytes is used as
    decoded; a key string of at least 32 characters whose hex
    interpretation is not 32 bytes gives, without failing, the key
    obtained by right-padding the raw string with '0' and truncating to
    32 characters, which is the UTF-8 encoding of its first 32
    characters and is 32 bytes long when these are ASCII. For a key
    string of fewer than 32 characters the two differ. The helper's
    constructor throws. The service does not fail: it takes the key
    from the environment variable, right-padded with '0' to 32
    characters when that is shorter than 32 characters, and decoded as
    hex, with no check of the length, when it is not. So a short key
    string that was read from the environment (no configured value) is
    padded as far as 32 characters, and a short configured value is
    replaced by the environment's. *)
Theorem key_derivation (c : Config) (w : World) (keyHex alg : jsstring) :
  let keyStr := configured_key c in
  let envKey := or_string (env_ENCRYPTION_KEY c) [] in
  let envAlg := or_string (env_ENCRYPTION_ALGORITHM c) (lit "aes-256-gcm") in
  (* the service *)
  (length (Buffer_from_hex keyStr) = 32%nat ->
     initializeKeys c w
       = (Ok (Keys (Buffer_from_hex keyStr) (configured_algorithm c)), w))
  /\ ((32 <= length keyStr)%nat -> length (Buffer_from_hex keyStr) <> 32%nat ->
      initializeKeys c w = (Ok (Keys (padded_key keyStr) (configured_algorithm c)), w)
      /\ padded_key keyStr = utf8_encode (take 32 keyStr)
      /\ (Forall (fun u => u < 0x80) (take 32 keyStr) ->
          length (padded_key keyStr) = 32%nat))
  /\ ((length keyStr < 32)%nat ->
      (initializeKeys c w).1
        = Ok (Keys (if (32 <=? length envKey)%nat then Buffer_from_hex envKey
                    else padded_key envKey) envAlg)
      /\ (cfg_encryptionKey c = None ->
          keyStr = envKey
          /\ (initializeKeys c w).1 = Ok (Keys (padded_key keyStr) envAlg)
          /\ padded_key keyStr
             = utf8_encode (keyStr ++ repeat 48 (32 - length keyStr))
          /\ (Forall (fun u => u < 0x80) keyStr -> length (padded_key keyStr) = 32%nat))
      /\ ((length envKey < 32)%nat ->
          (initializeKeys c w).1 = Ok (Keys (padded_key envKey) envAlg)
          /\ padded_key envKey
             = utf8_encode (envKey ++ repeat 48 (32 - length envKey))))
  (* the helper *)
  /\ (length (Buffer_from_hex keyHex) = 32%nat ->
      ApiEncryptionHelper keyHex alg = Ok (Keys (Buffer_from_hex keyHex) alg))
  /\ ((32 <= length keyHex)%nat -> length (Buffer_from_hex keyHex) <> 32%nat ->
      ApiEncryptionHelper keyHex alg = Ok (Keys (padded_key keyHex) alg)
      /\ padded_key keyHex = utf8_encode (take 32 keyHex)
      /\ (Forall (fun u => u < 0x80) (take 32 keyHex) ->
          length (padded_key keyHex) = 32%nat))
  /\ ((length keyHex < 32)%nat ->
      ApiEncryptionHelper keyHex alg
        = Throw (Exn Error (lit "Encryption key must be at least 32 characters long"))).
Proof.
  intros keyStr envKey envAlg.
  assert (forall s, (32 <= length s)%nat -> length (Buffer_from_hex s) <> 32%nat ->
            hex_or_padded_key s = padded_key s) as Hpad.
  { intros s _ Hne. unfold hex_or_padded_key. by rewrite decide_False. }
  assert (forall s, length (Buffer_from_hex s) = 32%nat ->
            (32 <= length s)%nat /\ hex_or_padded_key s = Buffer_from_hex s) as Hhex.
  { intros s He. pose proof (Buffer_from_hex_length s). split; [lia|].
    unfold hex_or_padded_key. by rewrite decide_True. }
  assert (forall s, (32 <= length s)%nat ->
            Forall (fun u => u < 0x80) (take 32 s) -> length (padded_key s) = 32%nat)
    as Hlen.
  { intros s Hs Hascii. rewrite padded_key_long by done.
    rewrite utf8_encode_ascii by done. rewrite length_take. lia. }
  subst keyStr envKey envAlg.
  assert ((length (configured_key c) < 32)%nat ->
          (initializeKeys c w).1
          = Ok (Keys (if (32 <=? length (or_string (env_ENCRYPTION_KEY c) []))%nat
                      then Buffer_from_hex (or_string (env_ENCRYPTION_KEY c) [])
                      else padded_key (or_string (env_ENCRYPTION_KEY c) []))
                  (or_string (env_ENCRYPTION_ALGORITHM c) (lit "aes-256-gcm"))))
    as Hshort.
  { intros Hs. by rewrite initializeKeys_short. }
  split; [|split; [|split; [|split; [|split]]]].
  - intros He. destruct (Hhex _ He) as [Hl Hk].
    rewrite initializeKeys_long by done. by rewrite Hk.
  - intros Hl Hne. rewrite initializeKeys_long by done. rewrite Hpad by done.
    split; [done|]. split; [by apply padded_key_long | by apply Hlen].
  - intros Hs. split; [by apply Hshort|]. split.
    + intros Hnone.
      assert (configured_key c = or_string (env_ENCRYPTION_KEY c) []) as Heq.
      { unfold configured_key, getConfigWithFallback. by rewrite Hnone. }
      split; [done|]. split.
      * rewrite Hshort by done. rewrite <- Heq.
        by rewrite (proj2 (Nat.leb_gt _ _)) by lia.
      * split; [by apply padded_key_short | apply padded_key_ascii].
    + intros He. split; [|by apply padded_key_short].
      rewrite Hshort by done. by rewrite (proj2 (Nat.leb_gt _ _)) by lia.
  - intros He. destruct (Hhex _ He) as [Hl Hk]. unfold ApiEncryptionHelper.
    rewrite (proj2 (Nat.ltb_ge _ _)) by lia. by rewrite Hk.
  - intros Hl Hne. unfold ApiEncryptionHelper. rewrite (proj2 (Nat.ltb_ge _ _)) by lia.
    rewrite Hpad by done.
    split; [done|]. split; [by apply padded_key_long | by apply Hlen].
  - intros Hs. unfold ApiEncryptionHelper. by rewrite (proj2 (Nat.ltb_lt _ _)) by lia.
Qed.

End KeySpec.

(** ** More on the session store *)

Module StoreFacts.
Import JS Sys RedisService MFacts RedisFacts.
Import Spec Samples Notions.

Lemma answered_1 w n : answered w (S n) -> fault w (calls w) = None.
Proof. intros H. rewrite <- (H 0%nat ltac:(lia)). f_equal. lia. Qed.

Lemma answered_2 w n : answered w (S (S n)) -> fault w (S (calls w)) = None.
Proof. intros H. rewrite <- (H 1%nat ltac:(lia)). f_equal. lia. Qed.

Lemma answered_3 w n : answered w (S (S (S n))) -> fault w (S (S (calls w))) = None.
Proof. intros H. rewrite <- (H 2%nat ltac:(lia)). f_equal. lia. Qed.

Lemma answered_4 w n :
  answered w (S (S (S (S n)))) -> fault w (S (S (S (calls w)))) = None.
Proof. intros H. rewrite <- (H 3%nat ltac:(lia)). f_equal. lia. Qed.

Lemma reliable_answered w n : reliable w -> answered w n.
Proof. intros H i _. apply H. Qed.

Lemma delete_run key w :
  RedisService.delete key w
    = match fault w (calls w) with
      | Some e => (Throw e, with_calls (S (calls w)) w)
      | None => (Ok tt, with_redis (base.delete key (redis w)) (with_calls (S (calls w)) w))
      end.
Proof.
  unfold RedisService.delete, client_del, mbind, M_bind, external.
  by destruct (fault w (calls w)).
Qed.

End StoreFacts.


Module SessionLifecycle.
Import JS Sys RedisService MFacts RedisFacts StoreFacts.
Import Spec Samples Notions.

(** X1. The two TTLs over time. After [storeSession] with a positive TTL
    (both writes answered), a check made [dt] milliseconds later says:
    valid while [dt] is below the TTL; expired from the TTL on, until
    twice the TTL; and neither (invalid) from twice the TTL on. *)
Theorem session_lifecycle (w : World) (token : jsstring)
    (data : list (jsstring * value)) (ttl : Z) (dt : N) :
  (0 < ttl)%Z ->
  (Z.abs (now w + ttl * 1000) <= 8640000000000000)%Z ->
  answered w 4 ->
  (checkSessionStatus token
     (advance (Z.of_N dt) (storeSession token data (Num ttl) w).2)).1
    = Ok (if (Z.of_N dt <? ttl * 1000)%Z then Status true false
          else if (Z.of_N dt <? ttl * 2 * 1000)%Z then Status false true
          else Status false false).
Proof.
  intros Hpos Hdate Hans.
  pose proof (answered_1 _ _ Hans) as F1. pose proof (answered_2 _ _ Hans) as F2.
  pose proof (answered_3 _ _ Hans) as F3. pose proof (answered_4 _ _ Hans) as F4.
  rewrite storeSession_answered by done. cbn [snd].
  rewrite checkSessionStatus_reads by done. cbn [fst].
  unfold live, advance, session_records. cbn [redis now with_now with_redis with_calls].
  rewrite lookup_insert_ne by (apply not_eq_sym, sessionKey_neq_metadataKey).
  rewrite !lookup_insert_eq.
  destruct (Z.ltb_spec (Z.of_N dt) (ttl * 1000)) as [H1|H1].
  - rewrite (proj2 (Z.ltb_lt _ _)) by lia. cbn [truthy_nullable].
    by rewrite (truthy_nonempty_record _).
  - rewrite (proj2 (Z.ltb_ge _ _)) by lia. cbn [truthy_nullable].
    destruct (Z.ltb_spec (Z.of_N dt) (ttl * 2 * 1000)) as [H2|H2].
    + rewrite (proj2 (Z.ltb_lt _ _)) by lia. cbn [truthy_nullable].
      by rewrite (truthy_nonempty_record _).
    + rewrite (proj2 (Z.ltb_ge _ _)) by lia. reflexivity.
Qed.

Lemma session_lifecycle_witness :
  (checkSessionStatus token_a
     (advance 59999 (storeSession token_a [] (Num 60) quiet_world).2)).1
    = Ok (Status true false)
  /\ (checkSessionStatus token_a
     (advance 60000 (storeSession token_a [] (Num 60) quiet_world).2)).1
    = Ok (Status false true)
  /\ (checkSessionStatus token_a
     (advance 120000 (storeSession token_a [] (Num 60) quiet_world).2)).1
    = Ok (Status false false).
Proof.
  assert (answered quiet_world 4) as Hans by (intros i _; reflexivity).
  split; [|split].
  - exact (session_lifecycle quiet_world token_a [] 60 59999
             ltac:(lia) ltac:(vm_compute; discriminate) Hans).
  - exact (session_lifecycle quiet_world token_a [] 60 60000
             ltac:(lia) ltac:(vm_compute; discriminate) Hans).
  - exact (session_lifecycle quiet_world token_a [] 60 120000
             ltac:(lia) ltac:(vm_compute; discriminate) Hans).
Defined.

End SessionLifecycle.

Module KeyValueSpec.
Import JS Sys RedisService MFacts RedisFacts StoreFacts.
Import Spec Samples Notions.

(** X2. Reading back what [set] wrote, [dt] milliseconds later, for a
    TTL in the range Redis takes (a safe integer of seconds, the expiry
    instant within a signed 64-bit count of milliseconds). With a
    positive TTL the value is read until the TTL has elapsed and [null]
    from then on; with no TTL, a TTL of 0 or NaN the value is written
    without expiry and always read back; a negative TTL is refused by
    Redis: [set] throws and nothing is written. *)
Theorem get_after_set (w : World) (key v : jsstring) (ttl : option number) (dt : N) :
  answered w 2 ->
  (forall s, ttl = Some (Num s) -> expire_in_range w s) ->
  let stored := set key v ttl w in
  let read := (get key (advance (Z.of_N dt) stored.2)).1 in
  match ttl with
  | Some (Num s) =>
      if (0 <? s)%Z then
        stored.1 = Ok tt
        /\ read = Ok (if (Z.of_N dt <? s * 1000)%Z then Some v else None)
      else if (s =? 0)%Z then stored.1 = Ok tt /\ read = Ok (Some v)
      else stored.1 = Throw (Exn ReplyError (lit "ERR invalid expire time in 'setex' command"))
           /\ redis stored.2 = redis w
  | Some NaN | None => stored.1 = Ok tt /\ read = Ok (Some v)
  end.
Proof.
  intros Hans _ stored read. subst stored read.
  pose proof (answered_1 _ _ Hans) as F1. pose proof (answered_2 _ _ Hans) as F2.
  assert (forall e, (set key v ttl w) = (Ok tt, with_redis (<[key := Entry v e]> (redis w))
                                            (with_calls (S (calls w)) w)) ->
            (get key (advance (Z.of_N dt) (set key v ttl w).2)).1
            = Ok (match e with
                  | None => Some v
                  | Some t => if (now w + Z.of_N dt <? t)%Z then Some v else None
                  end)) as Hread.
  { intros e ->. cbn [snd]. unfold get, client_get, external, advance.
    cbn [fault calls with_now with_redis with_calls]. rewrite F2. cbn [fst].
    unfold live. cbn [redis now with_now with_redis with_calls].
    rewrite lookup_insert_eq. by destruct e. }
  assert (client_set key v w = (Ok tt, with_redis (<[key := Entry v None]> (redis w))
                                         (with_calls (S (calls w)) w))) as Hset.
  { unfold client_set, external. by rewrite F1. }
  destruct ttl as [[s|]|]; unfold set in *; cbn [truthy_number] in *.
  - destruct (Z.ltb_spec 0 s) as [Hs|Hs].
    + assert ((s =? 0)%Z = false) as Hz by (apply Z.eqb_neq; lia).
      rewrite Hz in *. cbn [negb] in *.
      assert (client_setEx key (Num s) v w
              = (Ok tt, with_redis (<[key := Entry v (Some (now w + s * 1000)%Z)]> (redis w))
                          (with_calls (S (calls w)) w))) as Hex.
      { unfold client_setEx, external. rewrite F1. cbn [now with_calls].
        by rewrite (proj2 (Z.ltb_lt _ _) Hs). }
      split; [by rewrite Hex|]. rewrite (Hread _ Hex).
      destruct (Z.ltb_spec (Z.of_N dt) (s * 1000));
        [rewrite (proj2 (Z.ltb_lt _ _)) by lia | rewrite (proj2 (Z.ltb_ge _ _)) by lia];
        reflexivity.
    + destruct (Z.eqb_spec s 0) as [->|Hne]; cbn [negb] in *.
      * split; [by rewrite Hset|]. by rewrite (Hread _ Hset).
      * unfold client_setEx, external. rewrite F1.
        rewrite (proj2 (Z.ltb_ge _ _)) by lia. done.
  - split; [by rewrite Hset|]. by rewrite (Hread _ Hset).
  - split; [by rewrite Hset|]. by rewrite (Hread _ Hset).
Qed.

Lemma get_after_set_witness :
  (get (lit "user:ann") (advance 3599999
     (set (lit "user:ann") (lit "{}") (Some (Num 3600)) quiet_world).2)).1
    = Ok (Some (lit "{}"))
  /\ (get (lit "user:ann") (advance 3600000
     (set (lit "user:ann") (lit "{}") (Some (Num 3600)) quiet_world).2)).1
    = Ok None.
Proof.
  assert (answered quiet_world 2) as Hans by (intros i _; reflexivity).
  assert (forall s, Some (Num 3600) = Some (Num s) -> expire_in_range quiet_world s)
    as Hrange.
  { intros s [= <-]. unfold expire_in_range, MAX_SAFE_INTEGER, LLONG_MAX.
    cbn [now quiet_world]. lia. }
  split.
  - exact (proj2 (get_after_set quiet_world (lit "user:ann") (lit "{}")
                    (Some (Num 3600)) 3599999 Hans Hrange)).
  - exact (proj2 (get_after_set quiet_world (lit "user:ann") (lit "{}")
                    (Some (Num 3600)) 3600000 Hans Hrange)).
Defined.

(** X3. [deleteSession] always sends both deletions, whatever happens
    to the first: the record whose deletion is answered is removed even
    when the other deletion fails, and the first failure is the error
    thrown. When both are answered, the token is neither valid nor
    expired afterwards. *)
Theorem deleteSession_sends_both (w : World) (token : jsstring) :
  let r := deleteSession token w in
  calls r.2 = S (S (calls w))
  /\ match fault w (calls w), fault w (S (calls w)) with
     | None, None =>
         r.1 = Ok tt
         /\ redis r.2 = base.delete (metadataKey token)
                          (base.delete (sessionKey token) (redis w))
         /\ (fault w (S (S (calls w))) = None -> fault w (S (S (S (calls w)))) = None ->
             (checkSessionStatus token r.2).1 = Ok (Status false false))
     | Some e, None =>
         r.1 = Throw e /\ redis r.2 = base.delete (metadataKey token) (redis w)
     | None, Some e =>
         r.1 = Throw e /\ redis r.2 = base.delete (sessionKey token) (redis w)
     | Some e, Some _ => r.1 = Throw e /\ redis r.2 = redis w
     end.
Proof.
  intros r. subst r. unfold deleteSession, all2.
  rewrite (delete_run (sessionKey token) w).
  destruct (fault w (calls w)) as [e1|] eqn:F1;
    rewrite delete_run; cbn [fault calls with_calls with_redis];
    destruct (fault w (S (calls w))) as [e2|] eqn:F2; cbn [fst snd calls redis with_calls
      with_redis]; try done.
  split; [done|]. split; [done|]. split; [done|]. intros F3 F4.
  rewrite checkSessionStatus_reads by done. cbn [fst].
  unfold live. cbn [redis with_redis with_calls].
  rewrite lookup_delete_ne by (apply not_eq_sym, sessionKey_neq_metadataKey).
  rewrite !lookup_delete_eq. reflexivity.
Qed.

End KeyValueSpec.

(** ** What no operation changes *)

Module SteadyFacts.
Import JS Sys RedisService Neo4jService MFacts.
Import Spec Samples Notions.

Ltac steady_done := intros ?; cbn; repeat split; lia.

Lemma steady_ret {A} (a : A) : steady (mret a).
Proof. steady_done. Qed.
Lemma steady_throw {A} e : steady (@throw A e).
Proof. steady_done. Qed.
Lemma steady_lift {A} (o : outcome A) : steady (lift o).
Proof. steady_done. Qed.
Lemma steady_logger lv msg data : steady (logger lv msg data).
Proof. steady_done. Qed.
Lemma steady_now : steady Date_now.
Proof. steady_done. Qed.
Lemma steady_iso : steady new_Date_toISOString.
Proof. steady_done. Qed.
Lemma steady_random n : steady (randomBytes n).
Proof. steady_done. Qed.

Lemma steady_step {A B} (m : M A) (f : outcome A -> World -> outcome B * World) :
  steady m -> (forall r, steady (f r)) -> steady (fun w => f (m w).1 (m w).2).
Proof.
  intros Hm Hf w. destruct (Hm w) as (H1 & H2 & H3 & H4 & H5).
  destruct (Hf (m w).1 (m w).2) as (G1 & G2 & G3 & G4 & G5). cbn.
  repeat split; [congruence..|lia|lia].
Qed.

Lemma steady_bind {A B} (m : M A) (k : A -> M B) :
  steady m -> (forall a, steady (k a)) -> steady (m ≫= k).
Proof.
  intros Hm Hk w. unfold mbind, M_bind.
  pose proof (steady_step m (fun r w' => match r with Ok a => k a w' | Throw e => (Throw e, w') end)
                Hm) as H.
  specialize (H ltac:(intros [a|e]; [apply Hk | steady_done]) w). cbn in H.
  by destruct (m w) as [[a|e] w1].
Qed.

Lemma steady_try {A} (m : M A) (h : exn -> M A) :
  steady m -> (forall e, steady (h e)) -> steady (try_catch m h).
Proof.
  intros Hm Hh w. unfold try_catch.
  pose proof (steady_step m (fun r w' => match r with Ok a => (Ok a, w') | Throw e => h e w' end)
                Hm) as H.
  specialize (H ltac:(intros [a|e]; [steady_done | apply Hh]) w). cbn in H.
  by destruct (m w) as [[a|e] w1].
Qed.

Lemma steady_external {A} (op : World -> outcome A * World) :
  steady op -> steady (external op).
Proof.
  intros Hop w. unfold external. destruct (fault w (calls w)).
  - cbn. repeat split; lia.
  - destruct (Hop (with_calls (S (calls w)) w)) as (H1 & H2 & H3 & H4 & H5).
    cbn in *. repeat split; [congruence..|lia|lia].
Qed.

Lemma steady_finally {A} (m : M A) (fin : M unit) :
  steady m -> steady fin -> steady (finally m fin).
Proof.
  intros Hm Hf w. unfold finally.
  destruct (Hm w) as (H1 & H2 & H3 & H4 & H5).
  destruct (m w) as [r w1]. cbn in *.
  destruct (Hf w1) as (G1 & G2 & G3 & G4 & G5).
  destruct (fin w1) as [[[]|e] w2]; cbn in *; repeat split; try congruence; lia.
Qed.

Lemma steady_all2 (a b : M unit) : steady a -> steady b -> steady (all2 a b).
Proof.
  intros Ha Hb w. unfold all2.
  destruct (Ha w) as (H1 & H2 & H3 & H4 & H5).
  destruct (a w) as [ra w1]. cbn in *.
  destruct (Hb w1) as (G1 & G2 & G3 & G4 & G5).
  destruct (b w1) as [rb w2]. cbn in *.
  destruct ra, rb; cbn; repeat split; try congruence; lia.
Qed.

Lemma steady_get key : steady (get key).
Proof. apply steady_external. steady_done. Qed.

Lemma steady_set key v ttl : steady (set key v ttl).
Proof.
  unfold set. destruct ttl as [[s|]|]; cbn [truthy_number];
    repeat match goal with |- context [if ?b then _ else _] => destruct b end;
    apply steady_external; intros w; cbn;
    repeat match goal with |- context [if ?b then _ else _] => destruct b end;
    cbn; repeat split; lia.
Qed.

Lemma steady_delete key : steady (RedisService.delete key).
Proof.
  apply steady_bind; [apply steady_external; steady_done | intros; apply steady_ret].
Qed.

Lemma steady_storeSession token data ttl : steady (storeSession token data ttl).
Proof.
  unfold storeSession.
  apply steady_bind; [apply steady_set|]. intros _.
  apply steady_bind; [apply steady_iso|]. intros createdAt.
  apply steady_bind; [apply steady_now|]. intros t.
  apply steady_bind; [apply steady_lift|]. intros expiresAt.
  apply steady_set.
Qed.

Lemma steady_checkSessionStatus token : steady (checkSessionStatus token).
Proof.
  unfold checkSessionStatus.
  apply steady_bind; [apply steady_get|]. intros s.
  apply steady_bind; [apply steady_get|]. intros m.
  destruct (truthy_nullable s); [apply steady_ret|].
  destruct (truthy_nullable m); apply steady_ret.
Qed.

Lemma steady_deleteSession token : steady (deleteSession token).
Proof. apply steady_all2; apply steady_delete. Qed.

Lemma steady_executeQuery q : steady (executeQuery q).
Proof.
  apply steady_finally.
  - apply steady_external. intros w. destruct q; cbn; repeat split; lia.
  - apply steady_external. steady_done.
Qed.

End SteadyFacts.

(** ** AuthService: every outcome of login and signup *)

Module GraphFacts.
Import JS Sys Messages RedisService Neo4jService TokenUtil AuthService.
Import MFacts RedisFacts AuthFacts StoreFacts SteadyFacts.
Import Spec Samples Notions.

(** What [executeQuery] does, in every run. *)
Lemma executeQuery_run q w :
  executeQuery q w =
    let w1 := with_calls (S (calls w)) w in
    let ran := match fault w (calls w) with
               | Some e => (Throw e, w1)
               | None =>
                   match q with
                   | MatchUserRecord email | MatchUser email =>
                       (Ok (filter (fun u => u_email u = email) (users w)), w1)
                   | CreateUser email hashedPassword =>
                       (Ok [], with_users (users w ++ [UserNode email hashedPassword (now w)]) w1)
                   end
               end in
    (match fault w (S (calls w)) with
     | Some e => Throw e
     | None => ran.1
     end, with_calls (S (S (calls w))) ran.2).
Proof.
  unfold executeQuery, finally, session_run, session_close, external.
  destruct (fault w (calls w)) as [e1|]; cbn [fault calls with_calls].
  - by destruct (fault w (S (calls w))).
  - destruct q; cbn [fault calls with_calls with_users];
      by destruct (fault w (S (calls w))).
Qed.

Lemma set_cases key v ttl w :
  (exists e, (set key v ttl w).1 = Throw e /\ redis (set key v ttl w).2 = redis w)
  \/ ((set key v ttl w).1 = Ok tt
      /\ exists exp, redis (set key v ttl w).2 = <[key := Entry v exp]> (redis w)).
Proof.
  assert (forall op : M unit,
            (op = client_set key v \/ exists s, op = client_setEx key (Num s) v) ->
            (exists e, (op w).1 = Throw e /\ redis (op w).2 = redis w)
            \/ ((op w).1 = Ok tt
                /\ exists exp, redis (op w).2 = <[key := Entry v exp]> (redis w))) as Hop.
  { intros op [->|[s ->]]; unfold client_setEx, client_set, external;
      destruct (fault w (calls w)) as [e|]; try (left; by eexists).
    - right. split; [done|by eexists].
    - destruct (0 <? s)%Z; [right; split; [done|by eexists] | left; by eexists]. }
  unfold set. destruct ttl as [[s|]|]; cbn [truthy_number];
    try (apply Hop; by left).
  destruct (negb (s =? 0)%Z); apply Hop; [right; by eexists | by left].
Qed.

Lemma storeSession_cases token data ttl w :
  (exists e, (storeSession token data ttl w).1 = Throw e)
  \/ ((storeSession token data ttl w).1 = Ok tt
      /\ exists exp, redis (storeSession token data ttl w).2 !! sessionKey token
                     = Some (Entry (JSON_stringify_record data) exp)).
Proof.
  unfold storeSession, mbind, M_bind, new_Date_toISOString, Date_now, lift.
  cbv beta.
  destruct (set_cases (sessionKey token) (JSON_stringify_record data) (Some ttl) w)
    as [(e & H1 & _)|(H1 & exp & H2)];
    destruct (set (sessionKey token) (JSON_stringify_record data) (Some ttl) w)
      as [r w1]; cbn [fst snd] in *; subst r; [left; by eexists|].
  destruct (Date_toISOString _) as [expiresAt|e]; [|left; by eexists].
  match goal with |- context [set ?k ?v ?t w1] =>
    destruct (set_cases k v t w1) as [(e & G1 & _)|(G1 & exp2 & G2)];
    destruct (set k v t w1) as [r w2] end; cbn [fst snd] in *; subst r;
    [left; by eexists|].
  right. split; [done|]. exists exp. rewrite G2, H2.
  rewrite lookup_insert_ne by (apply not_eq_sym, sessionKey_neq_metadataKey).
  by rewrite lookup_insert_eq.
Qed.

Section Issue.
Variable app_jwtExpiration : option jsstring.

Lemma issue_session_cases mail okMessage w :
  let r := issue_session app_jwtExpiration mail okMessage w in
  now r.2 = now w
  /\ ((exists e, r.1 = Throw e)
      \/ (r.1 = Ok (LoginResponse true (Some (fresh_token w)) okMessage None (now w))
          /\ exists exp, redis r.2 !! sessionKey (fresh_token w)
               = Some (Entry (JSON_stringify_record
                                [(lit "email", VStr mail);
                                 (lit "timestamp", VStr (iso_string (now w)))]) exp))).
Proof.
  intros r. subst r. unfold issue_session.
  erewrite bind_ok; [|apply generateSessionToken_eq].
  erewrite bind_ok; [|reflexivity].
  cbn [now with_drawn].
  set (w1 := with_drawn (drawn w + 32) w).
  set (data := [(lit "email", VStr mail); (lit "timestamp", VStr (iso_string (now w)))]).
  destruct (steady_storeSession (fresh_token w) data (sessionTtl app_jwtExpiration) w1)
    as (N1 & _).
  destruct (storeSession_cases (fresh_token w) data (sessionTtl app_jwtExpiration) w1)
    as [(e & H1)|(H1 & exp & H2)];
    destruct (storeSession (fresh_token w) data (sessionTtl app_jwtExpiration) w1)
      as [res w2] eqn:Hs; cbn [fst snd] in *; subst res.
  - erewrite bind_throw; [|exact Hs]. split; [exact N1|]. left. by eexists.
  - erewrite bind_ok; [|exact Hs].
    unfold mbind, M_bind, logger, Date_now. cbn [fst snd now with_log].
    split; [exact N1|]. right. split; [by rewrite N1 | by exists exp].
Qed.

End Issue.

End GraphFacts.

Module LoginTotalSpec.
Import JS Sys Messages RedisService Neo4jService TokenUtil AuthService.
Import MFacts RedisFacts AuthFacts StoreFacts SteadyFacts GraphFacts.
Import Spec Samples Notions.

Ltac answer_error c :=
  eexists; eexists; split; [reflexivity|]; split;
  [ right; exists c; split; [set_solver | reflexivity]
  | intros _ _ Hf;
    first [ reflexivity
          | exfalso; destruct Hf as [[? ?]|[? ?]]; congruence ] ].

Lemma login_cases
    (bcrypt_compare : jsstring -> jsstring -> outcome bool)
    (app_jwtExpiration : option jsstring)
    (cr : LoginRequestDto) (w : World) :
  exists (resp : LoginResponseDto) (w' : World),
    login bcrypt_compare app_jwtExpiration cr w = (Ok resp, w')
    /\ ((resp = LoginResponse true (Some (fresh_token w)) LOGIN_SUCCESSFUL None (now w)
         /\ exists exp,
              redis w' !! sessionKey (fresh_token w)
              = Some (Entry (JSON_stringify_record
                               [(lit "email", VStr (email cr));
                                (lit "timestamp", VStr (iso_string (now w)))]) exp))
        \/ (exists c, c ∈ [MISSING_INFORMATION; EMAIL_NOT_FOUND; INCORRECT_PASSWORD;
                            DATABASE_ERROR]
                      /\ resp = error_response c (now w)))
    /\ (email cr <> [] -> password cr <> [] ->
        is_Some (fault w (calls w)) \/ is_Some (fault w (S (calls w))) ->
        resp = error_response DATABASE_ERROR (now w)).
Proof.
  destruct (decide (email cr = [] \/ password cr = [])) as [Hmiss|Hfull].
  { unfold login.
    assert (negb (truthy_string (email cr)) || negb (truthy_string (password cr)) = true)
      as ->.
    { destruct Hmiss as [-> | ->]; [done | apply orb_true_r]. }
    eexists. eexists. split; [reflexivity|]. split.
    - right. exists MISSING_INFORMATION. split; [set_solver | done].
    - intros He Hp. tauto. }
  assert (email cr <> [] /\ password cr <> []) as [He Hp].
  { split; intros H; apply Hfull; [by left | by right]. }
  unfold login.
  rewrite (truthy_nonempty _ He), (truthy_nonempty _ Hp). cbn [negb orb].
  unfold try_catch. unfold mbind at 1, M_bind at 1.
  rewrite executeQuery_run. cbv zeta. cbn [fst snd].
  destruct (fault w (calls w)) as [e1|] eqn:F1; cbn [fst snd];
    destruct (fault w (S (calls w))) as [e2|] eqn:F2; try answer_error DATABASE_ERROR.
  destruct (filter _ (users w)) as [|user others]; [answer_error EMAIL_NOT_FOUND|].
  unfold mbind at 1, M_bind at 1, lift.
  destruct (bcrypt_compare (password cr) (u_hashedPassword user)) as [[|]|e]; cbn [negb];
    [|answer_error INCORRECT_PASSWORD|answer_error DATABASE_ERROR].
  set (w2 := with_calls _ _).
  destruct (issue_session_cases app_jwtExpiration (email cr) LOGIN_SUCCESSFUL w2)
    as (N & [(e & H)|(H & exp & Hrec)]);
    destruct (issue_session app_jwtExpiration (email cr) LOGIN_SUCCESSFUL w2)
      as [res w3]; cbn [fst snd] in *; subst res.
  - eexists. eexists. split; [reflexivity|]. split.
    + right. exists DATABASE_ERROR. split; [set_solver|].
      unfold error_response. f_equal. exact N.
    + intros _ _ _. unfold error_response. f_equal. exact N.
  - eexists. eexists. split; [reflexivity|]. split.
    + left. split; [reflexivity|]. by exists exp.
    + intros _ _ [[? ?]|[? ?]]; done.
Qed.

(** X5. [login] never throws, in any state of the world and whatever
    bcrypt does: it answers either the success response, carrying the
    token just generated, whose session record is then in Redis, or one
    of four error responses (missing information, email not found,
    incorrect password, database error) with no token. With credentials
    given, a failure of the Neo4j query or of closing its session is
    answered with the database error. *)
Theorem login_always_answers
    (bcrypt_compare : jsstring -> jsstring -> outcome bool)
    (app_jwtExpiration : option jsstring)
    (cr : LoginRequestDto) (w : World) :
  let r := login bcrypt_compare app_jwtExpiration cr w in
  exists resp : LoginResponseDto,
    r.1 = Ok resp
    /\ ((resp = LoginResponse true (Some (fresh_token w)) LOGIN_SUCCESSFUL None (now w)
         /\ exists exp,
              redis r.2 !! sessionKey (fresh_token w)
              = Some (Entry (JSON_stringify_record
                               [(lit "email", VStr (email cr));
                                (lit "timestamp", VStr (iso_string (now w)))]) exp))
        \/ (exists c, c ∈ [MISSING_INFORMATION; EMAIL_NOT_FOUND; INCORRECT_PASSWORD;
                            DATABASE_ERROR]
                      /\ resp = error_response c (now w)))
    /\ (email cr <> [] -> password cr <> [] ->
        is_Some (fault w (calls w)) \/ is_Some (fault w (S (calls w))) ->
        resp = error_response DATABASE_ERROR (now w)).
Proof.
  intros r. subst r.
  destruct (login_cases bcrypt_compare app_jwtExpiration cr w) as (resp & w' & -> & H).
  by exists resp.
Qed.

End LoginTotalSpec.

Module SignupFacts.
Import JS Sys Messages RedisService Neo4jService TokenUtil AuthService.
Import MFacts RedisFacts AuthFacts StoreFacts SteadyFacts GraphFacts.
Import Spec Samples Notions.

Lemma set_fault key v ttl w e :
  fault w (calls w) = Some e ->
  set key v ttl w = (Throw e, with_calls (S (calls w)) w).
Proof.
  intros F. unfold set.
  destruct ttl as [[s|]|]; cbn [truthy_number];
    repeat match goal with |- context [if ?b then _ else _] => destruct b end;
    unfold client_setEx, client_set, external; by rewrite F.
Qed.

Section Signup.
Variable bcrypt_hash : jsstring -> N -> list byte -> outcome jsstring.
Variable bcryptRounds : N.
Variable app_jwtExpiration : option jsstring.

Local Abbreviation signup := (signup bcrypt_hash bcryptRounds app_jwtExpiration).

(** Up to the creation of the user: the remainder runs in a world that
    differs by the new node, sixteen bytes of salt and four calls. *)
Lemma signup_created data w h :
  s_email data <> [] -> encryptedPassword data <> [] ->
  answered w 4 ->
  filter (fun u => u_email u = s_email data) (users w) = [] ->
  bcrypt_hash (encryptedPassword data) bcryptRounds (entropy_at w 0 16) = Ok h ->
  exists w4,
    signup data w
      = try_catch (issue_session app_jwtExpiration (s_email data) SIGNUP_SUCCESSFUL)
          (fun error =>
             _ ← logger ERROR LOGIN_ERROR [(lit "error", exn_message error)];
             createErrorResponse DATABASE_ERROR false) w4
    /\ users w4 = users w ++ [UserNode (s_email data) h (now w)]
    /\ redis w4 = redis w /\ now w4 = now w /\ fault w4 = fault w
    /\ entropy w4 = entropy w /\ drawn w4 = (drawn w + 16)%nat
    /\ calls w4 = S (S (S (S (calls w)))).
Proof.
  intros He Hp Hans Hnew Hhash.
  pose proof (answered_1 _ _ Hans) as F1. pose proof (answered_2 _ _ Hans) as F2.
  pose proof (answered_3 _ _ Hans) as F3. pose proof (answered_4 _ _ Hans) as F4.
  unfold AuthService.signup.
  rewrite (truthy_nonempty _ He), (truthy_nonempty _ Hp). cbn [negb orb].
  unfold try_catch. unfold mbind at 1, M_bind at 1.
  rewrite executeQuery_run. cbv zeta. rewrite F1, F2, Hnew. cbn [fst snd].
  unfold mbind at 1, M_bind at 1.
  unfold BcryptService_hash at 1. unfold mbind at 1, M_bind at 1, randomBytes, lift.
  cbn [entropy drawn with_calls].
  unfold entropy_at in Hhash. rewrite Nat.add_0_r in Hhash. rewrite Hhash.
  unfold mbind at 1, M_bind at 1.
  rewrite executeQuery_run. cbv zeta. cbn [fault calls with_calls with_drawn].
  rewrite F3, F4. cbn [fst snd].
  eexists. split; [reflexivity|]. repeat split.
Qed.

End Signup.

End SignupFacts.

Module SignupSpec.
Import JS Sys Messages RedisService Neo4jService TokenUtil AuthService.
Import MFacts RedisFacts AuthFacts StoreFacts SteadyFacts GraphFacts SignupFacts.
Import Spec Samples Notions Scenarios.

Lemma issue_session_world cfg mail okMessage w ttl :
  sessionTtl cfg = Num ttl ->
  (0 < ttl)%Z -> (Z.abs (now w + ttl * 1000) <= 8640000000000000)%Z ->
  fault w (calls w) = None -> fault w (S (calls w)) = None ->
  exists w',
    issue_session cfg mail okMessage w
      = (Ok (LoginResponse true (Some (fresh_token w)) okMessage None (now w)), w')
    /\ users w' = users w /\ now w' = now w /\ fault w' = fault w
    /\ entropy w' = entropy w /\ drawn w' = (drawn w + 32)%nat
    /\ calls w' = S (S (calls w)).
Proof.
  intros Httl Hpos Hdate F1 F2. unfold issue_session.
  erewrite bind_ok; [|apply generateSessionToken_eq].
  erewrite bind_ok; [|reflexivity].
  rewrite Httl.
  erewrite bind_ok; [|by apply storeSession_answered].
  erewrite bind_ok; [|reflexivity].
  erewrite bind_ok; [|reflexivity].
  eexists. split; [reflexivity|]. repeat split.
Qed.

(** X6. Signing up and then logging in. With every call answered, a
    new email and a bcrypt whose [compare] accepts what its [hash]
    produced: [signup] answers success with a token made of the 32 bytes
    drawn after the 16 bytes of salt, and has created the user; a
    [login] with the same email and password then succeeds with the next
    32 bytes as its token; and a second [signup] with that email is
    answered "email already exists". *)
Theorem signup_then_login
    (bcrypt_compare : jsstring -> jsstring -> outcome bool)
    (bcrypt_hash : jsstring -> N -> list byte -> outcome jsstring)
    (bcryptRounds : N) (app_jwtExpiration : option jsstring)
    (data : SignupRequestDto) (w : World) (h : jsstring) (ttl : Z) :
  reliable w ->
  s_email data <> [] -> encryptedPassword data <> [] ->
  filter (fun u => u_email u = s_email data) (users w) = [] ->
  bcrypt_hash (encryptedPassword data) bcryptRounds (entropy_at w 0 16) = Ok h ->
  bcrypt_compare (encryptedPassword data) h = Ok true ->
  configured_expiration app_jwtExpiration ttl ->
  (Z.abs (now w + ttl * 1000) <= 8640000000000000)%Z ->
  let r1 := signup bcrypt_hash bcryptRounds app_jwtExpiration data w in
  r1.1 = Ok (LoginResponse true (Some (toString_hex (entropy_at w 16 32)))
               SIGNUP_SUCCESSFUL None (now w))
  /\ users r1.2 = users w ++ [UserNode (s_email data) h (now w)]
  /\ (login bcrypt_compare app_jwtExpiration
        (LoginRequest (s_email data) (encryptedPassword data)) r1.2).1
     = Ok (LoginResponse true (Some (toString_hex (entropy_at w 48 32)))
             LOGIN_SUCCESSFUL None (now w))
  /\ (signup bcrypt_hash bcryptRounds app_jwtExpiration data r1.2).1
     = Ok (error_response EMAIL_ALREADY_EXISTS (now w)).
Proof.
  intros Hrel He Hp Hnew Hhash Hcmp Hcfg Hdate r1. subst r1.
  apply configured_sessionTtl in Hcfg as [Httl Hpos].
  destruct (signup_created bcrypt_hash bcryptRounds app_jwtExpiration data w h
              He Hp (reliable_answered _ _ Hrel) Hnew Hhash)
    as (w4 & -> & U4 & R4 & N4 & F4 & E4 & D4 & C4).
  destruct (issue_session_world app_jwtExpiration (s_email data) SIGNUP_SUCCESSFUL w4 ttl
              Httl Hpos ltac:(by rewrite N4) ltac:(rewrite F4; apply Hrel)
              ltac:(rewrite F4; apply Hrel))
    as (w5 & Hissue & U5 & N5 & F5 & E5 & D5 & C5).
  erewrite try_ok; [|exact Hissue]. cbn [fst snd].
  assert (filter (fun u => u_email u = s_email data) (users w5)
          = [UserNode (s_email data) h (now w)]) as Hfound.
  { rewrite U5, U4, filter_app, Hnew. cbn [app].
    rewrite filter_cons_True by done. reflexivity. }
  split; [|split; [by rewrite U5|split]].
  - unfold fresh_token, entropy_at. rewrite N4, E4, D4. reflexivity.
  - destruct (login_success bcrypt_compare app_jwtExpiration
                (LoginRequest (s_email data) (encryptedPassword data)) w5
                (UserNode (s_email data) h (now w)) [] ttl) as (H1 & _);
      try (rewrite F5, F4; apply Hrel); try (by apply truthy_nonempty); try done.
    { by rewrite N5, N4. }
    rewrite H1. unfold fresh_token, entropy_at. rewrite N5, N4, E5, E4, D5, D4.
    replace (drawn w + 16 + 32)%nat with (drawn w + 48)%nat by lia. reflexivity.
  - destruct (signup_exists bcrypt_hash bcryptRounds app_jwtExpiration data w5
                (UserNode (s_email data) h (now w)) []) as (H1 & _);
      try (rewrite F5, F4; apply Hrel); try (by apply truthy_nonempty); try done.
    rewrite H1. by rewrite N5, N4.
Qed.

Lemma signup_then_login_witness :
  (signup toy_hash 10 None (SignupRequest (lit "new@x.com") (lit "secret")) quiet_world).1
    = Ok (LoginResponse true (Some (toString_hex (entropy_at quiet_world 16 32)))
            SIGNUP_SUCCESSFUL None 1771272000000)
  /\ (login toy_compare None (LoginRequest (lit "new@x.com") (lit "secret"))
        (signup toy_hash 10 None (SignupRequest (lit "new@x.com") (lit "secret"))
           quiet_world).2).1
     = Ok (LoginResponse true (Some (toString_hex (entropy_at quiet_world 48 32)))
             LOGIN_SUCCESSFUL None 1771272000000).
Proof.
  pose proof (signup_then_login toy_compare toy_hash 10 None
                (SignupRequest (lit "new@x.com") (lit "secret")) quiet_world
                (lit "$2b$10$secret") 86400) as H.
  cbv zeta in H.
  destruct H as (H1 & _ & H3 & _);
    [intros n; reflexivity | done | done | reflexivity | reflexivity | reflexivity
    | constructor | vm_compute; discriminate | ].
  split; [exact H1 | exact H3].
Defined.

(** X7. [signup] is not atomic. When the user has been created in Neo4j
    and the first write of the session to Redis fails, the answer is the
    database error, nothing is in Redis, and the user stays created: a
    [signup] retried with the same email (the graph answering) is
    answered "email already exists". *)
Theorem signup_is_not_atomic
    (bcrypt_hash : jsstring -> N -> list byte -> outcome jsstring)
    (bcryptRounds : N) (app_jwtExpiration : option jsstring)
    (data : SignupRequestDto) (w : World) (h : jsstring) (e : exn) :
  s_email data <> [] -> encryptedPassword data <> [] ->
  filter (fun u => u_email u = s_email data) (users w) = [] ->
  bcrypt_hash (encryptedPassword data) bcryptRounds (entropy_at w 0 16) = Ok h ->
  answered w 4 ->
  fault w (calls w + 4) = Some e ->
  let r := signup bcrypt_hash bcryptRounds app_jwtExpiration data w in
  r.1 = Ok (error_response DATABASE_ERROR (now w))
  /\ users r.2 = users w ++ [UserNode (s_email data) h (now w)]
  /\ redis r.2 = redis w
  /\ (fault w (calls w + 5) = None -> fault w (calls w + 6) = None ->
      (signup bcrypt_hash bcryptRounds app_jwtExpiration data r.2).1
      = Ok (error_response EMAIL_ALREADY_EXISTS (now w))).
Proof.
  intros He Hp Hnew Hhash Hans Hfail r. subst r.
  destruct (signup_created bcrypt_hash bcryptRounds app_jwtExpiration data w h
              He Hp Hans Hnew Hhash)
    as (w4 & -> & U4 & R4 & N4 & F4 & E4 & D4 & C4).
  assert (exists w5,
            issue_session app_jwtExpiration (s_email data) SIGNUP_SUCCESSFUL w4
              = (Throw e, w5)
            /\ users w5 = users w4 /\ redis w5 = redis w4 /\ now w5 = now w4
            /\ fault w5 = fault w4 /\ calls w5 = S (calls w4))
    as (w5 & Hissue & U5 & R5 & N5 & F5 & C5).
  { unfold issue_session.
    erewrite bind_ok; [|apply generateSessionToken_eq].
    erewrite bind_ok; [|reflexivity].
    eexists. split.
    - erewrite bind_throw; [reflexivity|].
      unfold storeSession. erewrite bind_throw; [reflexivity|].
      apply set_fault. cbn [fault calls with_drawn]. rewrite F4, C4, <- Hfail.
      f_equal. lia.
    - repeat split. }
  erewrite try_throw; [|exact Hissue].
  cbv [mbind M_bind logger createErrorResponse Date_now mret M_ret].
  cbn [fst snd now users redis with_log].
  rewrite N5, N4, U5, R5. split; [done|]. split; [done|]. split; [done|].
  intros G5 G6.
  set (w6 := with_log _ _).
  destruct (signup_exists bcrypt_hash bcryptRounds app_jwtExpiration data w6
              (UserNode (s_email data) h (now w)) []) as (H1 & _);
    try (by apply truthy_nonempty).
  - subst w6. cbn [fault calls with_log]. rewrite F5, F4, C5, C4, <- G5.
    f_equal. lia.
  - subst w6. cbn [fault calls with_log]. rewrite F5, F4, C5, C4, <- G6.
    f_equal. lia.
  - subst w6. cbn [users with_log].
    rewrite U5, U4, filter_app, Hnew. cbn [app]. by rewrite filter_cons_True.
  - rewrite H1. subst w6. cbn [now with_log]. by rewrite N5, N4.
Qed.

Lemma signup_is_not_atomic_witness :
  (signup toy_hash 10 None (SignupRequest (lit "new@x.com") (lit "secret"))
     redis_down_world).1
    = Ok (error_response DATABASE_ERROR 1771272000000)
  /\ users (signup toy_hash 10 None (SignupRequest (lit "new@x.com") (lit "secret"))
              redis_down_world).2
     = [UserNode (lit "new@x.com") (lit "$2b$10$secret") 1771272000000].
Proof.
  pose proof (signup_is_not_atomic toy_hash 10 None
                (SignupRequest (lit "new@x.com") (lit "secret")) redis_down_world
                (lit "$2b$10$secret") (Exn Error (lit "Connection is closed."))) as H.
  cbv zeta in H.
  destruct H as (H1 & H2 & _); [done | done | reflexivity | reflexivity | | reflexivity | ].
  - intros i Hi. destruct i as [|[|[|[|i]]]]; [reflexivity..|lia].
  - split; [exact H1 | exact H2].
Defined.

End SignupSpec.

(** ** Logout, the verify endpoint and the session's user *)

Module LogoutSpec.
Import JS Sys Messages RedisService Neo4jService TokenUtil AuthService.
Import MFacts RedisFacts AuthFacts StoreFacts SteadyFacts GraphFacts.
Import Spec Samples Notions.

Lemma deleteSession_run token w :
  deleteSession token w =
    (match fault w (calls w), fault w (S (calls w)) with
     | Some e, _ => Throw e
     | None, Some e => Throw e
     | None, None => Ok tt
     end,
     with_calls (S (S (calls w)))
       (with_redis
          (let r1 := match fault w (calls w) with
                     | Some _ => redis w
                     | None => base.delete (sessionKey token) (redis w)
                     end in
           match fault w (S (calls w)) with
           | Some _ => r1
           | None => base.delete (metadataKey token) r1
           end) w)).
Proof.
  unfold deleteSession, all2.
  rewrite (delete_run (sessionKey token) w).
  destruct (fault w (calls w)) as [e1|] eqn:F1;
    rewrite delete_run; cbn [fault calls with_calls with_redis];
    destruct (fault w (S (calls w))) as [e2|] eqn:F2; try reflexivity.
  all: by destruct w.
Qed.

Lemma logout_run token w :
  logout token w =
    (Ok tt,
     with_log
       (log (deleteSession token w).2
        ++ [match (deleteSession token w).1 with
            | Ok _ => LogLine INFO USER_LOGGED_OUT
                        [(lit "sessionToken", take 8 token ++ lit "...")]
            | Throw e => LogLine ERROR LOGOUT_ERROR [(lit "error", exn_message e)]
            end])
       (deleteSession token w).2).
Proof.
  unfold logout, try_catch, mbind, M_bind, logger.
  by destruct (deleteSession token w) as [[[]|e] w1].
Qed.

(** X8. [logout] invalidates. When the two deletions and the two reads
    that follow are answered, [logout] returns and [verifySession] of
    the same token says SESSION_INVALID (not expired), whatever the
    session was before. *)
Theorem logout_invalidates (w : World) (token : jsstring) :
  answered w 4 ->
  (logout token w).1 = Ok tt
  /\ (verifySession token (logout token w).2).1
     = Ok (Verification false false (Some SESSION_INVALID)).
Proof.
  intros Hans.
  pose proof (answered_1 _ _ Hans) as F1. pose proof (answered_2 _ _ Hans) as F2.
  pose proof (answered_3 _ _ Hans) as F3. pose proof (answered_4 _ _ Hans) as F4.
  rewrite logout_run, deleteSession_run, F1, F2. cbv zeta. cbn [fst snd].
  split; [done|].
  unfold verifySession, try_catch. unfold mbind at 1, M_bind at 1.
  rewrite checkSessionStatus_reads by done. cbn [fst snd].
  unfold live. cbn [redis with_redis with_calls with_log].
  rewrite lookup_delete_ne by (apply not_eq_sym, sessionKey_neq_metadataKey).
  rewrite !lookup_delete_eq. reflexivity.
Qed.

Lemma logout_invalidates_witness :
  (verifySession token_b (run sample_history quiet_world)).1
    = Ok (Verification true false None)
  /\ (verifySession token_b (logout token_b (run sample_history quiet_world)).2).1
     = Ok (Verification false false (Some SESSION_INVALID)).
Proof.
  split; [reflexivity|].
  apply (logout_invalidates (run sample_history quiet_world) token_b).
  intros i _. reflexivity.
Defined.

(** X9. The logout endpoint always answers "Logged out successfully",
    in every state of the world. When the deletion of the session record
    fails, the record is still in Redis as it was, and the failure is
    only logged (the last log line is the LOGOUT_ERROR error). *)
Theorem logout_hides_failures (w : World) (token : jsstring) :
  let r := LoginController.logout token w in
  r.1 = Ok (LoginController.mkLogoutResponse AUTH_MESSAGES.LOGOUT_SUCCESSFUL (now w))
  /\ (is_Some (fault w (calls w)) ->
      redis r.2 !! sessionKey token = redis w !! sessionKey token
      /\ exists line, last (log r.2) = Some line /\ l_level line = ERROR
                      /\ l_message line = LOGOUT_ERROR).
Proof.
  intros r. subst r.
  unfold LoginController.logout, mbind, M_bind, Date_now, mret, M_ret.
  rewrite logout_run, deleteSession_run. cbv zeta. cbn [fst snd now with_log with_calls
    with_redis redis log].
  split; [reflexivity|]. intros [e He]. rewrite He.
  destruct (fault w (S (calls w))) as [e2|] eqn:F2.
  - split; [done|]. eexists. rewrite last_snoc. done.
  - split.
    + rewrite lookup_delete_ne by (apply not_eq_sym, sessionKey_neq_metadataKey). done.
    + eexists. rewrite last_snoc. done.
Qed.

End LogoutSpec.

Module VerifyEndpointSpec.
Import JS Sys Messages RedisService Neo4jService TokenUtil AuthService AuthSession.
Import MFacts RedisFacts AuthFacts StoreFacts SteadyFacts GraphFacts.
Import Spec Samples Notions Scenarios.

Lemma checkSessionStatus_run token w :
  checkSessionStatus token w =
    (match fault w (calls w), fault w (S (calls w)) with
     | Some e, _ => Throw e
     | None, Some e => Throw e
     | None, None =>
         Ok (if truthy_nullable (live w (sessionKey token)) then Status true false
             else if truthy_nullable (live w (metadataKey token)) then Status false true
             else Status false false)
     end,
     with_calls (match fault w (calls w) with
                 | Some _ => S (calls w)
                 | None => S (S (calls w))
                 end) w).
Proof.
  destruct (fault w (calls w)) as [e1|] eqn:F1.
  { unfold checkSessionStatus, get, client_get, mbind, M_bind, external. by rewrite F1. }
  destruct (fault w (S (calls w))) as [e2|] eqn:F2.
  { unfold checkSessionStatus, get, client_get, mbind, M_bind, external.
    rewrite F1. cbn [fault calls with_calls]. rewrite F2. by destruct w. }
  by rewrite checkSessionStatus_reads.
Qed.

(** X4. [checkSessionStatus] reads both records before it decides: when
    the read of the primary record is answered and the read of the
    metadata fails, it throws that failure, even if the primary record
    is there, and [verifySession] answers DATABASE_ERROR. *)
Theorem checkSessionStatus_needs_both_reads (w : World) (token : jsstring) (e : exn) :
  fault w (calls w) = None -> fault w (S (calls w)) = Some e ->
  (checkSessionStatus token w).1 = Throw e
  /\ (verifySession token w).1 = Ok (Verification false false (Some DATABASE_ERROR)).
Proof.
  intros F1 F2. unfold verifySession, try_catch. unfold mbind at 1, M_bind at 1.
  rewrite checkSessionStatus_run, F1, F2. done.
Qed.

Lemma checkSessionStatus_needs_both_reads_witness :
  present flaky_read_world (sessionKey token_a) = true
  /\ (verifySession token_a flaky_read_world).1
     = Ok (Verification false false (Some DATABASE_ERROR)).
Proof.
  split; [vm_compute; reflexivity|].
  exact (proj2 (checkSessionStatus_needs_both_reads flaky_read_world token_a
                  (Exn Error (lit "Socket closed unexpectedly")) eq_refl eq_refl)).
Defined.

(** X11. The verify endpoint never throws, and its answer is fixed by
    the check of the store: valid gives "Session is valid" with no code
    and no reason; expired gives the expired message with code
    SESSION_EXPIRED and reason EXPIRED; neither gives the invalid message
    with code SESSION_INVALID and reason INVALID; and a failing store
    gives the invalid message and reason INVALID with code
    DATABASE_ERROR. *)
Theorem verify_endpoint (w : World) (token : jsstring) :
  (LoginController.verifySession token w).1 =
    Ok (match (checkSessionStatus token w).1 with
        | Ok st =>
            if valid st then
              LoginController.VerificationResponse true AUTH_MESSAGES.SESSION_VALID
                None None (now w)
            else if expired st then
              LoginController.VerificationResponse false AUTH_MESSAGES.SESSION_EXPIRED
                (Some SESSION_EXPIRED) (Some LoginController.EXPIRED) (now w)
            else
              LoginController.VerificationResponse false AUTH_MESSAGES.SESSION_INVALID
                (Some SESSION_INVALID) (Some LoginController.INVALID) (now w)
        | Throw _ =>
            LoginController.VerificationResponse false AUTH_MESSAGES.SESSION_INVALID
              (Some DATABASE_ERROR) (Some LoginController.INVALID) (now w)
        end).
Proof.
  unfold LoginController.verifySession. unfold mbind at 1, M_bind at 1.
  unfold verifySession, try_catch. unfold mbind at 1, M_bind at 1.
  rewrite checkSessionStatus_run. cbn [fst snd].
  destruct (fault w (calls w)) as [e1|]; [reflexivity|].
  destruct (fault w (S (calls w))) as [e2|]; [reflexivity|].
  destruct (truthy_nullable (live w (sessionKey token))); [reflexivity|].
  destruct (truthy_nullable (live w (metadataKey token))); reflexivity.
Qed.

Ltac ran H :=
  cbv [mbind M_bind logger mret M_ret lift Date_now throw] in H; simplify_eq.

Lemma get_run key w :
  RedisService.get key w =
    match fault w (calls w) with
    | Some e => (Throw e, with_calls (S (calls w)) w)
    | None => (Ok (live w key), with_calls (S (calls w)) w)
    end.
Proof.
  unfold RedisService.get, client_get, external. by destruct (fault w (calls w)).
Qed.

(** X10. [getUserFromSession] never throws and leaves Redis as it is.
    It returns something other than [null] only when the read was
    answered, the session record of the token is there, not expired and
    not empty, and [JSON.parse] of the record returned that value. *)
Theorem getUserFromSession_safe
    (JSON_parse : jsstring -> outcome value) (w : World) (token : jsstring) :
  let r := getUserFromSession JSON_parse token w in
  redis r.2 = redis w
  /\ exists user : value,
       r.1 = Ok user
       /\ (user <> VNull ->
           fault w (calls w) = None
           /\ exists session, live w (sessionKey token) = Some session
                              /\ session <> [] /\ JSON_parse session = Ok user).
Proof.
  intros r. subst r.
  destruct (getUserFromSession JSON_parse token w) as [res w'] eqn:Hrun. cbn [fst snd].
  unfold getUserFromSession, try_catch in Hrun. unfold mbind at 1, M_bind at 1 in Hrun.
  rewrite get_run in Hrun.
  destruct (fault w (calls w)) as [e|] eqn:F1.
  { ran Hrun. split; [done|]. exists VNull. done. }
  destruct (live w (sessionKey token)) as [[|c s]|] eqn:Hl; cbn [truthy_nullable
    truthy_string negb from_option id] in Hrun.
  - ran Hrun. split; [done|]. exists VNull. done.
  - unfold lift in Hrun. destruct (JSON_parse (c :: s)) as [v|e] eqn:Hp; ran Hrun.
    + split; [done|]. exists v. split; [done|]. intros _. split; [done|].
      by exists (c :: s).
    + split; [done|]. exists VNull. done.
  - ran Hrun. split; [done|]. exists VNull. done.
Qed.

End VerifyEndpointSpec.

(** ** The configured expiration *)

Module ExpirationSpec.
Import JS Sys Messages RedisService Neo4jService TokenUtil AuthService.
Import MFacts ParseIntFacts RedisFacts AuthFacts StoreFacts SteadyFacts GraphFacts SignupFacts.
Import Spec Samples Notions.

Lemma digit_value_other c : ~ is_digit c -> digit_value 10 c = None.
Proof.
  unfold is_digit, digit_value, hex_value. intros H.
  destruct (N.leb_spec 48 c), (N.leb_spec c 57); cbn [andb]; try lia;
    destruct (N.leb_spec 97 c), (N.leb_spec c 102); cbn [andb]; try done;
    try (destruct (N.ltb_spec (c - 87) 10); [lia | done]);
    destruct (N.leb_spec 65 c), (N.leb_spec c 70); cbn [andb]; try done;
    try (destruct (N.ltb_spec (c - 55) 10); [lia | done]).
Qed.

Lemma digits_prefix d c rest : Forall is_digit d -> ~ is_digit c -> forall acc,
  digits 10 (d ++ c :: rest) (Some acc)
    = Some (fold_left (fun a x => a * 10 + (x - 48)) d acc).
Proof.
  intros Hd Hc. induction Hd as [|x d Hx Hd IH]; intros acc; cbn [app digits fold_left].
  - by rewrite (digit_value_other c Hc).
  - rewrite (digit_value_digit x Hx). apply IH.
Qed.

(** X13. A configured expiration that is a number followed by a unit
    (digits, then a character that is not a digit, nor the x of a hex
    prefix) is read by [parseInt] as the number alone, while that
    number is a safe integer (at most 2^53 - 1, where [parseInt] is
    exact): the session TTL is that many seconds, "24h" is 24
    seconds. *)
Theorem expiration_unit_is_ignored (d rest : jsstring) (c : N) :
  d <> [] -> Forall is_digit d ->
  decimal_value d <= MAX_SAFE_INTEGER ->
  ~ is_digit c -> c <> 120 -> c <> 88 ->
  sessionTtl (Some (d ++ c :: rest)) = Num (Z.of_N (decimal_value d)).
Proof.
  intros Hne Hd _ Hc Hx HX. destruct Hd as [|x d Hx' Hd]; [done|].
  unfold sessionTtl. cbn [or_string app truthy_string]. unfold parseInt.
  cbn [trim_start]. rewrite (digit_not_whitespace x Hx').
  unfold strip_sign. destruct (digit_not_sign x Hx') as [-> ->].
  assert (strip_radix (x :: d ++ c :: rest) = (10, x :: d ++ c :: rest)) as ->.
  { unfold strip_radix. destruct Hd as [|y d Hy _]; cbn [app].
    - rewrite (proj2 (N.eqb_neq c 120) Hx), (proj2 (N.eqb_neq c 88) HX).
      by rewrite andb_false_r.
    - rewrite (digit_not_x y Hy). by rewrite andb_false_r. }
  cbn [digits]. rewrite (digit_value_digit x Hx').
  rewrite (digits_prefix d c rest Hd Hc). reflexivity.
Qed.

Lemma expiration_unit_is_ignored_witness :
  sessionTtl (Some (lit "24h")) = Num 24.
Proof.
  apply (expiration_unit_is_ignored (lit "24") [] 104); [done | | | | done | done].
  - repeat constructor; unfold is_digit; simpl; lia.
  - vm_compute. discriminate.
  - unfold is_digit. lia.
Defined.

(** X12. A configured expiration with no leading number makes the TTL
    NaN. A login with correct credentials (the graph and the first write
    answered) is then answered with the database error, and the session
    record is left in Redis without any expiry: the [if (ttl)] of [set]
    takes the branch without TTL, and the expiry date of the metadata
    cannot be formatted. *)
Theorem expiration_without_number
    (bcrypt_compare : jsstring -> jsstring -> outcome bool)
    (app_jwtExpiration : option jsstring)
    (cr : LoginRequestDto) (w : World) (user : user_node) (others : list user_node) :
  sessionTtl app_jwtExpiration = NaN ->
  email cr <> [] -> password cr <> [] ->
  answered w 3 ->
  filter (fun u => u_email u = email cr) (users w) = user :: others ->
  bcrypt_compare (password cr) (u_hashedPassword user) = Ok true ->
  let r := login bcrypt_compare app_jwtExpiration cr w in
  r.1 = Ok (error_response DATABASE_ERROR (now w))
  /\ redis r.2
     = <[sessionKey (fresh_token w) :=
           Entry (JSON_stringify_record
                    [(lit "email", VStr (email cr));
                     (lit "timestamp", VStr (iso_string (now w)))]) None]> (redis w).
Proof.
  intros Hnan He Hp Hans Hfound Hcmp r. subst r.
  pose proof (answered_1 _ _ Hans) as F1. pose proof (answered_2 _ _ Hans) as F2.
  pose proof (answered_3 _ _ Hans) as F3.
  destruct (login bcrypt_compare app_jwtExpiration cr w) as [res w'] eqn:Hrun.
  cbn [fst snd].
  unfold login in Hrun.
  rewrite (truthy_nonempty _ He), (truthy_nonempty _ Hp) in Hrun. cbn [negb orb] in Hrun.
  unfold try_catch in Hrun. unfold mbind at 1, M_bind at 1 in Hrun.
  rewrite executeQuery_run in Hrun. cbv zeta in Hrun. rewrite F1, F2, Hfound in Hrun.
  cbn [fst snd] in Hrun.
  unfold mbind at 1, M_bind at 1, lift in Hrun. rewrite Hcmp in Hrun. cbn [negb] in Hrun.
  unfold issue_session in Hrun.
  unfold mbind at 1, M_bind at 1 in Hrun. rewrite generateSessionToken_eq in Hrun.
  unfold mbind at 1, M_bind at 1, new_Date_toISOString in Hrun.
  rewrite Hnan in Hrun.
  unfold mbind at 1, M_bind at 1, storeSession in Hrun.
  unfold mbind at 1, M_bind at 1, set in Hrun. cbn [truthy_number] in Hrun.
  unfold client_set, external in Hrun.
  cbn [fault calls now redis with_calls with_drawn with_redis] in Hrun.
  rewrite F3 in Hrun.
  cbv [mbind M_bind logger mret M_ret lift Date_now throw new_Date_toISOString
       createErrorResponse num_add num_mul Date_toISOString] in Hrun.
  cbn [fst snd now with_log with_redis with_calls with_drawn] in Hrun.
  simplify_eq. split; reflexivity.
Qed.

Lemma expiration_without_number_witness :
  (login toy_compare (Some (lit "one day")) (LoginRequest (lit "u@x.com") (lit "secret"))
     one_user_world).1
    = Ok (error_response DATABASE_ERROR 1771272000000)
  /\ e_expires <$>
       redis (login toy_compare (Some (lit "one day"))
                (LoginRequest (lit "u@x.com") (lit "secret")) one_user_world).2
         !! sessionKey (fresh_token one_user_world)
     = Some None.
Proof.
  pose proof (expiration_without_number toy_compare (Some (lit "one day"))
                (LoginRequest (lit "u@x.com") (lit "secret")) one_user_world alice []) as H.
  cbv zeta in H.
  destruct H as (H1 & H2); [reflexivity | done | done | | reflexivity | reflexivity | ].
  - intros i _. reflexivity.
  - split; [exact H1|]. rewrite H2, lookup_insert_eq. reflexivity.
Defined.

End ExpirationSpec.


(** ** The API-key guard *)

Module GuardFacts.
Import JS Sys Messages CassandraService ApiKeyService ApiKeyGuard.
Import MFacts ApiKeySpec StoreFacts.
Import Spec Samples Notions.

Lemma getApiKey_run apiKey w :
  getApiKey apiKey w =
    match fault w (calls w) with
    | Some e =>
        (Throw e,
         with_log (log w ++ [LogLine ERROR CASSANDRA_QUERY_FAILED
                               [(lit "error", exn_message e)]])
           (with_calls (S (calls w)) w))
    | None =>
        (Ok (match filter (fun row => api_key row = apiKey) (api_keys w) with
             | [] => None
             | row :: _ => Some (KeyData (key_id row) (client_name row) (is_active row))
             end),
         with_calls (S (calls w)) w)
    end.
Proof.
  unfold getApiKey, try_catch, mbind, M_bind, client_execute, external.
  destruct (fault w (calls w)); [reflexivity|].
  cbn [fst snd api_keys with_calls]. by destruct (filter _ (api_keys w)).
Qed.



Lemma getApiKeyClientName_run apiKey w :
  exists w',
    getApiKeyClientName apiKey w =
      (Ok (match fault w (calls w) with
           | Some _ => None
           | None =>
               match filter (fun row => api_key row = apiKey) (api_keys w) with
               | [] => None
               | row :: _ =>
                   if truthy_string (client_name row) then Some (client_name row) else None
               end
           end), w')
    /\ calls w' = S (calls w) /\ api_keys w' = api_keys w.
Proof.
  unfold getApiKeyClientName, try_catch. unfold mbind at 1, M_bind at 1.
  rewrite getApiKey_run.
  destruct (fault w (calls w)); [by eexists|].
  destruct (filter _ (api_keys w)); by eexists.
Qed.

End GuardFacts.

Module GuardSpec.
Import JS Sys Messages CassandraService ApiKeyService ApiKeyGuard.
Import MFacts ApiKeySpec StoreFacts GuardFacts.
Import Spec Samples Notions Scenarios.

(** X14. The guard never returns false and throws nothing but the
    UnauthorizedException with the invalid-key message. It admits a
    request only if the key it extracted (header first, then query) is
    not empty, the lookup and the update of last_used were answered, and
    the first row with that key is active; the admitted request carries
    the key. With no key, or an empty one, the request is refused
    without any call to Cassandra. *)
Theorem guard_admits_only_active_keys (request : HttpRequest) (w : World) :
  match (canActivate request w).1 with
  | Ok admitted =>
      exists key row rest,
        extractApiKey request = Some key /\ key <> []
        /\ req_apiKey admitted = Some key
        /\ headers admitted = headers request /\ query admitted = query request
        /\ filter (fun row => api_key row = key) (api_keys w) = row :: rest
        /\ is_active row = true
        /\ fault w (calls w) = None /\ fault w (S (calls w)) = None
  | Throw e => e = unauthorized
  end
  /\ (truthy_nullable (extractApiKey request) = false ->
      calls (canActivate request w).2 = calls w).
Proof.
  unfold canActivate.
  destruct (extractApiKey request) as [[|c key]|] eqn:Hkey;
    cbn [truthy_nullable truthy_string negb from_option id]; [done| |done].
  split; [|done].
  unfold mbind at 1, M_bind at 1.
  pose proof (validateApiKey_result (c :: key) w) as Hv.
  destruct (validateApiKey (c :: key) w) as [res w1]. cbn [fst] in Hv. subst res.
  destruct (fault w (calls w)) as [e|] eqn:F1; [done|].
  destruct (filter _ (api_keys w)) as [|row rest] eqn:Hrows; [done|].
  destruct (is_active row) eqn:Hact; [|done].
  destruct (fault w (S (calls w))) as [e|] eqn:F2; [done|].
  cbn [andb negb].
  unfold mbind at 1, M_bind at 1.
  destruct (getApiKeyClientName_run (c :: key) w1) as (w2 & -> & _).
  cbn [fst req_apiKey headers query]. exists (c :: key), row, rest. done.
Qed.




(** X16. [getApiKeyClientName] never throws and changes no row. It
    returns a name only when the lookup was answered and the first row
    with that key has that name, not empty; otherwise [null]. *)
Theorem getApiKeyClientName_never_throws (apiKey : jsstring) (w : World) :
  exists name : option jsstring,
    (getApiKeyClientName apiKey w).1 = Ok name
    /\ api_keys (getApiKeyClientName apiKey w).2 = api_keys w
    /\ (forall n, name = Some n ->
         n <> [] /\ fault w (calls w) = None
         /\ exists row rest,
              filter (fun r => api_key r = apiKey) (api_keys w) = row :: rest
              /\ client_name row = n).
Proof.
  destruct (getApiKeyClientName_run apiKey w) as (w' & -> & _ & K).
  eexists. split; [reflexivity|]. split; [exact K|].
  intros n. destruct (fault w (calls w)); [done|].
  destruct (filter _ (api_keys w)) as [|row rest]; [done|].
  destruct (client_name row) as [|c s] eqn:Hn; cbn [truthy_string]; [done|].
  intros Heq. simplify_eq. split; [done|]. split; [done|]. by exists row, rest.
Qed.

End GuardSpec.

Module ApiKeyIssueSpec.
Import JS Sys Messages TokenUtil CassandraService ApiKeyService ApiKeyGuard.
Import MFacts BufferFacts ApiKeySpec StoreFacts GuardFacts GuardSpec.
Import Spec Samples Notions Scenarios.





End ApiKeyIssueSpec.

(** ** Tokens and masked keys *)

Module TokenSpec.
Import JS Sys TokenUtil ApiKeyService.
Import MFacts BufferFacts.
Import Spec Samples Notions.

Lemma lower_hex_value c :
  is_lower_hex c = true -> exists v, hex_value c = Some v /\ v < 16 /\ hex_digit v = c.
Proof.
  unfold is_lower_hex, hex_value, hex_digit. intros H.
  destruct (N.leb_spec 48 c), (N.leb_spec c 57); cbn [andb orb] in *.
  all: try (exists (c - 48); split; [done|]; split; [lia|];
            rewrite (proj2 (N.ltb_lt _ _)) by lia; lia).
  all: destruct (N.leb_spec 97 c), (N.leb_spec c 102); cbn [andb] in *; try done.
  all: exists (c - 87); split; [done|]; split; [lia|];
         rewrite (proj2 (N.ltb_ge _ _)) by lia; lia.
Qed.

Lemma hex_byte h l :
  h < 16 -> l < 16 ->
  Byte.to_N (byte_of_N (16 * h + l)) / 16 = h
  /\ Byte.to_N (byte_of_N (16 * h + l)) mod 16 = l.
Proof.
  intros Hh Hl. rewrite to_N_byte_of_N by lia. split.
  - symmetry. apply (N.div_unique (16 * h + l) 16 h l); lia.
  - symmetry. apply (N.mod_unique (16 * h + l) 16 h l); lia.
Qed.

Lemma lower_hex_round_trip n : forall s,
  (length s <= n)%nat -> forallb is_lower_hex s = true -> Nat.even (length s) = true ->
  toString_hex (Buffer_from_hex s) = s
  /\ (2 * length (Buffer_from_hex s) = length s)%nat.
Proof.
  induction n as [|n IH]; intros [|c1 [|c2 rest]] Hlen Hall Heven; try done;
    cbn [length] in Hlen; try lia.
  cbn [forallb] in Hall. apply andb_true_iff in Hall as [H1 Hall].
  apply andb_true_iff in Hall as [H2 Hall].
  destruct (lower_hex_value c1 H1) as (h & Hh & Hhb & Hhd).
  destruct (lower_hex_value c2 H2) as (l & Hl & Hlb & Hld).
  cbn [Buffer_from_hex]. rewrite Hh, Hl.
  destruct (IH rest ltac:(lia) Hall Heven) as [IH1 IH2].
  destruct (hex_byte h l Hhb Hlb) as [Hdiv Hmod].
  split.
  - change (toString_hex (?b :: ?buf))
      with (hex_digit (Byte.to_N b / 16) :: hex_digit (Byte.to_N b mod 16)
              :: toString_hex buf).
    by rewrite Hdiv, Hmod, Hhd, Hld, IH1.
  - cbn [length]. lia.
Qed.

(** X19. [isValidSessionToken] accepts exactly the renderings in hex of
    32 bytes: a string passes if and only if it is [buf.toString('hex')]
    for some buffer of 32 bytes. *)
Theorem valid_tokens_are_hex_of_32_bytes (token : jsstring) :
  isValidSessionToken token = true
  <-> exists buf : list byte, length buf = 32%nat /\ token = toString_hex buf.
Proof.
  unfold isValidSessionToken. split.
  - intros H. apply andb_true_iff in H as [Hlen Hall]. apply Nat.eqb_eq in Hlen.
    destruct (lower_hex_round_trip (length token) token) as [H1 H2];
      [done | done | by rewrite Hlen |].
    exists (Buffer_from_hex token). split; [lia | done].
  - intros (buf & Hlen & ->).
    rewrite toString_hex_length, Hlen, toString_hex_lower. done.
Qed.

Lemma lookup_repeat {A} (x : A) n i : (i < n)%nat -> repeat x n !! i = Some x.
Proof.
  revert i. induction n as [|n IH]; intros [|i] Hi; cbn [repeat]; try lia; [done|].
  apply IH. lia.
Qed.

(** X18. [maskApiKey] keeps the length of the key and shows at most its
    first four and last four characters: every position from the fifth
    to the fifth from the end holds a star, and a key of at most eight
    characters is all stars. *)
Theorem maskApiKey_hides_the_middle (apiKey : jsstring) :
  length (maskApiKey apiKey) = length apiKey
  /\ (forall i, (i < length apiKey)%nat ->
        maskApiKey apiKey !! i =
          if (length apiKey <=? 8)%nat then Some 42
          else if (i <? 4)%nat || (length apiKey - 4 <=? i)%nat then apiKey !! i
          else Some 42).
Proof.
  unfold maskApiKey. destruct (Nat.leb_spec (length apiKey) 8) as [Hs|Hl].
  - split; [apply repeat_length|]. intros i Hi. by apply lookup_repeat.
  - split.
    + rewrite !length_app, length_take, repeat_length, length_drop. lia.
    + intros i Hi.
      destruct (Nat.ltb_spec i 4) as [H4|H4]; cbn [orb].
      * rewrite lookup_app_l by (rewrite length_take; lia).
        by rewrite lookup_take_lt.
      * rewrite lookup_app_r by (rewrite length_take; lia).
        rewrite length_take, Nat.min_l by lia.
        destruct (Nat.leb_spec (length apiKey - 4) i) as [He|He].
        -- rewrite lookup_app_r by (rewrite repeat_length; lia).
           rewrite repeat_length, lookup_drop. f_equal. lia.
        -- rewrite lookup_app_l by (rewrite repeat_length; lia).
           apply lookup_repeat. lia.
Qed.

End TokenSpec.

(** ** From the client helper through the gate *)

Module GateSpec.
Import JS Sys Messages EncryptionService DecryptPayloadInterceptor.
Import ClientHelper RequestDecryption.
Import MFacts BufferFacts JsonFacts EncryptionFacts InterceptorSpec KeySpec EncryptionSpec.
Import Spec Samples Notions Scenarios.

Section Codec.
Variable cipheriv :
  jsstring -> list byte -> list byte -> list byte -> outcome (list byte * list byte).
Variable decipheriv :
  jsstring -> list byte -> list byte -> list byte -> list byte -> outcome (list byte).

Lemma helper_encrypt_sealed this payload text w sealed :
  JSON_stringify payload = Some text ->
  cipheriv (algorithm this) (encryptionKey this) (fresh_iv w) (utf8_encode text)
    = Ok sealed ->
  ClientHelper.encrypt cipheriv this payload w
    = (Ok (Envelope (toString_hex sealed.1) (toString_hex (fresh_iv w))
             (toString_hex sealed.2)),
       with_drawn (drawn w + 16) w).
Proof.
  intros Htext Hseal. unfold ClientHelper.encrypt. rewrite Htext.
  cbv [mbind M_bind randomBytes lift mret M_ret]. fold (fresh_iv w). by rewrite Hseal.
Qed.

Lemma sealed_is_opened this payload text w w2 sealed :
  opens_what_it_sealed cipheriv decipheriv ->
  utf16_value payload = true -> JSON_stringify payload = Some text ->
  cipheriv (algorithm this) (encryptionKey this) (fresh_iv w) (utf8_encode text)
    = Ok sealed ->
  decrypt decipheriv this
    (Envelope (toString_hex sealed.1) (toString_hex (fresh_iv w)) (toString_hex sealed.2))
    w2 = (Ok text, w2).
Proof.
  intros Hsound Hvalid Htext Hseal.
  erewrite decrypt_opened.
  - by rewrite (utf8_round_trip text (JSON_stringify_well_formed payload text Hvalid Htext)).
  - apply toString_hex_even.
  - cbn [ciphertext iv authTag]. rewrite !hex_round_trip. by apply Hsound.
Qed.

End Codec.

(** X20. The client helper and the service agree. If the helper accepts
    a key string, the service configured with the same key string and
    algorithm derives the same key; and the service decrypts what the
    helper encrypted (a payload with a JSON text, a cipher that opens
    what it sealed) to that JSON text. *)
Theorem client_and_service_agree
    (cipheriv : jsstring -> list byte -> list byte -> list byte
                -> outcome (list byte * list byte))
    (decipheriv : jsstring -> list byte -> list byte -> list byte -> list byte
                  -> outcome (list byte))
    (keyStr alg : jsstring) (env_key env_alg : option jsstring) (helper : keys)
    (payload : value) (text : jsstring) (w0 w1 w2 : World)
    (sealed : list byte * list byte) :
  ApiEncryptionHelper keyStr alg = Ok helper ->
  opens_what_it_sealed cipheriv decipheriv ->
  utf16_value payload = true -> JSON_stringify payload = Some text ->
  cipheriv alg (encryptionKey helper) (fresh_iv w1) (utf8_encode text) = Ok sealed ->
  exists service envelope,
    (initializeKeys (mkConfig (Some keyStr) (Some alg) env_key env_alg) w0).1 = Ok service
    /\ service = helper
    /\ (ClientHelper.encrypt cipheriv helper payload w1).1 = Ok envelope
    /\ (decrypt decipheriv service envelope w2).1 = Ok text.
Proof.
  intros Hhelper Hsound Hvalid Htext Hseal.
  unfold ApiEncryptionHelper in Hhelper.
  destruct (Nat.ltb_spec (length keyStr) 32) as [Hshort|Hlong]; [done|].
  simplify_eq. set (helper := Keys (hex_or_padded_key keyStr) alg) in *.
  change alg with (algorithm helper) in Hseal.
  exists helper. eexists. split.
  { rewrite initializeKeys_long by done. reflexivity. }
  split; [reflexivity|].
  rewrite (helper_encrypt_sealed cipheriv helper payload text w1 sealed Htext Hseal).
  split; [reflexivity|].
  by rewrite (sealed_is_opened cipheriv decipheriv helper payload text w1 w2 sealed).
Qed.

Lemma client_and_service_agree_witness :
  exists service envelope,
    (initializeKeys (mkConfig (Some acme_key) (Some (lit "aes-256-gcm")) None None)
       quiet_world).1 = Ok service
    /\ service = Keys (Buffer_from_hex acme_key) (lit "aes-256-gcm")
    /\ (ClientHelper.encrypt toy_cipheriv (Keys (Buffer_from_hex acme_key) (lit "aes-256-gcm"))
          sample_payload quiet_world).1 = Ok envelope
    /\ (decrypt toy_decipheriv service envelope quiet_world).1
       = Ok (default [] (JSON_stringify sample_payload)).
Proof.
  refine (client_and_service_agree toy_cipheriv toy_decipheriv acme_key (lit "aes-256-gcm")
            None None (Keys (Buffer_from_hex acme_key) (lit "aes-256-gcm")) sample_payload
            (default [] (JSON_stringify sample_payload)) quiet_world quiet_world quiet_world
            _ _ toy_opens_what_it_sealed _ _ _);
    reflexivity.
Defined.

(** X21. Through the gate. The envelope the helper makes of a payload
    (ciphertext and tag not empty), sent as the body of a POST, PUT or
    PATCH request, passes the interceptor with the service's own
    [decryptFromRequest]: the body becomes what [JSON.parse] makes of
    the payload's JSON text, and the request is rejected with the one
    bad-request error if [JSON.parse] refuses that text. *)
Theorem sealed_request_is_opened
    (cipheriv : jsstring -> list byte -> list byte -> list byte
                -> outcome (list byte * list byte))
    (decipheriv : jsstring -> list byte -> list byte -> list byte -> list byte
                  -> outcome (list byte))
    (JSON_parse : jsstring -> outcome value)
    (decrypt_other : value -> M jsstring)
    (this : keys) (payload : value) (text : jsstring) (m : jsstring) (w1 w : World)
    (sealed : list byte * list byte) :
  opens_what_it_sealed cipheriv decipheriv ->
  utf16_value payload = true -> JSON_stringify payload = Some text ->
  cipheriv (algorithm this) (encryptionKey this) (fresh_iv w1) (utf8_encode text)
    = Ok sealed ->
  sealed.1 <> [] -> sealed.2 <> [] ->
  mutating m = true ->
  exists envelope,
    (ClientHelper.encrypt cipheriv this payload w1).1 = Ok envelope
    /\ (intercept (decryptFromRequest decipheriv JSON_parse decrypt_other this) JSON_parse
          (mkRequest m (envelope_value envelope)) w).1
       = match JSON_parse text with
         | Ok body => Ok (mkRequest m body)
         | Throw _ => Throw (bad_request INVALID_ENCRYPTED_FORMAT)
         end.
Proof.
  intros Hsound Hvalid Htext Hseal Hc Ht Hm.
  rewrite (helper_encrypt_sealed cipheriv this payload text w1 sealed Htext Hseal).
  eexists. split; [reflexivity|].
  assert (forall buf : list byte, buf <> [] -> truthy_string (toString_hex buf) = true)
    as Hhex by (by intros [|b buf]).
  rewrite intercept_envelope; [| done | done |].
  - cbn [body method]. unfold decryptFromRequest, envelope_value, decrypt_value.
    change (as_payload _) with
      (Some (Envelope (toString_hex sealed.1) (toString_hex (fresh_iv w1))
               (toString_hex sealed.2))).
    cbv beta iota.
    by rewrite (sealed_is_opened cipheriv decipheriv this payload text w1 w sealed).
  - unfold envelope_fields_truthy, envelope_value. cbn [body].
    change (prop _ (lit "ciphertext")) with (VStr (toString_hex sealed.1)).
    change (prop _ (lit "iv")) with (VStr (toString_hex (fresh_iv w1))).
    change (prop _ (lit "authTag")) with (VStr (toString_hex sealed.2)).
    cbn [truthy]. rewrite !Hhex; done.
Qed.

Lemma sealed_request_is_opened_witness :
  exists envelope,
    (ClientHelper.encrypt toy_cipheriv sample_keys sample_payload quiet_world).1
      = Ok envelope
    /\ (intercept (decryptFromRequest toy_decipheriv parse_sample refuse_all sample_keys)
          parse_sample (mkRequest (lit "POST") (envelope_value envelope)) quiet_world).1
       = Ok (mkRequest (lit "POST") sample_payload).
Proof.
  refine (sealed_request_is_opened toy_cipheriv toy_decipheriv parse_sample refuse_all
            sample_keys sample_payload (default [] (JSON_stringify sample_payload))
            (lit "POST") quiet_world quiet_world _ toy_opens_what_it_sealed _ _ _ _ _ _);
    try reflexivity; done.
Defined.

End GateSpec.

(** ** DynamicConfigService *)

Module ConfigKeyFacts.
Import JS Sys DynamicConfigService DefaultConfigs ConfigAccess.
Import MFacts BufferFacts ParseIntFacts.
Import Spec Samples Notions.

Lemma alnum_cases c :
  is_alnum c = true ->
  (is_upper c = true /\ is_lower c = false /\ c <> 95)
  \/ (is_upper c = false /\ is_lower c = true /\ c <> 95)
  \/ (is_upper c = false /\ is_lower c = false /\ c <> 95 /\ 48 <= c <= 57).
Proof.
  unfold is_alnum, is_upper, is_lower. intros H.
  destruct (N.leb_spec 48 c), (N.leb_spec c 57), (N.leb_spec 65 c), (N.leb_spec c 90),
    (N.leb_spec 97 c), (N.leb_spec c 122); cbn [andb orb] in *; try done; try lia;
    first [left; repeat split; lia | right; left; repeat split; lia
          | right; right; repeat split; lia].
Qed.

Lemma camel_of_snake k :
  forallb is_alnum k = true -> camelCaseKey (snakeCaseKey k) = k.
Proof.
  unfold camelCaseKey, snakeCaseKey, toLowerCase, toUpperCase.
  induction k as [|c k IH]; [done|]. cbn [forallb flat_map].
  intros H. apply andb_true_iff in H as [Hc Hk]. specialize (IH Hk).
  destruct (alnum_cases c Hc) as [(Hu & Hl & H95)|[(Hu & Hl & H95)|(Hu & Hl & H95 & Hd)]];
    rewrite Hu; cbn [app map].
  - rewrite Hl, Hu.
    assert (is_lower 95 = false) as -> by done. assert (is_upper 95 = false) as -> by done.
    cbn [capitalize_after_underscore]. assert ((95 =? 95) = true) as -> by done.
    assert (is_lower (c + 32) = true) as ->.
    { unfold is_upper, is_lower in *. apply andb_true_iff in Hu as [H1 H2].
      apply N.leb_le in H1, H2. apply andb_true_iff. split; apply N.leb_le; lia. }
    rewrite IH. f_equal. lia.
  - rewrite Hl.
    assert (is_upper (c - 32) = true) as ->.
    { unfold is_upper, is_lower in *. apply andb_true_iff in Hl as [H1 H2].
      apply N.leb_le in H1, H2. apply andb_true_iff. split; apply N.leb_le; lia. }
    cbn [capitalize_after_underscore].
    assert (c - 32 + 32 = c) as ->.
    { unfold is_lower in Hl. apply andb_true_iff in Hl as [H1 H2].
      apply N.leb_le in H1. lia. }
    rewrite (proj2 (N.eqb_neq _ _) H95). by rewrite IH.
  - rewrite Hl, Hu. cbn [capitalize_after_underscore].
    rewrite (proj2 (N.eqb_neq _ _) H95). by rewrite IH.
Qed.

End ConfigKeyFacts.

Module ConfigKeySpec.
Import JS Sys DynamicConfigService DefaultConfigs ConfigAccess.
Import MFacts BufferFacts ParseIntFacts ConfigKeyFacts.
Import Spec Samples Notions.

(** X22. The two spellings of a configuration key. For a key made of
    ASCII letters and digits, [camelCaseKey] brings back the key that
    [snakeCaseKey] turned into upper snake case (a spelling with no
    lowercase letter). *)
Theorem key_names_round_trip (key : jsstring) :
  forallb is_alnum key = true ->
  camelCaseKey (snakeCaseKey key) = key
  /\ forallb (fun c => negb (is_lower c)) (snakeCaseKey key) = true.
Proof.
  intros H. split; [by apply camel_of_snake|].
  unfold snakeCaseKey, toUpperCase. rewrite forallb_forall. intros c Hc.
  apply in_map_iff in Hc as (x & <- & _).
  destruct (is_lower x) eqn:Hx; [|by rewrite Hx].
  unfold is_lower in *. apply andb_true_iff in Hx as [H1 H2].
  apply N.leb_le in H1, H2. apply negb_true_iff, andb_false_iff.
  left. apply N.leb_gt. lia.
Qed.

Lemma key_names_round_trip_witness :
  camelCaseKey (snakeCaseKey (lit "neo4jHost")) = lit "neo4jHost"
  /\ snakeCaseKey (lit "neo4jHost") = lit "NEO4J_HOST".
Proof.
  split; [|reflexivity].
  exact (proj1 (key_names_round_trip (lit "neo4jHost") eq_refl)).
Defined.

End ConfigKeySpec.

Module DefaultsSpec.
Import JS Sys DynamicConfigService DefaultConfigs ConfigAccess.
Import MFacts BufferFacts ParseIntFacts ConfigKeyFacts.
Import Spec Samples Notions.

Lemma default_entries_cases environment :
  default_entries environment ∈ [local; dev; stage; prod; []].
Proof.
  unfold default_entries, DEFAULT_CONFIGS.
  cbn [list_find fst snd].
  destruct (decide (lit "local" = environment)); cbn [fmap option_fmap option_map];
    [set_solver|].
  destruct (decide (lit "dev" = environment)); cbn [fmap option_fmap option_map prod_map];
    [set_solver|].
  destruct (decide (lit "stage" = environment)); cbn [fmap option_fmap option_map prod_map];
    [set_solver|].
  destruct (decide (lit "prod" = environment)); cbn [fmap option_fmap option_map prod_map];
    [set_solver|].
  destruct (bool_decide _); set_solver.
Qed.

Lemma defaults_lookup :
  forallb (fun entries =>
     forallb (fun key =>
        bool_decide (key = lit "port")
        || match prop (VObj (config_of_entries entries)) key with VUndefined => true | _ => false end)
       ApplicationConfig_keys)
    [local; dev; stage; prod; []] = true.
Proof. vm_compute. reflexivity. Qed.

Lemma defaults_undefined this key :
  key ∈ ApplicationConfig_keys -> key <> lit "port" ->
  prop (VObj (buildConfigFromDefaults this)) key = VUndefined.
Proof.
  intros Hkey Hport.
  change (buildConfigFromDefaults this) with (config_of_entries (default_entries (environment this))).
  pose proof defaults_lookup as H. rewrite forallb_forall in H.
  specialize (H _ (proj1 (list_elem_of_In _ _) (default_entries_cases (environment this)))).
  rewrite forallb_forall in H. specialize (H key (proj1 (list_elem_of_In _ _) Hkey)).
  rewrite bool_decide_eq_false_2 in H by done. cbn [orb] in H.
  by destruct (prop _ key).
Qed.

(** X23. The defaults are out of reach. [buildConfigFromDefaults] passes
    the keys of DEFAULT_CONFIGS, which are already in camel case,
    through [camelCaseKey], which lowercases them. So while the
    configuration is not loaded, or after loading has failed, [getConfig]
    of every key of ApplicationConfig other than port is [undefined],
    and [getConfigWithFallback] returns the fallback, in every
    environment. *)
Theorem defaults_are_out_of_reach (this : service) (key : jsstring) (fallback : value)
    (w : World) :
  config this = None \/ config this = Some (buildConfigFromDefaults this) ->
  key ∈ ApplicationConfig_keys -> key <> lit "port" ->
  (getConfig this key w).1 = Ok VUndefined
  /\ (getConfigWithFallback this key fallback w).1 = Ok fallback.
Proof.
  intros Hcfg Hkey Hport.
  pose proof (defaults_undefined this key Hkey Hport) as Hu.
  unfold getConfigWithFallback, try_catch, mbind, M_bind, getConfig.
  destruct Hcfg as [-> | ->]; cbv [logger mbind M_bind mret M_ret]; cbn [fst];
    rewrite Hu; done.
Qed.

Lemma defaults_are_out_of_reach_witness :
  (getConfigWithFallback (new_service (Some (lit "prod"))) (lit "encryptionKey")
     (VStr (lit "from the environment")) quiet_world).1
    = Ok (VStr (lit "from the environment"))
  /\ (getConfigWithFallback (after_failed_load (new_service None)) (lit "redisHost")
        VNull quiet_world).1 = Ok VNull.
Proof.
  split.
  - apply (defaults_are_out_of_reach (new_service (Some (lit "prod"))) (lit "encryptionKey")
             (VStr (lit "from the environment")) quiet_world).
    + by left.
    + apply (bool_decide_unpack _). vm_compute. exact I.
    + done.
  - apply (defaults_are_out_of_reach (after_failed_load (new_service None))
             (lit "redisHost") VNull quiet_world).
    + right. vm_compute. reflexivity.
    + apply (bool_decide_unpack _). vm_compute. exact I.
    + done.
Defined.

End DefaultsSpec.

Module DecimalFacts.
Import JS Sys DynamicConfigService DefaultConfigs ConfigAccess.
Import MFacts BufferFacts ParseIntFacts ConfigKeyFacts.
Import Spec Samples Notions.

Local Abbreviation step := (fun a c : N => a * 10 + (c - 48)).

Lemma units_digits d : Forall is_digit (lit (NilEmpty.string_of_uint d)).
Proof.
  induction d; cbn; [constructor| | | | | | | | | |];
    (constructor; [unfold is_digit; lia | exact IHd]).
Qed.

Lemma units_acc d : forall acc,
  fold_left step (lit (NilEmpty.string_of_uint d)) (Npos acc) = Npos (Pos.of_uint_acc d acc).
Proof.
  induction d; intros acc; cbn [NilEmpty.string_of_uint Pos.of_uint_acc]; [done|..];
    (etransitivity; [|apply IHd]); cbn; f_equal; lia.
Qed.

Lemma units_value d : fold_left step (lit (NilEmpty.string_of_uint d)) 0 = Pos.of_uint d.
Proof.
  induction d; cbn [NilEmpty.string_of_uint Pos.of_uint]; [done|exact IHd|..];
    (etransitivity; [|apply units_acc]); cbn; f_equal.
Qed.

Lemma positive_units p :
  lit (NilZero.string_of_uint (Pos.to_uint p)) <> []
  /\ Forall is_digit (lit (NilZero.string_of_uint (Pos.to_uint p)))
  /\ fold_left step (lit (NilZero.string_of_uint (Pos.to_uint p))) 0 = Npos p.
Proof.
  pose proof (DecimalPos.Unsigned.of_to p) as Hp.
  pose proof (units_value (Pos.to_uint p)) as Hv. rewrite Hp in Hv.
  pose proof (units_digits (Pos.to_uint p)) as Hd.
  destruct (Pos.to_uint p) eqn:Hu; [done|..]; cbn [NilZero.string_of_uint]; done.
Qed.

Lemma parseInt10_digits s :
  s <> [] -> Forall is_digit s -> parseInt10 s = Num (Z.of_N (fold_left step s 0)).
Proof.
  intros Hne Hall. destruct Hall as [|c rest Hc Hrest]; [done|].
  unfold parseInt10. cbn [trim_start]. rewrite (digit_not_whitespace c Hc).
  unfold strip_sign. destruct (digit_not_sign c Hc) as [-> ->].
  cbn [digits]. rewrite (digit_value_digit c Hc).
  rewrite (digits_all_digits rest Hrest). reflexivity.
Qed.

Lemma parseInt10_negative s :
  s <> [] -> Forall is_digit s ->
  parseInt10 (45 :: s) = Num (- Z.of_N (fold_left step s 0)).
Proof.
  intros Hne Hall. destruct Hall as [|c rest Hc Hrest]; [done|].
  unfold parseInt10. cbn [trim_start is_whitespace]. cbn [strip_sign].
  assert (is_whitespace 45 = false) as -> by done.
  unfold strip_sign. assert ((45 =? 45) = true) as -> by done.
  cbn [digits]. rewrite (digit_value_digit c Hc).
  rewrite (digits_all_digits rest Hrest). reflexivity.
Qed.

Lemma parseInt10_decimal z : parseInt10 (decimal z) = Num z.
Proof.
  unfold decimal. destruct z as [|p|p]; cbn [Z.to_int NilZero.string_of_int].
  - reflexivity.
  - destruct (positive_units p) as (Hne & Hd & Hv).
    rewrite parseInt10_digits by done. by rewrite Hv.
  - destruct (positive_units p) as (Hne & Hd & Hv).
    change (lit (String "-" ?s)) with (45 :: lit s).
    rewrite parseInt10_negative by done. by rewrite Hv.
Qed.

End DecimalFacts.

Module SeedSpec.
Import JS Sys DynamicConfigService DefaultConfigs ConfigAccess.
Import MFacts BufferFacts ParseIntFacts ConfigKeyFacts DecimalFacts.
Import Spec Samples Notions.

Lemma parse_of_String v :
  seedable v -> parseConfigValue (String_ v) (typeof v) = v.
Proof.
  destruct v as [| |[|]|[z|]|s| |]; try done; intros _; unfold parseConfigValue;
    cbn [typeof String_].
  rewrite decide_True by done. rewrite parseInt10_decimal.
  destruct z; reflexivity.
Qed.

Lemma load_of_seed key v :
  forallb is_alnum key = true -> seedable v -> load_row (seed_row key v) = (key, v).
Proof.
  intros Hk Hv. unfold load_row, seed_row. cbn [config_key config_value config_type].
  by rewrite camel_of_snake, parse_of_String.
Qed.

Lemma assoc_obj_set k k' v o :
  assoc k (obj_set k' v o) = if decide (k' = k) then Some v else assoc k o.
Proof.
  induction o as [|[k1 v1] o IH]; cbn [obj_set assoc].
  - done.
  - destruct (decide (k1 = k')) as [->|Hne]; cbn [assoc].
    + by destruct (decide (k' = k)).
    + destruct (decide (k1 = k)) as [->|Hne'].
      * by rewrite decide_False by done.
      * exact IH.
Qed.

Local Abbreviation put :=
  (fun (m : list (jsstring * value)) (p : jsstring * value) => obj_set p.1 p.2 m).

Lemma assoc_fold_other k ps : forall acc,
  k ∉ ps.*1 -> assoc k (fold_left put ps acc) = assoc k acc.
Proof.
  induction ps as [|[k1 v1] ps IH]; intros acc Hk; cbn [fold_left]; [done|].
  cbn [fmap list_fmap fst] in Hk. apply not_elem_of_cons in Hk as [Hne Hk].
  rewrite IH by done. cbn [fst snd]. rewrite assoc_obj_set. by rewrite decide_False.
Qed.

Lemma assoc_fold_member k v ps : forall acc,
  NoDup ps.*1 -> (k, v) ∈ ps -> assoc k (fold_left put ps acc) = Some v.
Proof.
  induction ps as [|[k1 v1] ps IH]; intros acc Hnd Hin; [by apply elem_of_nil in Hin|].
  cbn [fmap list_fmap fst] in Hnd. apply NoDup_cons in Hnd as [Hk1 Hnd].
  cbn [fold_left fst snd]. apply elem_of_cons in Hin as [Heq|Hin].
  - simplify_eq. rewrite assoc_fold_other by done. rewrite assoc_obj_set.
    by rewrite decide_True.
  - by apply IH.
Qed.

(** X24. What was seeded is loaded back. For entries with distinct keys
    made of ASCII letters and digits and values that are strings,
    booleans or integers: from the rows [seedDefaultConfigs] writes for
    them, read in any order, [loadConfigsFromCassandra] builds a
    configuration in which every key has the value it was seeded
    with. *)
Theorem seeded_rows_load_back (entries : list (jsstring * value))
    (rows : list config_row) :
  NoDup entries.*1 ->
  Forall (fun entry => forallb is_alnum entry.1 = true /\ seedable entry.2) entries ->
  rows ≡ₚ (fun entry => seed_row entry.1 entry.2) <$> entries ->
  forall key v, (key, v) ∈ entries -> prop (VObj (loaded_config rows)) key = v.
Proof.
  intros Hnd Hall Hperm key v Hin.
  assert (load_row <$> rows ≡ₚ entries) as Hloaded.
  { rewrite Hperm, <- list_fmap_compose.
    rewrite <- (list_fmap_id entries) at 2. apply reflexive_eq, list_fmap_ext.
    intros i [k x] Hi. apply (Forall_lookup_1 _ _ _ _ Hall) in Hi as [Hk Hx].
    cbn. by apply load_of_seed. }
  unfold loaded_config.
  assert (forall acc, fold_left
            (fun configMap row => obj_set (load_row row).1 (load_row row).2 configMap)
            rows acc = fold_left put (load_row <$> rows) acc) as ->.
  { clear. induction rows as [|row rows' IH]; intros acc; [done|].
    cbn [fold_left fmap list_fmap]. apply IH. }
  cbn [prop]. rewrite (assoc_fold_member key v); [done| |].
  - by rewrite Hloaded.
  - by rewrite Hloaded.
Qed.

Lemma seeded_rows_load_back_witness :
  prop (VObj (loaded_config (rev ((fun entry => seed_row entry.1 entry.2) <$> prod))))
    (lit "bcryptRounds") = VNum (Num 15)
  /\ seed_row (lit "bcryptRounds") (VNum (Num 15))
     = ConfigRow (lit "BCRYPT_ROUNDS") (lit "15") (lit "number").
Proof.
  split; [|reflexivity].
  apply (seeded_rows_load_back prod).
  - apply (bool_decide_unpack _). vm_compute. exact I.
  - apply Forall_forall. intros entry Hin.
    repeat (apply elem_of_cons in Hin as [->|Hin]; [split; [reflexivity|]; cbn; try lia; exact I|]).
    by apply elem_of_nil in Hin.
  - by rewrite rev_alt, <- reverse_Permutation.
  - unfold prod. do 18 apply list_elem_of_further. apply list_elem_of_here.
Defined.

End SeedSpec.

(** ** Neo4jService *)

Module GraphSpec.
Import JS Sys Messages RedisService Neo4jService TokenUtil AuthService.
Import MFacts RedisFacts AuthFacts StoreFacts SteadyFacts GraphFacts.
Import Spec Samples Notions.

(** X25. [executeQuery] closes the session on every path: it always
    makes two calls. A failure to close is thrown in place of the
    result, even of a query that succeeded; a failed query with a
    closed session throws the query's error. A CREATE that was answered
    has created the user, whatever happens on closing. *)
Theorem executeQuery_closes_the_session (q : cypher) (w : World) :
  let r := executeQuery q w in
  calls r.2 = S (S (calls w))
  /\ r.1 = match fault w (S (calls w)), fault w (calls w) with
           | Some e, _ => Throw e
           | None, Some e => Throw e
           | None, None =>
               Ok (match q with
                   | MatchUserRecord email | MatchUser email =>
                       filter (fun u => u_email u = email) (users w)
                   | CreateUser _ _ => []
                   end)
           end
  /\ users r.2 = match q, fault w (calls w) with
                 | CreateUser email hashedPassword, None =>
                     users w ++ [UserNode email hashedPassword (now w)]
                 | _, _ => users w
                 end.
Proof.
  intros r. subst r. rewrite executeQuery_run. cbv zeta. cbn [fst snd calls with_calls].
  split; [done|].
  destruct (fault w (S (calls w))) as [e2|], (fault w (calls w)) as [e1|], q; done.
Qed.

End GraphSpec.
